(** * The transactional data block of the TAE storage engine

    A shallow embedding of [tables.dataBlock] (package
    [pkg/vm/engine/tae/tables]): scoring and compaction scheduling, destroy,
    point reads, the two update paths, PK filters and replay on open.

    The block's collaborators (the MVCC handle of package [updates], the PK
    index of package [indexwrapper], the appendable node and the block file)
    are modelled next to it; their definitions say where they come from. *)

From Stdlib Require Import ZArith Floats Uint63 Bool Lia.
From stdpp Require Import gmap list sorting.

Set Warnings "-inexact-float".
Open Scope Z_scope.

(** * Machine numbers *)

(** Go's [uint16(i)] and [uint32(i)] conversions and wrap-around. *)
Definition uint16 (z : Z) : Z := z mod 2 ^ 16.
Definition uint32 (z : Z) : Z := z mod 2 ^ 32.

(** IEEE 754 binary64 values are Rocq's primitive floats; the arithmetic of
    [PrimFloat] is the arithmetic of Go's [float64] (each operation rounded
    on its own, to nearest even). *)
Module F64.

(** [float64(x)] for an unsigned counter or a non-negative [int]. *)
Definition of_int (z : Z) : float := PrimFloat.of_uint63 (Uint63.of_Z z).

(** [int(f)]: the fraction is discarded (truncation towards zero). For a
    NaN, an infinity or a value outside [int64] the Go specification leaves
    the result to the implementation: [None]. *)
Definition to_int (f : float) : option Z :=
  match Prim2SF f with
  | S754_zero _ => Some 0
  | S754_finite s m e =>
      let a := if 0 <=? e then Z.pos m * 2 ^ e else Z.pos m / 2 ^ (- e) in
      let t := if s then - a else a in
      if (- 2 ^ 63 <=? t) && (t <? 2 ^ 63) then Some t else None
  | _ => None
  end.

(** Rounding to the nearest integer, halves away from zero: what a
    specification means by [round]. The code never calls it. *)
Definition round (f : float) : option Z :=
  match Prim2SF f with
  | S754_zero _ => Some 0
  | S754_finite s m e =>
      let a := if 0 <=? e then Z.pos m * 2 ^ e
               else (2 * Z.pos m + 2 ^ (- e)) / 2 ^ (- e + 1) in
      let t := if s then - a else a in
      if (- 2 ^ 63 <=? t) && (t <? 2 ^ 63) then Some t else None
  | _ => None
  end.

(** Sign bit clear, or not a number. *)
Definition nonneg_sf (x : spec_float) : Prop :=
  match x with
  | S754_zero s | S754_infinity s | S754_finite s _ _ => s = false
  | S754_nan => True
  end.

Definition nonneg (f : float) : Prop := nonneg_sf (Prim2SF f).

End F64.

(** * Errors

    The sentinel errors the block compares against, and one constructor for
    the I/O failures of the file and buffer layers. Go's nilable [error] is
    [option error]. *)
Inductive error : Set :=
| ErrNotFound
| ErrDuplicate
| ErrPossibleDuplicate
| ErrUpdateHiddenKey
| TxnInternalErr
| TxnWWConflictErr
| ErrIO (code : Z).

#[global] Instance error_eq_dec : EqDecision error.
Proof. solve_decision. Defined.

(** A cell value; Go's [any] holding one, or [nil], is [option val]. *)
Abbreviation val := Z.

(** * Catalog metadata (package [catalog])

    The block reads its metadata through these accessors only; the catalog's
    own code is not part of the block, so the flags are fields. *)
Record SortKeyDef := {
  Defs : list nat;          (* SortKey.Defs[i].Idx *)
  IsPrimary : bool;
}.

Record Schema := {
  ColDefs : nat;            (* len(schema.ColDefs) *)
  BlockMaxRows : Z;         (* uint32 *)
  SortKey : option SortKeyDef;
  HiddenKey : nat;          (* schema.HiddenKey.Idx *)
}.

(** Modelled from the spec: the schema accessors of package [catalog]. A
    schema has zero or more sort-key columns, and the sort key may be the
    primary key. *)
Definition HasSortKey (s : Schema) : bool := bool_decide (is_Some (SortKey s)).
Definition HasPK (s : Schema) : bool :=
  match SortKey s with Some k => IsPrimary k | None => false end.
Definition IsSinglePK (s : Schema) : bool :=
  match SortKey s with
  | Some k => IsPrimary k && bool_decide (length (Defs k) = 1%nat)
  | None => false
  end.
Definition GetSingleSortKeyIdx (s : Schema) : nat :=
  match SortKey s with Some k => hd 0%nat (Defs k) | None => 0%nat end.

Record BlockEntry := {
  AsCommonID : Z;
  GetSchema : Schema;
  IsAppendable : bool;
  IsDroppedCommitted : bool;
  IsDroppedUncommitted : bool;
  HasActiveTxn : bool;
}.

(** * Transactions (interface [txnif.AsyncTxn])

    A transaction is known to the block by its start timestamp, which also
    identifies it. *)
Record AsyncTxn := { GetStartTS : Z }.

(** * The MVCC handle (package [updates]) *)

(** Modelled from the spec: the update node of a column chain (package
    [updates], whose code is not part of package [tables]). It carries a row
    mask and, parallel to it, the new
    values (here one map from row offset to value), the start timestamp of
    its transaction and its commit timestamp, [None] while uncommitted. Its
    link to the transaction is a weak back-reference, asked for the state of
    the transaction when visibility is decided; [cn_unknown] says that the
    state cannot be told. *)
Record ColumnNode := {
  cn_start : Z;
  cn_commit : option Z;
  cn_vals : gmap nat val;
  cn_unknown : bool;
}.

(** A chain is the list of its nodes, most recent first. *)
Abbreviation ColumnChain := (list ColumnNode).

(** Modelled from the spec: a delete node owns a row set, a commit
    timestamp and a reference to its transaction; [dn_unknown] says that the
    state of that transaction cannot be told. *)
Record DeleteNode := {
  dn_start : Z;
  dn_commit : option Z;
  dn_mask : gset nat;
  dn_unknown : bool;
}.

(** Modelled from the spec: one batch of appended rows; [an_maxrow] is the
    row count of the block once the batch is in. *)
Record AppendNode := {
  an_commit : option Z;
  an_maxrow : nat;
}.

(** Modelled from the spec: the handle keeps the append nodes, one update
    chain per column, the delete chain and [maxVisible]. The three counters
    read by the scoring code are maintained inside package [updates]; here
    they are plain fields. *)
Record MVCCHandle := {
  appends : list AppendNode;
  columns : gmap nat ColumnChain;
  deletes : list DeleteNode;
  LoadMaxVisible : Z;
  GetChangeNodeCnt : Z;             (* uint32 *)
  GetColumnUpdateCnt : Z -> Z;      (* uint16 -> uint32 *)
  GetDeleteCnt : Z;                 (* uint32 *)
}.

Definition set_columns (h : MVCCHandle) (cs : gmap nat ColumnChain) : MVCCHandle :=
  {| appends := appends h; columns := cs; deletes := deletes h;
     LoadMaxVisible := LoadMaxVisible h; GetChangeNodeCnt := GetChangeNodeCnt h;
     GetColumnUpdateCnt := GetColumnUpdateCnt h; GetDeleteCnt := GetDeleteCnt h |}.

Definition set_deletes (h : MVCCHandle) (ds : list DeleteNode) : MVCCHandle :=
  {| appends := appends h; columns := columns h; deletes := ds;
     LoadMaxVisible := LoadMaxVisible h; GetChangeNodeCnt := GetChangeNodeCnt h;
     GetColumnUpdateCnt := GetColumnUpdateCnt h; GetDeleteCnt := GetDeleteCnt h |}.

Definition set_appends (h : MVCCHandle) (ans : list AppendNode) : MVCCHandle :=
  {| appends := ans; columns := columns h; deletes := deletes h;
     LoadMaxVisible := LoadMaxVisible h; GetChangeNodeCnt := GetChangeNodeCnt h;
     GetColumnUpdateCnt := GetColumnUpdateCnt h; GetDeleteCnt := GetDeleteCnt h |}.

(** Modelled from the spec: [maxVisible] is the commit timestamp watermark
    of the handle; the setter stores it. *)
Definition SetMaxVisible (h : MVCCHandle) (ts : Z) : MVCCHandle :=
  {| appends := appends h; columns := columns h; deletes := deletes h;
     LoadMaxVisible := ts; GetChangeNodeCnt := GetChangeNodeCnt h;
     GetColumnUpdateCnt := GetColumnUpdateCnt h; GetDeleteCnt := GetDeleteCnt h |}.

(** Modelled from the spec: a fresh handle has empty chains, one per column. *)
Definition NewMVCCHandle (meta : BlockEntry) : MVCCHandle :=
  {| appends := []; columns := ∅; deletes := [];
     LoadMaxVisible := 0; GetChangeNodeCnt := 0;
     GetColumnUpdateCnt := fun _ => 0; GetDeleteCnt := 0 |}.

(** Modelled from the spec: the chain of a column, empty until a node is
    added. *)
Definition GetColumnChain (h : MVCCHandle) (colIdx : nat) : ColumnChain :=
  default [] (columns h !! colIdx).

(** ** Visibility *)

Definition committed_at (commit : option Z) (ts : Z) : bool :=
  match commit with Some c => c <=? ts | None => false end.

(** Some delete node that covers [row] belongs to a transaction whose state
    cannot be told. *)
Definition delete_undecided (h : MVCCHandle) (row : nat) : bool :=
  existsb (fun n => dn_unknown n && bool_decide (row ∈ dn_mask n)) (deletes h).

(** Modelled from the spec: a row offset is deleted at [ts] iff some
    committed delete node visible at [ts] covers it. Where the handle cannot
    decide, because the state of the transaction of a node that covers the
    row cannot be told, it reports [TxnInternalErr]. *)
Definition IsDeletedLocked (h : MVCCHandle) (row : nat) (ts : Z) : bool * option error :=
  if delete_undecided h row then (false, Some TxnInternalErr)
  else
    (existsb (fun n => committed_at (dn_commit n) ts && bool_decide (row ∈ dn_mask n))
             (deletes h), None).

(** Modelled from the spec: the highest row whose append is committed at or
    before [ts], and whether there is one. *)
Definition GetMaxVisibleRowLocked (h : MVCCHandle) (ts : Z) : nat * bool * option error :=
  let vis := filter (fun n => committed_at (an_commit n) ts = true) (appends h) in
  (foldr (fun n acc => Nat.max (an_maxrow n) acc) 0%nat vis,
   bool_decide (vis ≠ []), None).

(** The update of [row] carried by node [n] if it is committed at [ts]. *)
Definition visible_update (n : ColumnNode) (row : nat) (ts : Z) : option (Z * val) :=
  match cn_commit n, cn_vals n !! row with
  | Some c, Some v => if c <=? ts then Some (c, v) else None
  | _, _ => None
  end.

(** Modelled from the spec: among the committed update nodes visible at
    [ts], the one with the greatest commit timestamp wins. *)
Fixpoint latest_update (chain : ColumnChain) (row : nat) (ts : Z) : option (Z * val) :=
  match chain with
  | [] => None
  | n :: rest =>
      match visible_update n row ts, latest_update rest row ts with
      | Some (c, v), Some (c', v') => if c' <=? c then Some (c, v) else Some (c', v')
      | Some cv, None => Some cv
      | None, r => r
      end
  end.

(** Some node of the chain that writes [row] belongs to a transaction whose
    state cannot be told. *)
Definition update_undecided (chain : ColumnChain) (row : nat) : bool :=
  existsb (fun n => cn_unknown n && bool_decide (is_Some (cn_vals n !! row))) chain.

(** Modelled from the spec: the latest visible update of the row, or
    [ErrNotFound] when the chain has none; [TxnInternalErr] where the chain
    cannot decide, because the state of the transaction of a node that
    writes the row cannot be told. *)
Definition GetValueLocked (chain : ColumnChain) (row : nat) (ts : Z)
  : option val * option error :=
  if update_undecided chain row then (None, Some TxnInternalErr)
  else
    match latest_update chain row ts with
    | Some (_, v) => (Some v, None)
    | None => (None, Some ErrNotFound)
    end.

(** ** Conflict checks *)

Definition rows_between (start end_ : nat) : list nat := seq start (S end_ - start).

Definition mask_overlaps (mask : gset nat) (start end_ : nat) : bool :=
  existsb (fun r => bool_decide (r ∈ mask)) (rows_between start end_).

(** Modelled from the spec: an updater whose target is deleted at its start
    timestamp observes [NotFound]; a delete that is in flight, or committed
    after that timestamp, is a write-write conflict. *)
Fixpoint PrepareRangeDelete (ds : list DeleteNode) (start end_ : nat) (ts : Z) : option error :=
  match ds with
  | [] => None
  | n :: rest =>
      if mask_overlaps (dn_mask n) start end_
      then Some (if committed_at (dn_commit n) ts then ErrNotFound else TxnWWConflictErr)
      else PrepareRangeDelete rest start end_ ts
  end.

(** Modelled from the spec: [checkNotDeleted] asks the delete chain. *)
Definition CheckNotDeleted (h : MVCCHandle) (start end_ : nat) (ts : Z) : option error :=
  PrepareRangeDelete (deletes h) start end_ ts.

(** A write of node [n] on a row of the range that a transaction started at
    [ts] may not overwrite: the write of another transaction still in flight,
    or one committed after [ts]. *)
Definition update_conflicts (n : ColumnNode) (start end_ : nat) (ts : Z) : bool :=
  mask_overlaps (dom (cn_vals n)) start end_ &&
  match cn_commit n with
  | Some c => ts <? c
  | None => negb (cn_start n =? ts)
  end.

Definition chain_conflicts (chain : ColumnChain) (start end_ : nat) (ts : Z) : bool :=
  existsb (fun n => update_conflicts n start end_ ts) chain.

(** Modelled from the spec: [checkNotUpdated] takes a row range and no
    column, and reports a conflict if any row of the range was updated, in
    whichever column. *)
Definition CheckNotUpdated (h : MVCCHandle) (start end_ : nat) (ts : Z) : option error :=
  if existsb (fun kc => chain_conflicts kc.2 start end_ ts) (map_to_list (columns h))
  then Some TxnWWConflictErr else None.

(** ** Column chain updates *)

(** Modelled from the spec: [addNode] appends an (empty, uncommitted) update
    node owned by [txn]; it becomes the head of the chain. *)
Definition AddNodeLocked (chain : ColumnChain) (txn : AsyncTxn) : ColumnChain * ColumnNode :=
  let n := {| cn_start := GetStartTS txn; cn_commit := None; cn_vals := ∅;
              cn_unknown := false |} in
  (n :: chain, n).

(** Modelled from the spec: [tryUpdate] writes [v] at [row] in the node just
    added, unless the row is covered by a conflicting write of the chain. *)
Definition TryUpdateNodeLocked (chain : ColumnChain) (row : nat) (v : val) (node : ColumnNode)
  : ColumnChain * ColumnNode * option error :=
  match chain with
  | [] => (chain, node, Some TxnInternalErr)
  | _ :: rest =>
      if chain_conflicts rest row row (cn_start node)
      then (chain, node, Some TxnWWConflictErr)
      else
        let node := {| cn_start := cn_start node; cn_commit := cn_commit node;
                       cn_vals := <[row := v]> (cn_vals node);
                       cn_unknown := cn_unknown node |} in
        (node :: rest, node, None)
  end.

(** Modelled from the spec: on rejection the node is removed from the chain. *)
Definition DeleteNodeLocked (chain : ColumnChain) : ColumnChain := tail chain.

(** ** Replay hooks

    Modelled from the spec: the constructors of committed nodes and the
    [onReplay] hooks of the handle, which reinstate a node during open and
    bypass the conflict checks. *)

Definition NewCommittedAppendNode (ts : Z) (maxRow : nat) : AppendNode :=
  {| an_commit := Some ts; an_maxrow := maxRow |}.

Definition OnReplayAppendNode (h : MVCCHandle) (an : AppendNode) : MVCCHandle :=
  set_appends h (appends h ++ [an]).

Definition NewCommittedColumnNode (startTs commitTs : Z) : ColumnNode :=
  {| cn_start := startTs; cn_commit := Some commitTs; cn_vals := ∅; cn_unknown := false |}.

(** [SetMask] and [SetValues] together. *)
Definition SetMaskValues (n : ColumnNode) (vals : gmap nat val) : ColumnNode :=
  {| cn_start := cn_start n; cn_commit := cn_commit n; cn_vals := vals;
     cn_unknown := cn_unknown n |}.

Definition OnReplayUpdateNode (chain : ColumnChain) (n : ColumnNode) : ColumnChain :=
  n :: chain.

Definition NewMergedNode (commitTs : Z) : DeleteNode :=
  {| dn_start := commitTs; dn_commit := Some commitTs; dn_mask := ∅; dn_unknown := false |}.

Definition SetDeletes (n : DeleteNode) (mask : gset nat) : DeleteNode :=
  {| dn_start := dn_start n; dn_commit := dn_commit n; dn_mask := mask;
     dn_unknown := dn_unknown n |}.

Definition OnReplayDeleteNode (h : MVCCHandle) (n : DeleteNode) : MVCCHandle :=
  set_deletes h (n :: deletes h).

(** * The PK index (package [indexwrapper]) *)

(** Modelled from the spec: the index of an appendable block is a map from
    primary key to row offset (the active map) plus a map from primary key to
    the timestamp of its last delete (the tombstones). *)
Record mutableIndex := {
  active : gmap Z nat;
  tombstones : gmap Z Z;
}.

(** Modelled from the spec: the index of an immutable block answers
    [dedup(key)] with absent or possibly-duplicate from a membership filter
    that may answer yes for an absent key; reading the filter may fail. *)
Record immutableIndex := {
  im_filter : val -> bool;
  im_fault : option error;
}.

Inductive Index :=
| MutableIndex (ix : mutableIndex)
| ImmutableIndex (ix : immutableIndex).

(** Modelled from the spec: both indexes start empty. *)
Definition NewMutableIndex : Index :=
  MutableIndex {| active := ∅; tombstones := ∅ |}.
Definition NewImmutableIndex : Index :=
  ImmutableIndex {| im_filter := fun _ => false; im_fault := None |}.

Fixpoint upsert_from (m : gmap Z nat) (keys : list val) (row : nat) : gmap Z nat :=
  match keys with
  | [] => m
  | k :: ks => upsert_from (<[k := row]> m) ks (S row)
  end.

(** Modelled from the spec: [batchUpsert(keys, startOffset, ts)] maps the
    i-th key to row [startOffset + i], replacing an earlier entry. *)
Definition BatchUpsert (ix : Index) (keys : list val) (offset : nat) (ts : Z)
  : Index * option error :=
  match ix with
  | MutableIndex m =>
      (MutableIndex {| active := upsert_from (active m) keys offset;
                       tombstones := tombstones m |}, None)
  | ImmutableIndex _ => (ix, Some TxnInternalErr)
  end.

(** Modelled from the spec: [getActiveRow(key)] is the offset the active
    map holds for the key, or [NotFound]. *)
Definition GetActiveRow (ix : Index) (k : val) : nat * option error :=
  match ix with
  | MutableIndex m =>
      match active m !! k with
      | Some row => (row, None)
      | None => (0%nat, Some ErrNotFound)
      end
  | ImmutableIndex _ => (0%nat, Some TxnInternalErr)
  end.

(** Modelled from the spec: [delete(key, ts)] takes the key out of the
    active map and records [ts] as its last delete. *)
Definition IndexDelete (ix : Index) (k : val) (ts : Z) : Index * option error :=
  match ix with
  | MutableIndex m =>
      (MutableIndex {| active := delete k (active m);
                       tombstones := <[k := ts]> (tombstones m) |}, None)
  | ImmutableIndex _ => (ix, Some TxnInternalErr)
  end.

(** Modelled from the spec: [dedup(key)] answers absent ([nil]) or
    [ErrPossibleDuplicate] on an immutable index, unless reading the filter
    fails; on a mutable index an active key is a duplicate. *)
Definition Dedup (ix : Index) (k : val) : option error :=
  match ix with
  | MutableIndex m => if bool_decide (is_Some (active m !! k)) then Some ErrDuplicate else None
  | ImmutableIndex im =>
      match im_fault im with
      | Some e => Some e
      | None => if im_filter im k then Some ErrPossibleDuplicate else None
      end
  end.

(** * The appendable node and the block file *)

(** Modelled from the spec: the in-memory row buffer of an appendable block,
    one list of cells per column. *)
Record appendableNode := {
  rows : nat;                       (* uint32 *)
  data : list (list val);
}.

(** Modelled from the spec: [getVectorCopy(upTo, colIdx)] is an owned copy of
    the first [upTo] cells of a column. *)
Definition GetVectorCopy (n : appendableNode) (maxRow colIdx : nat)
  : option (list val) * option error :=
  match data n !! colIdx with
  | Some c => (Some (take maxRow c), None)
  | None => (None, Some (ErrIO 0))
  end.

(** Modelled from the spec: the whole buffer column, as the pinned node
    gives it. *)
Definition GetVectorByAttr (n : appendableNode) (colIdx : nat)
  : option (list val) * option error :=
  match data n !! colIdx with
  | Some c => (Some c, None)
  | None => (None, Some (ErrIO 0))
  end.

(** Modelled from the spec: the column file set of a block: row count,
    commit timestamp, the columns, the update masks and values per column
    ([nil] when there are none) and the delete mask. *)
Record BlockFile := {
  ReadRows : nat;
  ReadTS : Z;
  file_columns : list (list val);
  LoadUpdates : option (gmap nat (gmap nat val));
  LoadDeletes : option (gset nat) * option error;
}.

(** Modelled from the spec: the node of a reopened block holds the on-disk
    rows. *)
Definition newNode (f : BlockFile) : appendableNode :=
  {| rows := ReadRows f; data := file_columns f |}.

(** * The block *)

Record dataBlock := {
  closed : bool;                    (* common.ClosedState *)
  meta : BlockEntry;
  node : option appendableNode;     (* nil on an immutable block *)
  file : BlockFile;
  colFiles : gmap nat (list val);
  index : option Index;
  mvcc : MVCCHandle;
  nice : Z;                         (* uint32 *)
  ckpTs : Z;                        (* uint64 *)
}.

Definition GetMaxCheckpointTS (blk : dataBlock) : Z := ckpTs blk.
Definition GetMaxVisibleTS (blk : dataBlock) : Z := LoadMaxVisible (mvcc blk).

(** [blk.Rows(nil, true)]: the coarse row count of the node, or the row count
    of the file. The node of an appendable block is never nil. *)
Definition Rows (blk : dataBlock) : Z :=
  if IsAppendable (meta blk)
  then match node blk with Some n => Z.of_nat (rows n) | None => 0 end
  else Z.of_nat (ReadRows (file blk)).

(** ** Scoring *)

(** The three-way scaling of a column's update ratio inside the loop of
    [estimateRawScore]. *)
Definition scaleColFactor (colFactor : float) : float :=
  if (colFactor <? 0.005)%float then (colFactor * 10)%float
  else if (0.005 <=? colFactor)%float && (colFactor <? 0.10)%float
       then (colFactor * 20)%float
  else if (0.10 <=? colFactor)%float then (colFactor * 40)%float
  else colFactor.

(** One turn of the loop over the column definitions. *)
Definition scoreColumn (blk : dataBlock) (rows : Z) (st : Z * float) (i : nat) : Z * float :=
  let '(cols, factor) := st in
  let cols := cols + 1 in
  let cnt := GetColumnUpdateCnt (mvcc blk) (uint16 (Z.of_nat i)) in
  let colFactor := (F64.of_int cnt / F64.of_int rows)%float in
  let colFactor := scaleColFactor colFactor in
  (cols, (factor + colFactor)%float).

Definition estimateRawScore (blk : dataBlock) : option Z :=
  if (Rows blk =? BlockMaxRows (GetSchema (meta blk))) && IsAppendable (meta blk)
  then Some 100
  else if (GetChangeNodeCnt (mvcc blk) =? 0) && negb (IsAppendable (meta blk))
  then Some 0
  else if (GetChangeNodeCnt (mvcc blk) =? 0) && IsAppendable (meta blk)
          && (LoadMaxVisible (mvcc blk) <=? GetMaxCheckpointTS blk)
  then Some 0
  else
    let ret := 0 in
    let rows := Rows blk in
    let '(cols, factor) :=
      fold_left (scoreColumn blk rows) (seq 0 (ColDefs (GetSchema (meta blk)))) (0, 0%float) in
    let factor := (factor / F64.of_int cols)%float in
    let deleteCnt := GetDeleteCnt (mvcc blk) in
    let factor := (factor + F64.of_int deleteCnt / F64.of_int rows * 50)%float in
    match F64.to_int (factor * 100)%float with
    | None => None
    | Some t =>
        let ret := ret + t in
        Some (if ret =? 0 then ret + 1 else ret)
    end.

Definition set_nice (blk : dataBlock) (n : Z) : dataBlock :=
  {| closed := closed blk; meta := meta blk; node := node blk; file := file blk;
     colFiles := colFiles blk; index := index blk; mvcc := mvcc blk;
     nice := n; ckpTs := ckpTs blk |}.

(** [RunCalibration]: [None] when the raw score is left to the implementation. *)
Definition RunCalibration (blk : dataBlock) : option dataBlock :=
  match estimateRawScore blk with
  | None => None
  | Some score =>
      if score =? 0 then Some blk
      else Some (set_nice blk (uint32 (nice blk + 1)))
  end.

Definition resetNice (blk : dataBlock) : dataBlock := set_nice blk 0.

(** Two blocks that differ at most in [nice]. *)
Definition same_but_nice (b b' : dataBlock) : Prop :=
  closed b' = closed b /\ meta b' = meta b /\ node b' = node b /\ file b' = file b
  /\ colFiles b' = colFiles b /\ index b' = index b /\ mvcc b' = mvcc b
  /\ ckpTs b' = ckpTs b.

(** [EstimateScore] returns the score and leaves the block with its [nice]
    possibly reset. *)
Definition EstimateScore (blk : dataBlock) : option (Z * dataBlock) :=
  if IsAppendable (meta blk) && (Rows blk =? BlockMaxRows (GetSchema (meta blk)))
  then
    if IsDroppedCommitted (meta blk) || IsDroppedUncommitted (meta blk)
    then Some (0, blk)
    else Some (100, blk)
  else
    match estimateRawScore blk with
    | None => None
    | Some score =>
        if score =? 0 then Some (0, resetNice blk)
        else Some (score + nice blk, blk)
    end.

(** ** Compaction task factory *)

Inductive TxnTaskFactory :=
| CompactBlockTaskFactory (meta : BlockEntry)
| CompactABlockTaskFactory (meta : BlockEntry).

Inductive TaskType := DataCompactionTask.

Definition BuildCompactionTaskFactory (blk : dataBlock)
  : option TxnTaskFactory * option TaskType * list Z * option error :=
  let dropped := IsDroppedCommitted (meta blk) in
  let inTxn := HasActiveTxn (meta blk) in
  if dropped || inTxn then (None, None, [], None)
  else
    let '(factory, taskType) :=
      if negb (IsAppendable (meta blk))
         || (IsAppendable (meta blk) && (Rows blk =? BlockMaxRows (GetSchema (meta blk))))
      then (Some (CompactBlockTaskFactory (meta blk)), Some DataCompactionTask)
      else if IsAppendable (meta blk)
      then (Some (CompactABlockTaskFactory (meta blk)), Some DataCompactionTask)
      else (None, None) in
    (factory, taskType, [] ++ [AsCommonID (meta blk)], None).

(** ** Results of a call

    A Go call returns its values together with a nilable error, or panics. *)
Inductive outcome (A : Type) : Type :=
| Returns (a : A) (err : option error)
| Panics.
Arguments Returns {A} a err.
Arguments Panics {A}.

Definition set_mvcc (blk : dataBlock) (h : MVCCHandle) : dataBlock :=
  {| closed := closed blk; meta := meta blk; node := node blk; file := file blk;
     colFiles := colFiles blk; index := index blk; mvcc := h;
     nice := nice blk; ckpTs := ckpTs blk |}.

Definition set_index (blk : dataBlock) (ix : option Index) : dataBlock :=
  {| closed := closed blk; meta := meta blk; node := node blk; file := file blk;
     colFiles := colFiles blk; index := ix; mvcc := mvcc blk;
     nice := nice blk; ckpTs := ckpTs blk |}.

Definition set_closed (blk : dataBlock) : dataBlock :=
  {| closed := true; meta := meta blk; node := node blk; file := file blk;
     colFiles := colFiles blk; index := index blk; mvcc := mvcc blk;
     nice := nice blk; ckpTs := ckpTs blk |}.

Definition set_colFiles (blk : dataBlock) (cf : gmap nat (list val)) : dataBlock :=
  {| closed := closed blk; meta := meta blk; node := node blk; file := file blk;
     colFiles := cf; index := index blk; mvcc := mvcc blk;
     nice := nice blk; ckpTs := ckpTs blk |}.

(** ** Destroy *)

(** The calls [Destroy] makes on the block's collaborators, and what each of
    them answers (the file and buffer layers may fail). *)
Inductive Effect :=
| NodeClose
| Unref (colIdx : nat)
| IndexDestroy
| FileClose
| FileDestroy.

#[global] Instance Effect_eq_dec : EqDecision Effect.
Proof. solve_decision. Defined.

Record DestroyIO := {
  node_Close : option error;
  index_Destroy : option error;
  file_Close : option error;
  file_Destroy : option error;
}.

(** [Destroy] returns the block, the calls made in order, and the error. The
    block file of a constructed block is never nil. *)
Definition Destroy (io : DestroyIO) (blk : dataBlock)
  : dataBlock * list Effect * option error :=
  if closed blk then (blk, [], None)          (* !blk.TryClose() *)
  else
    let blk := set_closed blk in
    let '(tr, err) :=
      match node blk with
      | Some _ => ([NodeClose], node_Close io)
      | None => ([], None)
      end in
    if bool_decide (is_Some err) then (blk, tr, err)
    else
      let tr := tr ++ (Unref <$> (map_to_list (colFiles blk)).*1) in
      let blk := set_colFiles blk ∅ in
      let '(tr, err) :=
        match index blk with
        | Some _ => (tr ++ [IndexDestroy], index_Destroy io)
        | None => (tr, None)
        end in
      if bool_decide (is_Some err) then (blk, tr, err)
      else
        let tr := tr ++ [FileClose] in
        let err := file_Close io in
        if bool_decide (is_Some err) then (blk, tr, err)
        else (blk, tr ++ [FileDestroy], file_Destroy io).

(** ** Point reads *)

Record ColumnView := {
  view_Ts : Z;
  view_ColIdx : nat;
  RawVec : option (list val);
}.

Definition NewColumnView (ts : Z) (colIdx : nat) : ColumnView :=
  {| view_Ts := ts; view_ColIdx := colIdx; RawVec := None |}.

(** Modelled from the spec: [compute.GetValue(vec, row)] is the cell at
    [row]; on a nil vector or past its end Go panics ([None]). *)
Definition compute_GetValue (vec : option (list val)) (row : nat) : option val :=
  match vec with Some l => l !! row | None => None end.

(** [getVectorWrapper]: the column read back from its data file. *)
Definition getVectorWrapper (blk : dataBlock) (colIdx : nat) : list val * option error :=
  match colFiles blk !! colIdx with
  | Some c => (c, None)
  | None => ([], Some (ErrIO 0))
  end.

(** [getVectorCopy] with [raw = true], the call [GetValue] makes: a nil view
    when the timestamp sees no row. *)
Definition getVectorCopy (blk : dataBlock) (n : appendableNode) (ts : Z) (colIdx : nat)
  : option ColumnView * option error :=
  let '(maxRow, visible, err) :=
    if GetMaxVisibleTS blk <=? ts then (rows n, true, None)
    else GetMaxVisibleRowLocked (mvcc blk) ts in
  if negb visible || bool_decide (is_Some err) then (None, err)
  else
    let '(vec, err) := GetVectorCopy n maxRow colIdx in
    (Some {| view_Ts := ts; view_ColIdx := colIdx; RawVec := vec |}, err).

Definition GetValue (blk : dataBlock) (txn : AsyncTxn) (row col : nat)
  : outcome (option val) :=
  let ts := GetStartTS txn in
  match IsDeletedLocked (mvcc blk) row ts with
  | (_, Some e) => Returns None (Some e)
  | (deleted, None) =>
      let r : (option val * option error) + (option val * option error) :=
        if negb deleted then
          let chain := GetColumnChain (mvcc blk) col in
          match GetValueLocked chain row ts with
          | (v, Some TxnInternalErr) => inl (v, Some TxnInternalErr)
          | (_, Some _) => inr (None, None)
          | (v, None) => inr (v, None)
          end
        else inr (None, Some ErrNotFound) in
      match r with
      | inl (v, err) => Returns v err
      | inr (v, err) =>
          if bool_decide (is_Some v) || bool_decide (is_Some err) then Returns v err
          else
            let view :=
              if IsAppendable (meta blk) then
                match node blk with
                | Some n => Some (getVectorCopy blk n (GetStartTS txn) col).1
                | None => None
                end
              else
                let '(wrapper, _) := getVectorWrapper blk col in
                Some (Some {| view_Ts := GetStartTS txn; view_ColIdx := col;
                              RawVec := Some wrapper |}) in
            match view with
            | Some (Some view) =>
                match compute_GetValue (RawVec view) row with
                | Some v => Returns (Some v) None
                | None => Panics
                end
            | _ => Panics
            end
      end
  end.

(** ** Updates *)

Definition set_chain (h : MVCCHandle) (colIdx : nat) (chain : ColumnChain) : MVCCHandle :=
  set_columns h (<[colIdx := chain]> (columns h)).

Definition updateWithCoarseLock (blk : dataBlock) (txn : AsyncTxn) (row colIdx : nat) (v : val)
  : dataBlock * option ColumnNode * option error :=
  match CheckNotDeleted (mvcc blk) row row (GetStartTS txn) with
  | None =>
      match CheckNotUpdated (mvcc blk) row row (GetStartTS txn) with
      | Some e => (blk, None, Some e)
      | None =>
          let chain := GetColumnChain (mvcc blk) colIdx in
          let '(chain, node) := AddNodeLocked chain txn in
          let '(chain, node, err) := TryUpdateNodeLocked chain row v node in
          let chain := if bool_decide (is_Some err) then DeleteNodeLocked chain else chain in
          (set_mvcc blk (set_chain (mvcc blk) colIdx chain), Some node, err)
      end
  | Some e => (blk, None, Some e)
  end.

Definition updateWithFineLock (blk : dataBlock) (txn : AsyncTxn) (row colIdx : nat) (v : val)
  : dataBlock * option ColumnNode * option error :=
  match CheckNotDeleted (mvcc blk) row row (GetStartTS txn) with
  | None =>
      let chain := GetColumnChain (mvcc blk) colIdx in
      let '(chain, node) := AddNodeLocked chain txn in
      let '(chain, node, err) := TryUpdateNodeLocked chain row v node in
      let chain := if bool_decide (is_Some err) then DeleteNodeLocked chain else chain in
      (set_mvcc blk (set_chain (mvcc blk) colIdx chain), Some node, err)
  | Some e => (blk, None, Some e)
  end.

Definition Update (blk : dataBlock) (txn : AsyncTxn) (row colIdx : nat) (v : val)
  : dataBlock * option ColumnNode * option error :=
  if bool_decide (HiddenKey (GetSchema (meta blk)) = colIdx)
  then (blk, None, Some ErrUpdateHiddenKey)
  else updateWithFineLock blk txn row colIdx v.

(** ** PK filter on an immutable block *)

(** Modelled from the spec: [compute.CheckRowExists(col, v, nil)] scans the
    sorted PK column for [v]. *)
Definition CheckRowExists (col : list val) (v : val) : nat * bool :=
  match list_find (fun x => x = v) col with
  | Some (i, _) => (i, true)
  | None => (0%nat, false)
  end.

Definition blkGetByFilter (blk : dataBlock) (ts : Z) (filterVal : val) : outcome nat :=
  match index blk with
  | None => Panics
  | Some ix =>
      match Dedup ix filterVal with
      | None => Returns 0%nat (Some ErrNotFound)
      | Some err =>
          if negb (bool_decide (err = ErrPossibleDuplicate)) then Returns 0%nat (Some err)
          else
            match getVectorWrapper blk (GetSingleSortKeyIdx (GetSchema (meta blk))) with
            | (_, Some e) => Returns 0%nat (Some e)
            | (col, None) =>
                let '(offset, existed) := CheckRowExists col filterVal in
                if negb existed then Returns offset (Some ErrNotFound)
                else
                  match IsDeletedLocked (mvcc blk) offset ts with
                  | (_, Some e) => Returns offset (Some e)
                  | (deleted, None) =>
                      if deleted then Returns offset (Some ErrNotFound)
                      else Returns offset None
                  end
            end
      end
  end.

(** ** The delete listener and replay *)

(** Modelled from the spec: the iterator of a delete mask (a roaring
    bitmap) gives its rows in increasing order. *)
Definition mask_iterator (mask : gset nat) : list nat :=
  merge_sort Nat.le (elements mask).

Section Replay.

(** The encoder of compound keys, [model.EncodeTypedVals], is taken as
    given; [model.EncodeCompoundColumn] applies it row by row. *)
Variable EncodeTypedVals : list val -> val.

Definition EncodeCompoundColumn (vs : list (list val)) : list val :=
  match vs with
  | [] => []
  | v0 :: _ =>
      (fun r => EncodeTypedVals ((fun v => default 0 (v !! r)) <$> vs)) <$> seq 0 (length v0)
  end.

(** The loop of [ABlkApplyDelete] over the deleted rows; [keyOf] reads the
    key of a row from the pinned buffer. A row past the end of the buffer
    leaves the key nil, for which the index has no behaviour: [Panics]. *)
Fixpoint applyDeleteRows (keyOf : nat -> option val) (ix : Index) (gen : list nat) (ts : Z)
  : outcome Index :=
  match gen with
  | [] => Returns ix None
  | row :: gen =>
      match keyOf row with
      | None => Panics
      | Some v =>
          let '(currRow, err) := GetActiveRow ix v in
          if bool_decide (is_Some err) || bool_decide (currRow = row) then
            match IndexDelete ix v ts with
            | (ix, Some e) => Returns ix (Some e)
            | (ix, None) => applyDeleteRows keyOf ix gen ts
            end
          else applyDeleteRows keyOf ix gen ts
      end
  end.

(** All sort-key columns of the buffer, or the first error. *)
Fixpoint sortKeyVectors (n : appendableNode) (idxs : list nat)
  : list (list val) * option error :=
  match idxs with
  | [] => ([], None)
  | i :: idxs =>
      match GetVectorByAttr n i with
      | (Some vec, None) =>
          let '(vecs, err) := sortKeyVectors n idxs in (vec :: vecs, err)
      | (_, err) => ([], Some (default (ErrIO 0) err))
      end
  end.

(** [ABlkApplyDelete(deleted, gen, ts)]; the row count it takes off the
    table entry belongs to the catalog and is not kept here. *)
Definition ABlkApplyDelete (blk : dataBlock) (deleted : Z) (gen : list nat) (ts : Z)
  : outcome dataBlock :=
  let schema := GetSchema (meta blk) in
  if negb (HasPK schema) then Returns blk None
  else
    match node blk, index blk with
    | Some n, Some ix =>
        if IsSinglePK schema then
          match GetVectorByAttr n (GetSingleSortKeyIdx schema) with
          | (Some vec, None) =>
              match applyDeleteRows (fun row => vec !! row) ix gen ts with
              | Returns ix err => Returns (set_index blk (Some ix)) err
              | Panics => Panics
              end
          | (_, err) => Returns blk err
          end
        else
          let sortKeys := default [] (Defs <$> SortKey schema) in
          match sortKeyVectors n sortKeys with
          | (vecs, None) =>
              let keyOf row :=
                EncodeTypedVals <$> mapM (fun vec : list val => vec !! row) vecs in
              match applyDeleteRows keyOf ix gen ts with
              | Returns ix err => Returns (set_index blk (Some ix)) err
              | Panics => Panics
              end
          | (_, err) => Returns blk err
          end
    | _, _ => Panics
    end.

Definition BlkApplyDelete (blk : dataBlock) (deleted : Z) (gen : list nat) (ts : Z)
  : outcome dataBlock := Returns blk None.

(** Modelled from the spec: applying a delete node calls the listener the
    block registered on the handle, [ABlkApplyDelete] for an appendable
    block and [BlkApplyDelete] otherwise, with the node's rows and commit
    timestamp. *)
Definition OnApply (blk : dataBlock) (n : DeleteNode) : outcome dataBlock :=
  let listener := if IsAppendable (meta blk) then ABlkApplyDelete else BlkApplyDelete in
  listener blk (Z.of_nat (size (dn_mask n))) (mask_iterator (dn_mask n))
           (default 0 (dn_commit n)).

Definition OnReplayUpdate (blk : dataBlock) (colIdx : nat) (n : ColumnNode) : dataBlock :=
  let chain := GetColumnChain (mvcc blk) colIdx in
  set_mvcc blk (set_chain (mvcc blk) colIdx (OnReplayUpdateNode chain n)).

Definition OnReplayDelete (blk : dataBlock) (n : DeleteNode) : outcome dataBlock :=
  OnApply (set_mvcc blk (OnReplayDeleteNode (mvcc blk) n)) n.

(** One turn of the loop of [ReplayDelta] over the update masks. *)
Definition replayColumnNode (entry : nat * gmap nat val) (blk : dataBlock) : dataBlock :=
  let '(colIdx, vals) := entry in
  let un := NewCommittedColumnNode (ckpTs blk) (ckpTs blk) in
  let un := SetMaskValues un vals in
  OnReplayUpdate blk (Z.to_nat (uint16 (Z.of_nat colIdx))) un.

(** The middle of [ReplayDelta]: the update masks and values on disk become
    committed column nodes. *)
Definition replayUpdates (blk : dataBlock) : dataBlock :=
  match LoadUpdates (file blk) with
  | Some masks => foldr replayColumnNode blk (map_to_list masks)
  | None => blk
  end.

(** The end of [ReplayDelta]: the delete mask on disk becomes one merged
    committed delete node. *)
Definition replayDeletes (blk : dataBlock) : outcome dataBlock :=
  match LoadDeletes (file blk) with
  | (_, Some e) => Returns blk (Some e)
  | (None, None) => Returns blk None
  | (Some deletes, None) =>
      let deleteNode := NewMergedNode (ckpTs blk) in
      let deleteNode := SetDeletes deleteNode deletes in
      OnReplayDelete blk deleteNode
  end.

Definition ReplayDelta (blk : dataBlock) : outcome dataBlock :=
  if negb (IsAppendable (meta blk)) then Returns blk None
  else
    match node blk with
    | None => Panics
    | Some n =>
        let an := NewCommittedAppendNode (ckpTs blk) (rows n) in
        let blk := set_mvcc blk (OnReplayAppendNode (mvcc blk) an) in
        let blk := replayUpdates blk in
        replayDeletes blk
    end.

(** Modelled from the spec: [readFrom(block)] populates the immutable index
    from the sorted on-disk column. *)
Definition ReadFrom (ix : Index) (blk : dataBlock) : Index * option error :=
  match getVectorWrapper blk (GetSingleSortKeyIdx (GetSchema (meta blk))) with
  | (col, None) =>
      (ImmutableIndex {| im_filter := fun k => bool_decide (k ∈ col); im_fault := None |},
       None)
  | (_, Some e) => (ix, Some e)
  end.

(** The sort-key columns of the buffer up to [maxRow], or the first error. *)
Fixpoint sortKeyCopies (n : appendableNode) (maxRow : nat) (idxs : list nat)
  : list (list val) * option error :=
  match idxs with
  | [] => ([], None)
  | i :: idxs =>
      match GetVectorCopy n maxRow i with
      | (Some vec, None) =>
          let '(vecs, err) := sortKeyCopies n maxRow idxs in (vec :: vecs, err)
      | (_, err) => ([], Some (default (ErrIO 0) err))
      end
  end.

Definition ReplayIndex (blk : dataBlock) : outcome dataBlock :=
  let schema := GetSchema (meta blk) in
  if IsAppendable (meta blk) then
    if negb (HasPK schema) then Returns blk None
    else
      match node blk, index blk with
      | Some n, Some ix =>
          let '(keys, err) :=
            if IsSinglePK schema then
              match GetVectorCopy n (rows n) (GetSingleSortKeyIdx schema) with
              | (Some vec, None) => (vec, None)
              | (_, err) => ([], Some (default (ErrIO 0) err))
              end
            else
              let '(vs, err) := sortKeyCopies n (rows n) (default [] (Defs <$> SortKey schema)) in
              (EncodeCompoundColumn vs, err) in
          if bool_decide (is_Some err) then Returns blk err
          else
            let '(ix, err) := BatchUpsert ix keys 0 0 in
            Returns (set_index blk (Some ix)) err
      | _, _ => Panics
      end
  else if HasSortKey schema then
    match index blk with
    | Some ix => let '(ix, err) := ReadFrom ix blk in Returns (set_index blk (Some ix)) err
    | None => Panics
    end
  else Returns blk None.

(** The data files of the first [colCnt] columns; [None] when one cannot be
    opened. *)
Fixpoint openColFiles (f : BlockFile) (colCnt : nat) : option (gmap nat (list val)) :=
  match colCnt with
  | O => Some ∅
  | S i =>
      match openColFiles f i, file_columns f !! i with
      | Some m, Some c => Some (<[i := c]> m)
      | _, _ => None
      end
  end.

(** [newBlock] on the block file the segment opens for it: the block, or
    [None] where the code panics. *)
Definition newBlock (meta : BlockEntry) (file : BlockFile) : option dataBlock :=
  let colCnt := ColDefs (GetSchema meta) in
  match openColFiles file colCnt with
  | None => None
  | Some colFiles =>
      let ts := ReadTS file in
      let '(node, index) :=
        if IsAppendable meta then
          (Some (newNode file),
           if HasPK (GetSchema meta) then Some NewMutableIndex else None)
        else (None, Some NewImmutableIndex) in
      let block :=
        {| closed := false; meta := meta; node := node; file := file;
           colFiles := colFiles; index := index;
           mvcc := SetMaxVisible (NewMVCCHandle meta) ts;
           nice := 0; ckpTs := ts |} in
      if 0 <? ts then
        match ReplayIndex block with
        | Returns block None =>
            match ReplayDelta block with
            | Returns block None => Some block
            | _ => None
            end
        | _ => None
        end
      else Some block
  end.

End Replay.

(** * The scoring formula, as a specification reads it *)

Definition fsum (l : list float) : float := fold_left PrimFloat.add l 0%float.

Definition mean (l : list float) : float :=
  (fsum l / F64.of_int (Z.of_nat (length l)))%float.

(** Updates of column [i] over the rows of the block. *)
Definition colUpdateRatio (blk : dataBlock) (i : nat) : float :=
  (F64.of_int (GetColumnUpdateCnt (mvcc blk) (uint16 (Z.of_nat i)))
   / F64.of_int (Rows blk))%float.

Definition deleteRatio (blk : dataBlock) : float :=
  (F64.of_int (GetDeleteCnt (mvcc blk)) / F64.of_int (Rows blk))%float.

(** factor = (mean over columns of piecewise(colUpdateRatio)) + deleteRatio x 50 *)
Definition rawFactor (blk : dataBlock) : float :=
  (mean ((fun i => scaleColFactor (colUpdateRatio blk i))
           <$> seq 0 (ColDefs (GetSchema (meta blk))))
   + deleteRatio blk * 50)%float.

(** A full appendable block. *)
Definition isFull (blk : dataBlock) : bool :=
  IsAppendable (meta blk) && (Rows blk =? BlockMaxRows (GetSchema (meta blk))).

(** No change node, on an immutable block or on an appendable one whose
    [maxVisible] is not beyond the checkpoint. *)
Definition nothingToDo (blk : dataBlock) : bool :=
  (GetChangeNodeCnt (mvcc blk) =? 0)
  && (negb (IsAppendable (meta blk)) || (LoadMaxVisible (mvcc blk) <=? ckpTs blk)).

(** The raw score with [toInt] turning [factor x 100] into an integer. *)
Definition rawScoreWith (toInt : float -> option Z) (blk : dataBlock) : option Z :=
  if isFull blk then Some 100
  else if nothingToDo blk then Some 0
  else Z.max 1 <$> toInt (rawFactor blk * 100)%float.

(** * Sample blocks *)

Definition schema_of (cols : nat) (maxRows : Z) : Schema :=
  {| ColDefs := cols; BlockMaxRows := maxRows;
     SortKey := Some {| Defs := [0%nat]; IsPrimary := true |}; HiddenKey := cols |}.

Definition meta_of (appendable : bool) (cols : nat) (maxRows : Z) : BlockEntry :=
  {| AsCommonID := 7; GetSchema := schema_of cols maxRows; IsAppendable := appendable;
     IsDroppedCommitted := false; IsDroppedUncommitted := false; HasActiveTxn := false |}.

Definition empty_file : BlockFile :=
  {| ReadRows := 0; ReadTS := 0; file_columns := [];
     LoadUpdates := None; LoadDeletes := (None, None) |}.

(** An appendable block of [n] rows (no cell data) out of [maxRows], with
    the given counters, [maxVisible = 100] and checkpoint 50. *)
Definition scored_block (cols n : nat) (maxRows changes : Z) (upd : Z -> Z) (del : Z) (nice0 : Z)
  : dataBlock :=
  {| closed := false; meta := meta_of true cols maxRows;
     node := Some {| rows := n; data := [] |}; file := empty_file;
     colFiles := ∅; index := None;
     mvcc := {| appends := []; columns := ∅; deletes := [];
                LoadMaxVisible := 100; GetChangeNodeCnt := changes;
                GetColumnUpdateCnt := upd; GetDeleteCnt := del |};
     nice := nice0; ckpTs := 50 |}.

(** One delete among 3000 rows, one column without updates:
    factor x 100 = 1.66... *)
Definition blk_one_delete : dataBlock :=
  scored_block 1 3000 4000 1 (fun _ => 0) 1 0.

(** One update among 200 rows of the only column: the ratio is 0.005. *)
Definition blk_half_percent : dataBlock :=
  scored_block 1 200 4000 1 (fun _ => 1) 0 3.

Definition set_meta (blk : dataBlock) (m : BlockEntry) : dataBlock :=
  {| closed := closed blk; meta := m; node := node blk; file := file blk;
     colFiles := colFiles blk; index := index blk; mvcc := mvcc blk;
     nice := nice blk; ckpTs := ckpTs blk |}.

Definition with_flags (m : BlockEntry) (droppedC droppedU inTxn : bool) : BlockEntry :=
  {| AsCommonID := AsCommonID m; GetSchema := GetSchema m; IsAppendable := IsAppendable m;
     IsDroppedCommitted := droppedC; IsDroppedUncommitted := droppedU;
     HasActiveTxn := inTxn |}.

(** A full appendable block: 4 rows out of 4. *)
Definition blk_full : dataBlock := scored_block 1 4 4 0 (fun _ => 0) 0 9.

(** The same block once its drop is under way, and once it is committed. *)
Definition blk_full_dropping : dataBlock :=
  set_meta blk_full (with_flags (meta blk_full) false true true).
Definition blk_full_dropped : dataBlock :=
  set_meta blk_full (with_flags (meta blk_full) true false false).

(** An immutable block of 4 rows without changes, its age adder at 5. *)
Definition blk_idle : dataBlock :=
  {| closed := false; meta := meta_of false 1 4; node := None;
     file := {| ReadRows := 4; ReadTS := 100; file_columns := [[1; 3; 5; 7]];
                LoadUpdates := None; LoadDeletes := (None, None) |};
     colFiles := {[ 0%nat := [1; 3; 5; 7] ]}; index := Some NewImmutableIndex;
     mvcc := SetMaxVisible (NewMVCCHandle (meta_of false 1 4)) 100;
     nice := 5; ckpTs := 100 |}.

(** An immutable block whose index cannot read its filter. *)
Definition blk_faulty_index : dataBlock :=
  set_index blk_idle
    (Some (ImmutableIndex {| im_filter := fun _ => true; im_fault := Some (ErrIO 5) |})).

(** An immutable block whose index holds the keys 1, 3, 5 and 7. *)
Definition blk_sorted : dataBlock :=
  set_index blk_idle
    (Some (ImmutableIndex {| im_filter := fun k => bool_decide (k ∈ [1; 3; 5; 7]);
                             im_fault := None |})).

(** An open appendable block with a node, two column files and an index. *)
Definition blk_open : dataBlock :=
  {| closed := false; meta := meta_of true 2 4;
     node := Some {| rows := 2; data := [[1; 2]; [10; 20]] |};
     file := {| ReadRows := 2; ReadTS := 100; file_columns := [[1; 2]; [10; 20]];
                LoadUpdates := None; LoadDeletes := (None, None) |};
     colFiles := {[ 0%nat := [1; 2]; 1%nat := [10; 20] ]};
     index := Some NewMutableIndex;
     mvcc := SetMaxVisible (NewMVCCHandle (meta_of true 2 4)) 100;
     nice := 0; ckpTs := 100 |}.

Definition io_ok : DestroyIO :=
  {| node_Close := None; index_Destroy := None; file_Close := None; file_Destroy := None |}.

(** Closing the node fails (its flush hits an I/O error). *)
Definition io_node_fails : DestroyIO :=
  {| node_Close := Some (ErrIO 1); index_Destroy := None;
     file_Close := None; file_Destroy := None |}.

(** * Destroy as a sequence of calls *)

(** The calls of a complete [Destroy], each with its answer. *)
Definition destroyCalls (io : DestroyIO) (blk : dataBlock) : list (Effect * option error) :=
  match node blk with Some _ => [(NodeClose, node_Close io)] | None => [] end
  ++ ((fun i => (Unref i, None)) <$> (map_to_list (colFiles blk)).*1)
  ++ match index blk with Some _ => [(IndexDestroy, index_Destroy io)] | None => [] end
  ++ [(FileClose, file_Close io); (FileDestroy, file_Destroy io)].

(** Making the calls in order up to the first that fails. *)
Fixpoint runCalls (calls : list (Effect * option error)) : list Effect * option error :=
  match calls with
  | [] => ([], None)
  | (ef, Some e) :: _ => ([ef], Some e)
  | (ef, None) :: rest => let '(tr, err) := runCalls rest in (ef :: tr, err)
  end.

(** * Reading a cell, in the words of the data model *)

(** Some committed delete node visible at [ts] covers [row]. *)
Definition deleted_at (h : MVCCHandle) (row : nat) (ts : Z) : Prop :=
  exists n c, n ∈ deletes h /\ dn_commit n = Some c /\ c <= ts /\ row ∈ dn_mask n.

(** Among the committed updates of [row] in the chain with a commit
    timestamp at or before [ts], the one committed at [c], writing [v], is
    the latest. *)
Definition latest_committed_update (chain : ColumnChain) (row : nat) (ts c : Z) (v : val)
  : Prop :=
  (exists n, n ∈ chain /\ cn_commit n = Some c /\ c <= ts /\ cn_vals n !! row = Some v)
  /\ forall n c' v', n ∈ chain -> cn_commit n = Some c' -> c' <= ts ->
                     cn_vals n !! row = Some v' -> c' < c \/ (c' = c /\ v' = v).

Definition no_committed_update (chain : ColumnChain) (row : nat) (ts : Z) : Prop :=
  forall n c, n ∈ chain -> cn_commit n = Some c -> c <= ts -> cn_vals n !! row = None.

(** The number of buffer rows a reader at [ts] sees, if any. *)
Definition visibleRows (blk : dataBlock) (n : appendableNode) (ts : Z) : option nat :=
  if LoadMaxVisible (mvcc blk) <=? ts then Some (rows n)
  else
    let '(maxRow, visible, _) := GetMaxVisibleRowLocked (mvcc blk) ts in
    if visible then Some maxRow else None.

(** The base value of a cell: in the buffer, among the rows the reader sees,
    for an appendable block; in the column file for an immutable one. *)
Definition baseValue (blk : dataBlock) (ts : Z) (row col : nat) (b : val) : Prop :=
  if IsAppendable (meta blk)
  then exists n maxRow column,
      node blk = Some n /\ visibleRows blk n ts = Some maxRow /\ (row < maxRow)%nat
      /\ data n !! col = Some column /\ column !! row = Some b
  else exists column, colFiles blk !! col = Some column /\ column !! row = Some b.

(** Two writers on one row: the transaction started at 160 has an update of
    row 0 in column 0 in flight. *)
Definition blk_inflight : dataBlock :=
  set_mvcc blk_open
    (set_chain (mvcc blk_open) 0
       [ {| cn_start := 160; cn_commit := None; cn_vals := {[ 0%nat := 11 ]};
            cn_unknown := false |} ]).

Definition txn170 : AsyncTxn := {| GetStartTS := 170 |}.

(** Three rows appended at 100; row 0 of column 1 updated at 120 and again
    at 180; row 1 deleted at 220. *)
Definition blk_history : dataBlock :=
  {| closed := false; meta := meta_of true 2 4;
     node := Some {| rows := 3; data := [[1; 2; 3]; [10; 20; 30]] |};
     file := empty_file; colFiles := ∅; index := Some NewMutableIndex;
     mvcc := {| appends := [ {| an_commit := Some 100; an_maxrow := 3 |} ];
                columns := {[ 1%nat :=
                  [ {| cn_start := 160; cn_commit := Some 180; cn_vals := {[ 0%nat := 11 ]};
                       cn_unknown := false |};
                    {| cn_start := 110; cn_commit := Some 120; cn_vals := {[ 0%nat := 9 ]};
                       cn_unknown := false |} ] ]};
                deletes := [ {| dn_start := 210; dn_commit := Some 220;
                                dn_mask := {[ 1%nat ]}; dn_unknown := false |} ];
                LoadMaxVisible := 220; GetChangeNodeCnt := 3;
                GetColumnUpdateCnt := fun c => if c =? 1 then 1 else 0;
                GetDeleteCnt := 1 |};
     nice := 0; ckpTs := 0 |}.

Definition txn250 : AsyncTxn := {| GetStartTS := 250 |}.

(** * Replay, in the words of the data model *)

Section ReplaySpec.

Variable EncodeTypedVals : list val -> val.

(** The primary key of row [r] of the columns [cols]: the cell of the
    sort-key column, or the encoding of the cells of the sort-key columns. *)
Definition rowKey (schema : Schema) (cols : list (list val)) (r : nat) : option val :=
  if IsSinglePK schema
  then cols !! GetSingleSortKeyIdx schema ≫= fun c => c !! r
  else EncodeTypedVals
         <$> mapM (fun i => cols !! i ≫= fun c : list val => c !! r)
                  (default [] (Defs <$> SortKey schema)).

(** The rows the delete mask on disk marks. *)
Definition diskDeletes (f : BlockFile) : gset nat := default ∅ (LoadDeletes f).1.

(** A readable block file: one column per column definition, [ReadRows]
    cells in each, a sort key over existing columns, a delete mask over
    existing rows. *)
Record wf_file (schema : Schema) (f : BlockFile) : Prop := {
  wf_cols : length (file_columns f) = ColDefs schema;
  wf_rows : Forall (fun c : list val => length c = ReadRows f) (file_columns f);
  wf_sortkey : forall k, SortKey schema = Some k ->
                         Defs k <> [] /\ Forall (fun i => (i < ColDefs schema)%nat) (Defs k);
  wf_deletes_read : (LoadDeletes f).2 = None;
  wf_deletes_rows : forall r, r ∈ diskDeletes f -> (r < ReadRows f)%nat;
}.

(** At most one live row per primary key: of two rows with one key the
    earlier is deleted. *)
Definition pk_unique (schema : Schema) (f : BlockFile) : Prop :=
  forall i j k, (i < j)%nat ->
                rowKey schema (file_columns f) i = Some k ->
                rowKey schema (file_columns f) j = Some k ->
                i ∈ diskDeletes f.

End ReplaySpec.

(** The block of scenario S6 on disk: three rows with keys 1, 2, 1 (key 1
    deleted at row 0 and inserted again at row 2), an update of row 2 in
    column 1, checkpoint at 100. *)
Definition file_s6 : BlockFile :=
  {| ReadRows := 3; ReadTS := 100; file_columns := [[1; 2; 1]; [10; 20; 30]];
     LoadUpdates := Some {[ 1%nat := {[ 2%nat := 33 ]} ]};
     LoadDeletes := (Some {[ 0%nat ]}, None) |}.

Definition encode_sum (vs : list val) : val := foldr Z.add 0 vs.

(** * More of the block *)

(** [dataBlock.IsAppendable]: whether the block still takes appends. The
    schema the catalog hands out for the table of the block is the schema
    of the block's entry. [None] where the code dereferences a nil node. *)
Definition blockIsAppendable (blk : dataBlock) : option bool :=
  if negb (IsAppendable (meta blk)) then Some false
  else
    match node blk with
    | None => None
    | Some n =>
        if Z.of_nat (rows n) =? BlockMaxRows (GetSchema (meta blk)) then Some false
        else Some true
    end.

(** [n] calibration ticks in a row, as the scheduler runs them. *)
Fixpoint calibrate (n : nat) (blk : dataBlock) : option dataBlock :=
  match n with
  | O => Some blk
  | S n =>
      match RunCalibration blk with
      | Some blk => calibrate n blk
      | None => None
      end
  end.

(** A block with one update among 200 rows whose age adder is at its last
    [uint32] value. *)
Definition blk_old : dataBlock :=
  scored_block 1 200 4000 1 (fun _ => 1) 0 4294967295.

(** What [ReplayIndex], [ReplayDelta] and the delete listener leave alone:
    two blocks that differ at most in their index and in the chains of
    their handle. *)
Definition same_store (b b' : dataBlock) : Prop :=
  closed b' = closed b /\ meta b' = meta b /\ node b' = node b /\ file b' = file b
  /\ colFiles b' = colFiles b /\ nice b' = nice b /\ ckpTs b' = ckpTs b
  /\ LoadMaxVisible (mvcc b') = LoadMaxVisible (mvcc b).

(** Every call of [Destroy] succeeds. *)
Definition io_all_ok : DestroyIO :=
  {| node_Close := None; index_Destroy := None; file_Close := None; file_Destroy := None |}.

(** The first call of [Destroy], closing the node, fails. *)
Definition node_close_fails (io : DestroyIO) (blk : dataBlock) : bool :=
  bool_decide (is_Some (node blk) /\ is_Some (node_Close io)).

(** ** Deletes *)

(** Modelled from the spec: [createDeleteNode(txn)] appends a delete node
    owned by [txn] to the delete chain; the node is uncommitted until the
    transaction commits. *)
Definition CreateDeleteNode (h : MVCCHandle) (txn : AsyncTxn) : MVCCHandle * DeleteNode :=
  let n := {| dn_start := GetStartTS txn; dn_commit := None; dn_mask := ∅;
              dn_unknown := false |} in
  (set_deletes h (n :: deletes h), n).

(** Modelled from the spec: [node.rangeDelete(start, end)] puts the rows
    from [start] to [end], both included, in the row set of the node, which
    is the node at the head of the chain. *)
Definition RangeDeleteLocked (h : MVCCHandle) (node : DeleteNode) (start end_ : nat)
  : MVCCHandle * DeleteNode :=
  let node := {| dn_start := dn_start node; dn_commit := dn_commit node;
                 dn_mask := dn_mask node ∪ list_to_set (rows_between start end_);
                 dn_unknown := dn_unknown node |} in
  (set_deletes h (node :: tail (deletes h)), node).

(** [RangeDelete]: both checks on the range, then the delete node. The
    counters that package [updates] keeps for the scoring code are not
    followed through this call. *)
Definition RangeDelete (blk : dataBlock) (txn : AsyncTxn) (start end_ : nat)
  : dataBlock * option DeleteNode * option error :=
  match CheckNotDeleted (mvcc blk) start end_ (GetStartTS txn) with
  | None =>
      match CheckNotUpdated (mvcc blk) start end_ (GetStartTS txn) with
      | None =>
          let '(h, node) := CreateDeleteNode (mvcc blk) txn in
          let '(h, node) := RangeDeleteLocked h node start end_ in
          (set_mvcc blk h, Some node, None)
      | Some e => (blk, None, Some e)
      end
  | Some e => (blk, None, Some e)
  end.

(** Two blocks with the same update chains and the same delete chain. *)
Definition same_chains (b b' : dataBlock) : Prop :=
  (forall c, GetColumnChain (mvcc b') c = GetColumnChain (mvcc b) c)
  /\ deletes (mvcc b') = deletes (mvcc b).

Definition txn130 : AsyncTxn := {| GetStartTS := 130 |}.

(** Two blocks on which every transaction but the one started at [ts] reads
    the same. *)
Definition same_reads_but (ts : Z) (b b' : dataBlock) : Prop :=
  forall txn row col,
    GetStartTS txn <> ts -> GetValue b' txn row col = GetValue b txn row col.

Definition txn50 : AsyncTxn := {| GetStartTS := 50 |}.

(** [blk_history] with one more delete node, of row 2, whose transaction is
    in a state that cannot be told. *)
Definition blk_undecided : dataBlock :=
  set_mvcc blk_history
    (set_deletes (mvcc blk_history)
       ({| dn_start := 230; dn_commit := None; dn_mask := {[ 2%nat ]};
           dn_unknown := true |} :: deletes (mvcc blk_history))).

(** The value the update region on disk holds for a cell, if any. *)
Definition diskUpdates (f : BlockFile) (col row : nat) : option val :=
  LoadUpdates f ≫= fun masks => masks !! col ≫= fun vals => vals !! row.

(** The block of [file_s6] as [newBlock] has it before any replay. *)
Definition blk_s6_fresh : dataBlock :=
  {| closed := false; meta := meta_of true 2 4; node := Some (newNode file_s6);
     file := file_s6; colFiles := {[ 0%nat := [1; 2; 1]; 1%nat := [10; 20; 30] ]};
     index := Some NewMutableIndex;
     mvcc := SetMaxVisible (NewMVCCHandle (meta_of true 2 4)) 100;
     nice := 0; ckpTs := 100 |}.

(** The block of [file_s6] once [ReplayIndex] has run: key 1 at row 2, key 2
    at row 1. *)
Definition blk_s6_indexed : dataBlock :=
  set_index blk_s6_fresh
    (Some (MutableIndex {| active := <[1 := 2%nat]> (<[2 := 1%nat]> ∅); tombstones := ∅ |})).

(** An empty file for a table of two columns, never checkpointed. *)
Definition file_new : BlockFile :=
  {| ReadRows := 0; ReadTS := 0; file_columns := [[]; []];
     LoadUpdates := None; LoadDeletes := (None, None) |}.

(** * Theorems *)

(** * Signs of binary64 results *)
Section Signs.

Lemma binary_round_aux_nonneg mx ex lx :
  F64.nonneg_sf (binary_round_aux prec emax false mx ex lx).
Proof.
  unfold binary_round_aux.
  destruct (shr_fexp prec emax mx ex lx) as [mrs e'].
  destruct (shr_fexp prec emax _ e' loc_Exact) as [mrs' e''].
  destruct (shr_m mrs'); simpl; auto.
  destruct (e'' <=? emax - prec); reflexivity.
Qed.

Lemma binary_round_nonneg m e : F64.nonneg_sf (binary_round prec emax false m e).
Proof.
  unfold binary_round. destruct (shl_align _ _ _). apply binary_round_aux_nonneg.
Qed.

Lemma of_int_nonneg z : F64.nonneg (F64.of_int z).
Proof.
  unfold F64.nonneg, F64.of_int. rewrite FloatAxioms.of_uint63_spec.
  pose proof (Uint63.to_Z_bounded (Uint63.of_Z z)) as [Hlo _].
  destruct (Uint63.to_Z (Uint63.of_Z z)) as [|p|p]; simpl.
  - reflexivity.
  - apply binary_round_nonneg.
  - lia.
Qed.

Lemma mul_nonneg x y : F64.nonneg x -> F64.nonneg y -> F64.nonneg (x * y)%float.
Proof.
  unfold F64.nonneg. rewrite FloatAxioms.mul_spec.
  destruct (Prim2SF x) as [sx|sx| |sx mx ex], (Prim2SF y) as [sy|sy| |sy my ey];
    simpl; intros; subst; try reflexivity; try exact I.
  apply binary_round_aux_nonneg.
Qed.

Lemma div_nonneg x y : F64.nonneg x -> F64.nonneg y -> F64.nonneg (x / y)%float.
Proof.
  unfold F64.nonneg. rewrite FloatAxioms.div_spec.
  destruct (Prim2SF x) as [sx|sx| |sx mx ex], (Prim2SF y) as [sy|sy| |sy my ey];
    simpl; intros; subst; try reflexivity; try exact I.
  unfold SF64div, SFdiv.
  destruct (SFdiv_core_binary _ _ _ _ _ _) as [[mz ez] lz].
  apply binary_round_aux_nonneg.
Qed.

Lemma add_nonneg x y : F64.nonneg x -> F64.nonneg y -> F64.nonneg (x + y)%float.
Proof.
  unfold F64.nonneg. rewrite FloatAxioms.add_spec.
  destruct (Prim2SF x) as [sx|sx| |sx mx ex], (Prim2SF y) as [sy|sy| |sy my ey];
    simpl; intros; subst; try reflexivity; try exact I.
  unfold SF64add, SFadd, cond_Zopp. simpl Z.add. apply binary_round_nonneg.
Qed.

Lemma to_int_nonneg f t : F64.nonneg f -> F64.to_int f = Some t -> 0 <= t.
Proof.
  unfold F64.nonneg, F64.to_int.
  destruct (Prim2SF f) as [s|s| |s m e]; simpl; intros Hs Ht; try discriminate.
  - injection Ht as <-. lia.
  - subst s. destruct (_ && _); [|discriminate]. injection Ht as <-.
    destruct (0 <=? e) eqn:He.
    + apply Z.mul_nonneg_nonneg; [lia|]. apply Z.pow_nonneg; lia.
    + apply Z.div_pos; [lia|]. apply Z.pow_pos_nonneg; lia.
Qed.

End Signs.

Lemma SFcompare_antisym x y :
  SFcompare y x = option_map CompOpp (SFcompare x y).
Proof.
  destruct x as [sx|sx| |sx mx ex], y as [sy|sy| |sy my ey]; simpl;
    try reflexivity;
    try (destruct sx; reflexivity); try (destruct sy; reflexivity);
    try (destruct sx, sy; reflexivity).
  destruct sx, sy; simpl; try reflexivity;
    rewrite (Z.compare_antisym ex ey); destruct (ex ?= ey); simpl; try reflexivity;
    rewrite (Pos.compare_cont_antisym mx my Eq); simpl;
    destruct (Pos.compare_cont Eq mx my); reflexivity.
Qed.

Lemma leb_not_ltb (c r : float) : (c <=? r)%float = true -> (r <? c)%float = false.
Proof.
  rewrite FloatAxioms.leb_spec, FloatAxioms.ltb_spec. unfold SFleb, SFltb.
  rewrite (SFcompare_antisym (Prim2SF r) (Prim2SF c)).
  destruct (SFcompare (Prim2SF r) (Prim2SF c)) as [[]|]; simpl; congruence.
Qed.

Lemma scaleColFactor_second r :
  (0.005 <=? r)%float = true -> (r <? 0.10)%float = true ->
  scaleColFactor r = (r * 20)%float.
Proof.
  intros H1 H2. unfold scaleColFactor.
  rewrite (leb_not_ltb _ _ H1), H1, H2. reflexivity.
Qed.

Lemma scaleColFactor_nonneg r : F64.nonneg r -> F64.nonneg (scaleColFactor r).
Proof.
  intros Hr. unfold scaleColFactor.
  repeat match goal with |- context [if ?b then _ else _] => destruct b end;
    try assumption; apply mul_nonneg; try assumption; vm_compute; reflexivity.
Qed.

(** * The raw score *)

Lemma scoreColumn_fold blk rows (l : list nat) cols factor :
  fold_left (scoreColumn blk rows) l (cols, factor) =
  (cols + Z.of_nat (length l),
   fold_left PrimFloat.add
     ((fun i => scaleColFactor
                  (F64.of_int (GetColumnUpdateCnt (mvcc blk) (uint16 (Z.of_nat i)))
                   / F64.of_int rows)%float) <$> l) factor).
Proof.
  revert cols factor. induction l as [|i l IH]; intros cols factor; simpl.
  - f_equal. lia.
  - rewrite IH. f_equal. lia.
Qed.

Lemma fold_add_nonneg (l : list float) acc :
  F64.nonneg acc -> Forall F64.nonneg l -> F64.nonneg (fold_left PrimFloat.add l acc).
Proof.
  revert acc. induction l as [|x l IH]; intros acc Hacc Hl; simpl; [assumption|].
  inversion Hl; subst. apply IH; [apply add_nonneg|]; assumption.
Qed.

Lemma rawFactor_nonneg blk : F64.nonneg (rawFactor blk * 100)%float.
Proof.
  apply mul_nonneg; [|vm_compute; reflexivity].
  unfold rawFactor. apply add_nonneg.
  - unfold mean. apply div_nonneg; [|apply of_int_nonneg].
    apply fold_add_nonneg; [vm_compute; reflexivity|].
    apply Forall_fmap, Forall_forall. intros i _. simpl.
    apply scaleColFactor_nonneg, div_nonneg; apply of_int_nonneg.
  - apply mul_nonneg; [|vm_compute; reflexivity].
    apply div_nonneg; apply of_int_nonneg.
Qed.

(** C2 (amended). For every block, [estimateRawScore] returns 100 when the
    block is appendable and its row count equals [BlockMaxRows]; otherwise 0
    when there is no change node and the block is immutable, or appendable
    with [maxVisible <= ckpTs]; and otherwise [max 1 t] where [t] is
    [factor x 100] converted to an integer by truncation towards zero (not
    by rounding), with factor = (mean over the columns of the scaled update
    ratio) + (deleteCount / rows) x 50, all in binary64. Where the
    conversion is left to the implementation (a NaN or an infinity, as with
    zero rows), so is the score. *)
Theorem estimateRawScore_truncates blk :
  estimateRawScore blk = rawScoreWith F64.to_int blk.
Proof.
  unfold estimateRawScore, rawScoreWith, isFull, nothingToDo, GetMaxCheckpointTS.
  destruct (IsAppendable (meta blk)) eqn:Happ;
    destruct (Rows blk =? BlockMaxRows (GetSchema (meta blk))) eqn:Hfull;
    destruct (GetChangeNodeCnt (mvcc blk) =? 0) eqn:Hchg;
    destruct (LoadMaxVisible (mvcc blk) <=? ckpTs blk) eqn:Hvis;
    simpl; try reflexivity.
  all: rewrite scoreColumn_fold, length_seq, Z.add_0_l.
  all: pose proof (rawFactor_nonneg blk) as Hnn.
  all: unfold rawFactor, mean, fsum, colUpdateRatio, deleteRatio in *.
  all: rewrite length_fmap, length_seq in *.
  all: destruct (F64.to_int _) as [t|] eqn:Ht; simpl; [|reflexivity].
  all: apply (to_int_nonneg _ _ Hnn) in Ht.
  all: f_equal; rewrite !Z.add_0_l; destruct (Z.eqb_spec t 0); lia.
Qed.

Lemma rawScore_rounded_counterexample :
  estimateRawScore blk_one_delete = Some 1 /\
  rawScoreWith F64.round blk_one_delete = Some 2 /\
  estimateRawScore blk_one_delete <> rawScoreWith F64.round blk_one_delete.
Proof.
  assert (H1 : estimateRawScore blk_one_delete = Some 1) by (vm_compute; reflexivity).
  assert (H2 : rawScoreWith F64.round blk_one_delete = Some 2) by (vm_compute; reflexivity).
  repeat split; try assumption. rewrite H1, H2. discriminate.
Qed.

(** C9 (amended). When a column's update ratio is exactly 0.005 (0.5%), the
    scaling of [estimateRawScore] applies the multiplier of its second
    branch, 20 x r: the first branch (10 x r) is for ratios strictly below
    0.005. *)
Theorem scaleColFactor_half_percent (r : float) :
  r = 0.005%float -> scaleColFactor r = (r * 20)%float.
Proof.
  intros ->. apply scaleColFactor_second; vm_compute; reflexivity.
Qed.

Lemma scaleColFactor_half_percent_witness :
  let r := colUpdateRatio blk_half_percent 0 in
  r = 0.005%float /\ scaleColFactor r = (r * 20)%float.
Proof.
  assert (H : colUpdateRatio blk_half_percent 0 = 0.005%float) by (vm_compute; reflexivity).
  split; [exact H | exact (scaleColFactor_half_percent _ H)].
Defined.

Lemma float_neq (x y : float) : Prim2SF x <> Prim2SF y -> x <> y.
Proof. intros H ->. apply H. reflexivity. Qed.

Lemma half_percent_first_branch_counterexample :
  colUpdateRatio blk_half_percent 0 = 0.005%float /\
  scaleColFactor (colUpdateRatio blk_half_percent 0)
    <> (colUpdateRatio blk_half_percent 0 * 10)%float /\
  estimateRawScore blk_half_percent = Some 10.
Proof.
  split; [vm_compute; reflexivity|]. split; [|vm_compute; reflexivity].
  apply float_neq. vm_compute. discriminate.
Qed.

(** C6. Whenever the raw score [s] of a block is defined: if [s] is not
    zero a calibration tick increments [nice] by one (as a [uint32]; no
    wrap-around below 2^32 - 1) and changes nothing else of the block, so
    that on a block that is not a full appendable block [EstimateScore]
    then returns [s] plus the incremented [nice]; if [s] is zero the tick
    leaves the block as it is, and [EstimateScore] returns 0 and leaves the
    block with [nice] at 0 and nothing else changed; if [s] is not zero and
    the block is not a full appendable block, [EstimateScore] returns
    [s + nice]; and a full appendable block that is not dropped scores
    exactly 100. *)
Theorem nice_ages_the_score (blk : dataBlock) (s : Z) :
  estimateRawScore blk = Some s ->
  (s <> 0 ->
     exists blk',
       RunCalibration blk = Some blk'
       /\ nice blk' = uint32 (nice blk + 1)
       /\ (0 <= nice blk < 2 ^ 32 - 1 -> nice blk' = nice blk + 1)
       /\ same_but_nice blk blk'
       /\ (isFull blk = false -> EstimateScore blk' = Some (s + nice blk', blk')))
  /\ (s = 0 ->
      RunCalibration blk = Some blk
      /\ exists blk',
           EstimateScore blk = Some (0, blk') /\ nice blk' = 0 /\ same_but_nice blk blk')
  /\ (s <> 0 -> isFull blk = false -> EstimateScore blk = Some (s + nice blk, blk))
  /\ (isFull blk = true ->
      IsDroppedCommitted (meta blk) = false -> IsDroppedUncommitted (meta blk) = false ->
      EstimateScore blk = Some (100, blk)).
Proof.
  intros Hraw. split; [|split; [|split]].
  - intros Hs. exists (set_nice blk (uint32 (nice blk + 1))).
    split; [|split; [|split; [|split]]].
    + unfold RunCalibration. rewrite Hraw.
      destruct (Z.eqb_spec s 0); [contradiction|reflexivity].
    + reflexivity.
    + intros Hn. cbn [nice set_nice]. unfold uint32. apply Z.mod_small. lia.
    + unfold same_but_nice. cbn. tauto.
    + intros Hfull. unfold EstimateScore. unfold isFull in Hfull.
      change (Rows (set_nice blk (uint32 (nice blk + 1)))) with (Rows blk).
      cbn [meta set_nice]. rewrite Hfull.
      change (estimateRawScore (set_nice blk (uint32 (nice blk + 1))))
        with (estimateRawScore blk).
      rewrite Hraw. destruct (Z.eqb_spec s 0); [contradiction|reflexivity].
  - intros ->. split.
    + unfold RunCalibration. rewrite Hraw. reflexivity.
    + exists (resetNice blk). split; [|split].
      * unfold EstimateScore.
        destruct (IsAppendable (meta blk)
                  && (Rows blk =? BlockMaxRows (GetSchema (meta blk)))) eqn:Hfull.
        -- exfalso. unfold estimateRawScore in Hraw. rewrite andb_comm in Hfull.
           rewrite Hfull in Hraw. discriminate.
        -- rewrite Hraw. reflexivity.
      * reflexivity.
      * unfold same_but_nice. cbn. tauto.
  - intros Hs Hfull. unfold EstimateScore. unfold isFull in Hfull. rewrite Hfull, Hraw.
    destruct (Z.eqb_spec s 0); [contradiction|reflexivity].
  - intros Hfull Hc Hu. unfold EstimateScore. unfold isFull in Hfull.
    rewrite Hfull, Hc, Hu. reflexivity.
Qed.

Lemma nice_ages_the_score_witness :
  (exists blk',
      RunCalibration blk_half_percent = Some blk'
      /\ nice blk' = 4
      /\ same_but_nice blk_half_percent blk'
      /\ EstimateScore blk' = Some (14, blk'))
  /\ EstimateScore blk_half_percent = Some (13, blk_half_percent)
  /\ (exists blk',
        EstimateScore blk_idle = Some (0, blk') /\ nice blk' = 0
        /\ same_but_nice blk_idle blk')
  /\ EstimateScore blk_full = Some (100, blk_full).
Proof.
  assert (H10 : estimateRawScore blk_half_percent = Some 10) by (vm_compute; reflexivity).
  assert (H0 : estimateRawScore blk_idle = Some 0) by (vm_compute; reflexivity).
  assert (H100 : estimateRawScore blk_full = Some 100) by (vm_compute; reflexivity).
  destruct (nice_ages_the_score blk_half_percent 10 H10) as (Ha & _ & Hb & _).
  destruct (nice_ages_the_score blk_idle 0 H0) as (_ & Hc & _).
  destruct (nice_ages_the_score blk_full 100 H100) as (_ & _ & _ & Hd).
  split; [|split; [|split]].
  - destruct (Ha ltac:(discriminate)) as (blk' & Hrun & Hnice & Hinc & Hsame & Hscore).
    exists blk'. split; [exact Hrun|].
    assert (Hn : nice blk' = 4) by (rewrite (Hinc ltac:(simpl; lia)); reflexivity).
    split; [exact Hn|]. split; [exact Hsame|].
    rewrite (Hscore eq_refl), Hn. reflexivity.
  - exact (Hb ltac:(discriminate) eq_refl).
  - exact (proj2 (Hc eq_refl)).
  - exact (Hd eq_refl eq_refl eq_refl).
Defined.

(** C10. For every appendable block whose row count equals [BlockMaxRows]:
    if its metadata is dropped-committed or dropped-uncommitted,
    [EstimateScore] returns 0; with metadata that is not dropped it returns
    100. Neither case touches [nice]. *)
Theorem full_appendable_score (blk : dataBlock) :
  IsAppendable (meta blk) = true ->
  Rows blk = BlockMaxRows (GetSchema (meta blk)) ->
  (IsDroppedCommitted (meta blk) = true \/ IsDroppedUncommitted (meta blk) = true ->
   EstimateScore blk = Some (0, blk))
  /\ (IsDroppedCommitted (meta blk) = false -> IsDroppedUncommitted (meta blk) = false ->
      EstimateScore blk = Some (100, blk)).
Proof.
  intros Happ Hrows. unfold EstimateScore. rewrite Happ, Hrows, Z.eqb_refl. simpl.
  split.
  - intros [-> | ->]; [reflexivity | rewrite orb_true_r; reflexivity].
  - intros -> ->. reflexivity.
Qed.

Lemma full_appendable_score_witness :
  EstimateScore blk_full_dropped = Some (0, blk_full_dropped)
  /\ EstimateScore blk_full_dropping = Some (0, blk_full_dropping)
  /\ EstimateScore blk_full = Some (100, blk_full).
Proof.
  split; [|split].
  - exact (proj1 (full_appendable_score blk_full_dropped eq_refl eq_refl) (or_introl eq_refl)).
  - exact (proj1 (full_appendable_score blk_full_dropping eq_refl eq_refl) (or_intror eq_refl)).
  - exact (proj2 (full_appendable_score blk_full eq_refl eq_refl) eq_refl eq_refl).
Defined.

(** C5. [BuildCompactionTaskFactory] returns no factory (and nothing else)
    when the metadata is dropped-committed or has an active transaction.
    Otherwise the scope list is exactly this block's id, there is no error,
    the factory is [CompactBlockTaskFactory] when the block is not
    appendable or is appendable with row count equal to [BlockMaxRows], and
    [CompactABlockTaskFactory] for every other appendable block. *)
Theorem BuildCompactionTaskFactory_spec (blk : dataBlock) :
  let r := BuildCompactionTaskFactory blk in
  let full := Rows blk = BlockMaxRows (GetSchema (meta blk)) in
  (IsDroppedCommitted (meta blk) = true \/ HasActiveTxn (meta blk) = true ->
   r = (None, None, [], None))
  /\ (IsDroppedCommitted (meta blk) = false -> HasActiveTxn (meta blk) = false ->
      r.1.2 = [AsCommonID (meta blk)]
      /\ r.2 = None
      /\ (IsAppendable (meta blk) = false \/ (IsAppendable (meta blk) = true /\ full) ->
          r.1.1.1 = Some (CompactBlockTaskFactory (meta blk)))
      /\ (IsAppendable (meta blk) = true -> ~ full ->
          r.1.1.1 = Some (CompactABlockTaskFactory (meta blk)))).
Proof.
  simpl. unfold BuildCompactionTaskFactory. split.
  - intros [-> | ->]; [reflexivity | rewrite orb_true_r; reflexivity].
  - intros -> ->. simpl.
    destruct (IsAppendable (meta blk)) eqn:Happ; simpl.
    + destruct (Z.eqb_spec (Rows blk) (BlockMaxRows (GetSchema (meta blk)))) as [Heq|Hne];
        simpl; repeat split; try reflexivity.
      * intros _ Hn. contradiction.
      * intros [Hf | [_ Hf]]; [discriminate | contradiction].
    + repeat split; try reflexivity. intros Hf. discriminate.
Qed.

Lemma BuildCompactionTaskFactory_witness :
  BuildCompactionTaskFactory blk_full_dropped = (None, None, [], None)
  /\ (BuildCompactionTaskFactory blk_full).1.1.1 = Some (CompactBlockTaskFactory (meta blk_full))
  /\ (BuildCompactionTaskFactory blk_idle).1.1.1 = Some (CompactBlockTaskFactory (meta blk_idle))
  /\ (BuildCompactionTaskFactory blk_half_percent).1.1.1
     = Some (CompactABlockTaskFactory (meta blk_half_percent))
  /\ (BuildCompactionTaskFactory blk_half_percent).1.2 = [7].
Proof.
  split; [exact (proj1 (BuildCompactionTaskFactory_spec blk_full_dropped) (or_introl eq_refl))|].
  destruct (proj2 (BuildCompactionTaskFactory_spec blk_full) eq_refl eq_refl) as (_ & _ & Hf & _).
  destruct (proj2 (BuildCompactionTaskFactory_spec blk_idle) eq_refl eq_refl) as (_ & _ & Hi & _).
  destruct (proj2 (BuildCompactionTaskFactory_spec blk_half_percent) eq_refl eq_refl)
    as (Hs & _ & _ & Ha).
  split; [exact (Hf (or_intror (conj eq_refl eq_refl)))|].
  split; [exact (Hi (or_introl eq_refl))|].
  split; [apply Ha; [reflexivity | vm_compute; discriminate] | exact Hs].
Defined.

(** * PK filter on an immutable block *)

(** C7 (amended). On a block with an index, when [Dedup] returns a non-nil
    error other than [ErrPossibleDuplicate], [blkGetByFilter] returns that
    very error to its caller (it is propagated, not turned into
    [ErrNotFound]); when [Dedup] returns nil (the key is absent),
    [blkGetByFilter] returns [ErrNotFound]. *)
Theorem blkGetByFilter_dedup_error (blk : dataBlock) (ix : Index) (ts : Z) (v : val) :
  index blk = Some ix ->
  (forall e, Dedup ix v = Some e -> e <> ErrPossibleDuplicate ->
             blkGetByFilter blk ts v = Returns 0%nat (Some e))
  /\ (Dedup ix v = None -> blkGetByFilter blk ts v = Returns 0%nat (Some ErrNotFound)).
Proof.
  intros Hix. unfold blkGetByFilter. rewrite Hix. split.
  - intros e -> Hne. rewrite bool_decide_eq_false_2 by assumption. reflexivity.
  - intros ->. reflexivity.
Qed.

Lemma blkGetByFilter_dedup_error_witness :
  blkGetByFilter blk_faulty_index 200 3 = Returns 0%nat (Some (ErrIO 5))
  /\ blkGetByFilter blk_sorted 200 4 = Returns 0%nat (Some ErrNotFound).
Proof.
  split.
  - apply (proj1 (blkGetByFilter_dedup_error blk_faulty_index _ 200 3 eq_refl) (ErrIO 5));
      [reflexivity | discriminate].
  - apply (proj2 (blkGetByFilter_dedup_error blk_sorted _ 200 4 eq_refl)). reflexivity.
Defined.

Lemma blkGetByFilter_propagates_counterexample :
  Dedup (ImmutableIndex {| im_filter := fun _ => true; im_fault := Some (ErrIO 5) |}) 3
    = Some (ErrIO 5)
  /\ blkGetByFilter blk_faulty_index 200 3 = Returns 0%nat (Some (ErrIO 5))
  /\ blkGetByFilter blk_faulty_index 200 3 <> Returns 0%nat (Some ErrNotFound).
Proof. repeat split; try reflexivity. discriminate. Qed.

(** * Destroy *)

Lemma runCalls_unrefs (l : list nat) rest :
  runCalls (((fun i => (Unref i, None)) <$> l) ++ rest) =
  ((Unref <$> l) ++ (runCalls rest).1, (runCalls rest).2).
Proof.
  induction l as [|i l IH].
  - simpl. destruct (runCalls rest); reflexivity.
  - rewrite !fmap_cons. cbn [app runCalls]. rewrite IH. reflexivity.
Qed.

(** C8 (amended). The first [Destroy] of a block makes its calls in order
    (close the node, release every column file, destroy the index, close the
    block file, destroy the block file) and stops at the first call that
    fails: that error is returned to the caller, the calls before it have
    been made and the calls after it are not. The block stays closed: every
    later [Destroy] does nothing. *)
Theorem Destroy_stops_at_first_error (io : DestroyIO) (blk : dataBlock) :
  closed blk = false ->
  let '(blk', tr, err) := Destroy io blk in
  (tr, err) = runCalls (destroyCalls io blk)
  /\ closed blk' = true
  /\ (forall io', Destroy io' blk' = (blk', [], None)).
Proof.
  intros Hopen. unfold Destroy, destroyCalls. rewrite Hopen.
  cbn [node index colFiles set_closed set_colFiles].
  destruct (node blk) as [n|], (node_Close io) as [e1|], (index blk) as [ix|],
    (index_Destroy io) as [e2|], (file_Close io) as [e3|], (file_Destroy io) as [e4|];
    simpl; rewrite ?runCalls_unrefs; simpl; rewrite <- ?app_assoc; simpl;
    rewrite ?app_nil_r; auto.
Qed.

Lemma Destroy_stops_at_first_error_witness :
  closed blk_open = false
  /\ let '(blk', tr, err) := Destroy io_node_fails blk_open in
     (tr, err) = runCalls (destroyCalls io_node_fails blk_open)
     /\ closed blk' = true
     /\ (forall io', Destroy io' blk' = (blk', [], None)).
Proof.
  split; [reflexivity | exact (Destroy_stops_at_first_error io_node_fails blk_open eq_refl)].
Defined.

Lemma Destroy_unwinds_counterexample :
  let '(blk', tr, err) := Destroy io_node_fails blk_open in
  err = Some (ErrIO 1)
  /\ tr = [NodeClose]
  /\ colFiles blk' = colFiles blk_open
  /\ (IndexDestroy ∉ tr) /\ (FileClose ∉ tr) /\ (FileDestroy ∉ tr).
Proof.
  vm_compute. repeat split; try reflexivity; intros H; repeat (inversion H; subst; clear H;
    match goal with H' : _ ∈ _ |- _ => rename H' into H | _ => idtac end).
Qed.

(** * The two update paths *)

Lemma GetColumnChain_set_chain h col chain c :
  GetColumnChain (set_chain h col chain) c
  = if decide (col = c) then chain else GetColumnChain h c.
Proof.
  unfold GetColumnChain, set_chain. simpl. rewrite lookup_insert.
  destruct (decide (col = c)); reflexivity.
Qed.

Lemma CheckNotUpdated_chain h col row ts :
  chain_conflicts (GetColumnChain h col) row row ts = true ->
  CheckNotUpdated h row row ts = Some TxnWWConflictErr.
Proof.
  intros Hc. unfold CheckNotUpdated.
  destruct (columns h !! col) as [chain|] eqn:Hcol.
  - assert (Hex : existsb (fun kc => chain_conflicts kc.2 row row ts)
                    (map_to_list (columns h)) = true).
    { apply existsb_exists. exists (col, chain). split.
      - apply list_elem_of_In, elem_of_map_to_list. exact Hcol.
      - unfold GetColumnChain in Hc. rewrite Hcol in Hc. exact Hc. }
    rewrite Hex. reflexivity.
  - unfold GetColumnChain in Hc. rewrite Hcol in Hc. discriminate.
Qed.

(** C4 (amended). The coarse-grained update is the fine-grained update
    behind one more check, [CheckNotUpdated] on the row in every column.
    When that check passes, and so whenever the coarse path installs a node,
    both paths return the same node and error and leave the handle in the
    same state. When the fine path fails, the coarse path fails with the
    same error, and both leave every column chain as it was. When the row is
    not deleted and the check reports a conflict, the coarse path returns it
    and changes nothing (the fine path may install the node all the same). *)
Theorem coarse_is_checked_fine (blk : dataBlock) (txn : AsyncTxn) (row colIdx : nat) (v : val) :
  let ts := GetStartTS txn in
  let coarse := updateWithCoarseLock blk txn row colIdx v in
  let fine := updateWithFineLock blk txn row colIdx v in
  (CheckNotUpdated (mvcc blk) row row ts = None -> coarse = fine)
  /\ (coarse.2 = None -> coarse = fine)
  /\ (forall e, fine.2 = Some e ->
       coarse.2 = Some e
       /\ forall c, GetColumnChain (mvcc coarse.1.1) c = GetColumnChain (mvcc blk) c
                 /\ GetColumnChain (mvcc fine.1.1) c = GetColumnChain (mvcc blk) c)
  /\ (forall e, CheckNotDeleted (mvcc blk) row row ts = None ->
       CheckNotUpdated (mvcc blk) row row ts = Some e ->
       coarse = (blk, None, Some e)).
Proof.
  simpl. unfold updateWithCoarseLock, updateWithFineLock.
  destruct (CheckNotDeleted (mvcc blk) row row (GetStartTS txn)) as [e0|] eqn:Hdel.
  - split; [reflexivity|]. split; [reflexivity|]. split; [|discriminate].
    simpl. intros e He. split; [exact He|]. intros c. split; reflexivity.
  - destruct (CheckNotUpdated (mvcc blk) row row (GetStartTS txn)) as [e1|] eqn:Hupd.
    + split; [discriminate|]. split; [discriminate|]. split.
      * intros e He. unfold AddNodeLocked, TryUpdateNodeLocked in *. simpl in *.
        destruct (chain_conflicts (GetColumnChain (mvcc blk) colIdx) row row (GetStartTS txn))
          eqn:Hc; simpl in *; [|discriminate].
        rewrite (CheckNotUpdated_chain _ _ _ _ Hc) in Hupd.
        injection Hupd as <-. injection He as <-. split; [reflexivity|].
        intros c. split; [reflexivity|].
        rewrite GetColumnChain_set_chain. destruct (decide (colIdx = c)); subst; reflexivity.
      * intros e _ [= <-]. reflexivity.
    + split; [reflexivity|]. split; [reflexivity|]. split; [|discriminate].
      intros e He. unfold AddNodeLocked, TryUpdateNodeLocked in *. simpl in *.
      destruct (chain_conflicts (GetColumnChain (mvcc blk) colIdx) row row (GetStartTS txn))
        eqn:Hc; simpl in *; [|discriminate].
      rewrite (CheckNotUpdated_chain _ _ _ _ Hc) in Hupd. discriminate.
Qed.

Lemma coarse_is_checked_fine_witness :
  updateWithCoarseLock blk_open txn170 0 1 12 = updateWithFineLock blk_open txn170 0 1 12
  /\ updateWithCoarseLock blk_inflight txn170 0 1 12
     = (blk_inflight, None, Some TxnWWConflictErr)
  /\ (updateWithCoarseLock blk_inflight txn170 0 0 12).2 = Some TxnWWConflictErr.
Proof.
  split; [|split].
  - apply (proj1 (coarse_is_checked_fine blk_open txn170 0 1 12)). reflexivity.
  - apply (proj2 (proj2 (proj2 (coarse_is_checked_fine blk_inflight txn170 0 1 12))));
      vm_compute; reflexivity.
  - apply (proj1 (proj2 (proj2 (coarse_is_checked_fine blk_inflight txn170 0 0 12)))).
    vm_compute. reflexivity.
Defined.

Lemma coarse_fine_differ_counterexample :
  updateWithCoarseLock blk_inflight txn170 0 1 12 = (blk_inflight, None, Some TxnWWConflictErr)
  /\ (updateWithFineLock blk_inflight txn170 0 1 12).2 = None
  /\ GetColumnChain (mvcc (updateWithFineLock blk_inflight txn170 0 1 12).1.1) 1
     = [ {| cn_start := 170; cn_commit := None; cn_vals := {[ 0%nat := 12 ]};
            cn_unknown := false |} ]
  /\ GetColumnChain (mvcc (updateWithCoarseLock blk_inflight txn170 0 1 12).1.1) 1 = []
  /\ updateWithCoarseLock blk_inflight txn170 0 1 12
     <> updateWithFineLock blk_inflight txn170 0 1 12.
Proof.
  assert (Hc : updateWithCoarseLock blk_inflight txn170 0 1 12
               = (blk_inflight, None, Some TxnWWConflictErr)) by (vm_compute; reflexivity).
  assert (Hf : (updateWithFineLock blk_inflight txn170 0 1 12).2 = None)
    by (vm_compute; reflexivity).
  repeat split; try assumption; try (vm_compute; reflexivity).
  intros Heq. rewrite <- Heq, Hc in Hf. discriminate.
Qed.

(** * Point reads *)

Lemma IsDeletedLocked_undecided h row ts :
  delete_undecided h row = true ->
  IsDeletedLocked h row ts = (false, Some TxnInternalErr).
Proof. intros Hu. unfold IsDeletedLocked. rewrite Hu. reflexivity. Qed.

Lemma IsDeletedLocked_spec h row ts :
  delete_undecided h row = false ->
  (IsDeletedLocked h row ts).2 = None
  /\ ((IsDeletedLocked h row ts).1 = true <-> deleted_at h row ts).
Proof.
  intros Hu. unfold IsDeletedLocked. rewrite Hu.
  split; [reflexivity|]. unfold deleted_at. simpl.
  rewrite existsb_exists. split.
  - intros (n & Hin & Hn). apply andb_prop in Hn as [Hc Hm].
    unfold committed_at in Hc. destruct (dn_commit n) as [c|] eqn:E; [|discriminate].
    exists n, c. split; [|split; [exact E|split]].
    + apply list_elem_of_In. exact Hin.
    + apply Z.leb_le. exact Hc.
    + apply bool_decide_eq_true in Hm. exact Hm.
  - intros (n & c & Hin & Hc & Hle & Hm). exists n. split.
    + apply list_elem_of_In. exact Hin.
    + unfold committed_at. rewrite Hc. apply andb_true_intro. split.
      * apply Z.leb_le. exact Hle.
      * apply bool_decide_eq_true. exact Hm.
Qed.

Lemma visible_update_Some n row ts c v :
  visible_update n row ts = Some (c, v)
  <-> cn_commit n = Some c /\ c <= ts /\ cn_vals n !! row = Some v.
Proof.
  unfold visible_update.
  destruct (cn_commit n) as [c0|], (cn_vals n !! row) as [v0|]; simpl;
    try (split; [discriminate | intros (? & ? & ?); congruence]).
  destruct (Z.leb_spec c0 ts); split.
  - intros [= <- <-]. auto.
  - intros ([= <-] & _ & [= <-]). reflexivity.
  - discriminate.
  - intros ([= <-] & ? & _). lia.
Qed.

Lemma latest_update_None chain row ts :
  latest_update chain row ts = None
  <-> forall n, n ∈ chain -> visible_update n row ts = None.
Proof.
  induction chain as [|n chain IH]; simpl.
  - split; [intros _ n Hn; inversion Hn | reflexivity].
  - destruct (visible_update n row ts) as [[c v]|] eqn:Hn.
    + split.
      * intros H. exfalso.
        destruct (latest_update chain row ts) as [[c' v']|]; [|discriminate].
        destruct (c' <=? c); discriminate.
      * intros H. specialize (H n (list_elem_of_here _ _)). congruence.
    + rewrite IH. split.
      * intros H n' Hn'. apply elem_of_cons in Hn' as [-> | Hn']; auto.
      * intros H n' Hn'. apply H. apply list_elem_of_further. exact Hn'.
Qed.

Lemma latest_update_Some chain row ts c v :
  latest_update chain row ts = Some (c, v) ->
  (exists n, n ∈ chain /\ visible_update n row ts = Some (c, v))
  /\ forall n c' v', n ∈ chain -> visible_update n row ts = Some (c', v') -> c' <= c.
Proof.
  revert c v. induction chain as [|n chain IH]; simpl; intros c v H; [discriminate|].
  destruct (visible_update n row ts) as [[c1 v1]|] eqn:Hn.
  - destruct (latest_update chain row ts) as [[c2 v2]|] eqn:Hrest.
    + destruct (IH c2 v2 eq_refl) as ((n2 & Hin2 & Hv2) & Hmax).
      destruct (Z.leb_spec c2 c1) as [Hle|Hlt]; injection H as <- <-.
      * split; [exists n; split; [apply list_elem_of_here | exact Hn]|].
        intros n' c' v' Hin Hv. apply elem_of_cons in Hin as [-> | Hin].
        -- rewrite Hn in Hv. injection Hv as <- <-. lia.
        -- specialize (Hmax _ _ _ Hin Hv). lia.
      * split; [exists n2; split; [apply list_elem_of_further; exact Hin2 | exact Hv2]|].
        intros n' c' v' Hin Hv. apply elem_of_cons in Hin as [-> | Hin].
        -- rewrite Hn in Hv. injection Hv as <- <-. lia.
        -- exact (Hmax _ _ _ Hin Hv).
    + injection H as <- <-.
      split; [exists n; split; [apply list_elem_of_here | exact Hn]|].
      intros n' c' v' Hin Hv. apply elem_of_cons in Hin as [-> | Hin].
      * rewrite Hn in Hv. injection Hv as <- <-. lia.
      * pose proof (proj1 (latest_update_None chain row ts) Hrest n' Hin). congruence.
  - destruct (IH c v H) as ((n2 & Hin2 & Hv2) & Hmax).
    split; [exists n2; split; [apply list_elem_of_further; exact Hin2 | exact Hv2]|].
    intros n' c' v' Hin Hv. apply elem_of_cons in Hin as [-> | Hin].
    + congruence.
    + exact (Hmax _ _ _ Hin Hv).
Qed.

Lemma latest_update_of_latest chain row ts c v :
  latest_committed_update chain row ts c v -> latest_update chain row ts = Some (c, v).
Proof.
  intros ((n & Hin & Hc & Hle & Hv) & Hmax).
  assert (Hn : visible_update n row ts = Some (c, v)) by (apply visible_update_Some; auto).
  destruct (latest_update chain row ts) as [[c0 v0]|] eqn:E.
  - destruct (latest_update_Some _ _ _ _ _ E) as ((n0 & Hin0 & Hv0) & Hmax0).
    pose proof (Hmax0 _ _ _ Hin Hn) as Hcc.
    apply visible_update_Some in Hv0 as (H1 & H2 & H3).
    destruct (Hmax _ _ _ Hin0 H1 H2 H3) as [Hlt | [-> ->]]; [lia | reflexivity].
  - pose proof (proj1 (latest_update_None _ _ _) E n Hin). congruence.
Qed.

Lemma latest_update_of_none chain row ts :
  no_committed_update chain row ts -> latest_update chain row ts = None.
Proof.
  intros H. apply latest_update_None. intros n Hin.
  destruct (visible_update n row ts) as [[c v]|] eqn:E; [|reflexivity].
  apply visible_update_Some in E as (H1 & H2 & H3).
  rewrite (H n c Hin H1 H2) in H3. discriminate.
Qed.

Lemma getVectorCopy_visible blk n ts col maxRow column :
  visibleRows blk n ts = Some maxRow ->
  data n !! col = Some column ->
  RawVec <$> (getVectorCopy blk n ts col).1 = Some (Some (take maxRow column)).
Proof.
  unfold visibleRows, getVectorCopy, GetMaxVisibleTS, GetVectorCopy. intros Hvis Hcol.
  destruct (LoadMaxVisible (mvcc blk) <=? ts).
  - injection Hvis as <-. simpl. rewrite Hcol. reflexivity.
  - destruct (GetMaxVisibleRowLocked (mvcc blk) ts) as [[m vis] err] eqn:E.
    unfold GetMaxVisibleRowLocked in E. injection E as <- <- <-.
    destruct (bool_decide _); [|discriminate]. injection Hvis as <-.
    simpl. rewrite Hcol. reflexivity.
Qed.

(** C1 (amended). For every transaction, row and column of a block, where
    the handle can decide (the state of the transaction of every delete node
    that covers the row, and of every update node that writes the cell, can
    be told): if the row is deleted at the transaction's start timestamp,
    [GetValue] returns [ErrNotFound]; otherwise it returns the value of the
    committed update on that cell with the greatest commit timestamp at or
    before the start timestamp; and if there is no such update it returns
    the base value of the cell, read from the column file for an immutable
    block and, for an appendable block, from the in-memory buffer when the
    row is among the rows whose append the transaction sees. Where the
    handle cannot decide, [GetValue] returns [TxnInternalErr]. *)
Theorem GetValue_spec (blk : dataBlock) (txn : AsyncTxn) (row col : nat) :
  let ts := GetStartTS txn in
  let chain := GetColumnChain (mvcc blk) col in
  (delete_undecided (mvcc blk) row = true ->
   GetValue blk txn row col = Returns None (Some TxnInternalErr))
  /\ (delete_undecided (mvcc blk) row = false ->
      (deleted_at (mvcc blk) row ts ->
       GetValue blk txn row col = Returns None (Some ErrNotFound))
      /\ (~ deleted_at (mvcc blk) row ts ->
          (update_undecided chain row = true ->
           GetValue blk txn row col = Returns None (Some TxnInternalErr))
          /\ (update_undecided chain row = false ->
              (forall c v, latest_committed_update chain row ts c v ->
                           GetValue blk txn row col = Returns (Some v) None)
              /\ (no_committed_update chain row ts ->
                  forall b, baseValue blk ts row col b ->
                            GetValue blk txn row col = Returns (Some b) None)))).
Proof.
  intros ts chain. split.
  { intros Hu. unfold GetValue.
    rewrite (IsDeletedLocked_undecided _ _ _ Hu). reflexivity. }
  intros Hu.
  destruct (IsDeletedLocked_spec (mvcc blk) row ts Hu) as [Herr Hdel].
  unfold GetValue. fold ts. fold chain.
  destruct (IsDeletedLocked (mvcc blk) row ts) as [deleted err]. simpl in Herr, Hdel.
  subst err. split.
  - intros Hd. apply Hdel in Hd. subst deleted. reflexivity.
  - intros Hnd. assert (deleted = false) as ->.
    { destruct deleted; [exfalso; apply Hnd, Hdel; reflexivity | reflexivity]. }
    simpl. unfold GetValueLocked. split.
    { intros Hcu. rewrite Hcu. reflexivity. }
    intros Hcu. rewrite Hcu. split.
    + intros c v Hlatest.
      rewrite (latest_update_of_latest _ _ _ _ _ Hlatest). reflexivity.
    + intros Hnone b Hbase.
      rewrite (latest_update_of_none _ _ _ Hnone). simpl.
      unfold baseValue in Hbase. destruct (IsAppendable (meta blk)).
      * destruct Hbase as (n & maxRow & column & Hn & Hvis & Hlt & Hcol & Hb).
        rewrite Hn.
        pose proof (getVectorCopy_visible blk n ts col maxRow column Hvis Hcol) as Hv.
        fold ts in Hv |- *.
        destruct ((getVectorCopy blk n ts col).1) as [view|]; [|discriminate].
        simpl in Hv. injection Hv as Hv. rewrite Hv. simpl.
        rewrite lookup_take_lt by exact Hlt. rewrite Hb. reflexivity.
      * destruct Hbase as (column & Hcol & Hb).
        unfold getVectorWrapper. rewrite Hcol. simpl. rewrite Hb. reflexivity.
Qed.

Lemma GetValue_spec_witness :
  GetValue blk_history txn250 1 1 = Returns None (Some ErrNotFound)
  /\ GetValue blk_history txn250 0 1 = Returns (Some 11) None
  /\ GetValue blk_history {| GetStartTS := 150 |} 0 1 = Returns (Some 9) None
  /\ GetValue blk_history txn250 2 1 = Returns (Some 30) None
  /\ GetValue blk_idle txn250 2 0 = Returns (Some 5) None
  /\ GetValue blk_undecided txn250 2 0 = Returns None (Some TxnInternalErr).
Proof.
  assert (Hdel : deleted_at (mvcc blk_history) 1 250).
  { exists {| dn_start := 210; dn_commit := Some 220; dn_mask := {[ 1%nat ]};
              dn_unknown := false |}, 220.
    split; [apply list_elem_of_here|]. split; [reflexivity|]. split; [lia|].
    simpl. set_solver. }
  assert (Hnd : forall ts row, row <> 1%nat -> ~ deleted_at (mvcc blk_history) row ts).
  { intros ts row Hrow (n & c & Hin & _ & _ & Hm). apply list_elem_of_singleton in Hin.
    subst n. simpl in Hm. apply elem_of_singleton in Hm. contradiction. }
  assert (Hnd' : forall ts row, ~ deleted_at (mvcc blk_idle) row ts).
  { intros ts row (n & c & Hin & _). inversion Hin. }
  assert (Hlatest : forall ts c v, (ts, c, v) = (250, 180, 11) \/ (ts, c, v) = (150, 120, 9) ->
            latest_committed_update (GetColumnChain (mvcc blk_history) 1) 0 ts c v).
  { intros ts c v Hcase. split.
    - destruct Hcase as [[= -> -> ->] | [= -> -> ->]].
      + eexists. split; [apply list_elem_of_here|]. repeat split. lia.
      + eexists. split; [apply list_elem_of_further, list_elem_of_here|]. repeat split. lia.
    - intros n c' v' Hin Hc Hle Hv. change (GetColumnChain (mvcc blk_history) 1) with
        [ {| cn_start := 160; cn_commit := Some 180; cn_vals := {[ 0%nat := 11 ]};
             cn_unknown := false |};
          {| cn_start := 110; cn_commit := Some 120; cn_vals := {[ 0%nat := 9 ]};
             cn_unknown := false |} ] in Hin.
      apply elem_of_cons in Hin as [-> | Hin];
        [|apply list_elem_of_singleton in Hin; subst n];
        vm_compute in Hc, Hv; injection Hc as <-; injection Hv as <-;
        destruct Hcase as [[= -> -> ->] | [= -> -> ->]]; lia. }
  assert (Hnone : no_committed_update (GetColumnChain (mvcc blk_history) 1) 2 250).
  { intros n c Hin _ _. change (GetColumnChain (mvcc blk_history) 1) with
        [ {| cn_start := 160; cn_commit := Some 180; cn_vals := {[ 0%nat := 11 ]};
             cn_unknown := false |};
          {| cn_start := 110; cn_commit := Some 120; cn_vals := {[ 0%nat := 9 ]};
             cn_unknown := false |} ] in Hin.
    apply elem_of_cons in Hin as [-> | Hin];
      [|apply list_elem_of_singleton in Hin; subst n]; reflexivity. }
  assert (Hnone' : no_committed_update (GetColumnChain (mvcc blk_idle) 0) 2 250).
  { intros n c Hin. inversion Hin. }
  split; [exact (proj1 (proj2 (GetValue_spec blk_history txn250 1 1) eq_refl) Hdel)|].
  split; [exact (proj1 (proj2 (proj2 (proj2 (GetValue_spec blk_history txn250 0 1) eq_refl)
                                        (Hnd 250 0%nat ltac:(lia))) eq_refl)
                   180 11 (Hlatest _ _ _ (or_introl eq_refl)))|].
  split; [exact (proj1 (proj2 (proj2 (proj2 (GetValue_spec blk_history
                                                 {| GetStartTS := 150 |} 0 1) eq_refl)
                                        (Hnd 150 0%nat ltac:(lia))) eq_refl)
                   120 9 (Hlatest _ _ _ (or_intror eq_refl)))|].
  split; [|split].
  - apply (proj2 (proj2 (proj2 (proj2 (GetValue_spec blk_history txn250 2 1) eq_refl)
                                (Hnd 250 2%nat ltac:(lia))) eq_refl) Hnone).
    exists {| rows := 3; data := [[1; 2; 3]; [10; 20; 30]] |}, 3%nat, [10; 20; 30].
    repeat split. lia.
  - apply (proj2 (proj2 (proj2 (proj2 (GetValue_spec blk_idle txn250 2 0) eq_refl)
                                (Hnd' _ _)) eq_refl) Hnone').
    exists [1; 3; 5; 7]. split; reflexivity.
  - exact (proj1 (GetValue_spec blk_undecided txn250 2 0) eq_refl).
Defined.

Lemma GetValue_unseen_row_counterexample :
  delete_undecided (mvcc blk_history) 2 = false
  /\ ~ deleted_at (mvcc blk_history) 2 50
  /\ update_undecided (GetColumnChain (mvcc blk_history) 0) 2 = false
  /\ no_committed_update (GetColumnChain (mvcc blk_history) 0) 2 50
  /\ (exists n column,
        node blk_history = Some n /\ data n !! 0%nat = Some column
        /\ column !! 2%nat = Some 3)
  /\ GetValue blk_history txn50 2 0 = Panics
  /\ GetValue blk_history txn50 2 0 <> Returns (Some 3) None.
Proof.
  split; [reflexivity|]. split.
  { intros (n & c & Hin & _ & _ & Hm). apply list_elem_of_singleton in Hin.
    subst n. simpl in Hm. apply elem_of_singleton in Hm. discriminate. }
  split; [reflexivity|]. split.
  { intros n c Hin. inversion Hin. }
  split.
  { exists {| rows := 3; data := [[1; 2; 3]; [10; 20; 30]] |}, [1; 2; 3].
    repeat split. }
  split; [vm_compute; reflexivity|]. vm_compute. discriminate.
Qed.

(** * Replay *)

Lemma upsert_from_keeps (keys : list val) : forall (m : gmap Z nat) off k r0,
  m !! k = Some r0 ->
  exists r, upsert_from m keys off !! k = Some r /\ (r = r0 \/ (off <= r)%nat).
Proof.
  induction keys as [|k0 ks IH]; intros m off k r0 Hm; simpl.
  - exists r0. auto.
  - destruct (decide (k0 = k)) as [->|Hne].
    + destruct (IH (<[k := off]> m) (S off) k off) as (r & Hr & Hcase).
      { apply lookup_insert_eq. }
      exists r. split; [exact Hr|]. right. lia.
    + destruct (IH (<[k0 := off]> m) (S off) k r0) as (r & Hr & Hcase).
      { rewrite lookup_insert_ne by exact Hne. exact Hm. }
      exists r. split; [exact Hr|]. destruct Hcase; [auto | right; lia].
Qed.

Lemma upsert_from_origin (keys : list val) : forall (m : gmap Z nat) off k r,
  upsert_from m keys off !! k = Some r ->
  (exists i, keys !! i = Some k /\ r = (off + i)%nat) \/ m !! k = Some r.
Proof.
  induction keys as [|k0 ks IH]; intros m off k r H; simpl in H.
  - right. exact H.
  - apply IH in H as [(i & Hi & ->) | H].
    + left. exists (S i). split; [exact Hi | lia].
    + destruct (decide (k0 = k)) as [->|Hne].
      * rewrite lookup_insert_eq in H. injection H as <-.
        left. exists 0%nat. split; [reflexivity | lia].
      * rewrite lookup_insert_ne in H by exact Hne. right. exact H.
Qed.

Lemma upsert_from_latest (keys : list val) : forall (m : gmap Z nat) off i k,
  keys !! i = Some k ->
  exists r, upsert_from m keys off !! k = Some r /\ (off + i <= r)%nat.
Proof.
  induction keys as [|k0 ks IH]; intros m off i k Hi; [discriminate|].
  destruct i as [|i]; simpl in *.
  - injection Hi as ->.
    destruct (upsert_from_keeps ks (<[k := off]> m) (S off) k off) as (r & Hr & Hcase).
    { apply lookup_insert_eq. }
    exists r. split; [exact Hr | lia].
  - destruct (IH (<[k0 := off]> m) (S off) i k Hi) as (r & Hr & Hle).
    exists r. split; [exact Hr | lia].
Qed.

Lemma applyDeleteRows_spec (keyOf : nat -> option val) (ts : Z) (gen : list nat) :
  forall m : mutableIndex,
    (forall r, r ∈ gen -> is_Some (keyOf r)) ->
    (forall k r, active m !! k = Some r -> keyOf r = Some k) ->
    exists m',
      applyDeleteRows keyOf (MutableIndex m) gen ts = Returns (MutableIndex m') None
      /\ (forall k r, active m' !! k = Some r <-> active m !! k = Some r /\ r ∉ gen)
      /\ (forall k r, active m !! k = Some r -> r ∈ gen -> tombstones m' !! k = Some ts)
      /\ (forall k, tombstones m !! k = Some ts -> tombstones m' !! k = Some ts).
Proof.
  induction gen as [|r0 gen IH]; intros m Hkeys Hcons.
  - exists m. split; [reflexivity|]. split; [|split].
    + intros k r. split; [intros H; split; [exact H | apply not_elem_of_nil] | tauto].
    + intros k r _ Hin. inversion Hin.
    + auto.
  - destruct (Hkeys r0 (list_elem_of_here _ _)) as [v Hv].
    assert (Hkeys' : forall r, r ∈ gen -> is_Some (keyOf r)).
    { intros r Hr. apply Hkeys, list_elem_of_further, Hr. }
    (* the index after this row, and what it keeps *)
    assert (Hstep : exists m1,
      applyDeleteRows keyOf (MutableIndex m) (r0 :: gen) ts
        = applyDeleteRows keyOf (MutableIndex m1) gen ts
      /\ (forall k r, active m1 !! k = Some r <-> active m !! k = Some r /\ r <> r0)
      /\ (active m !! v = Some r0 -> tombstones m1 !! v = Some ts)
      /\ (forall k, tombstones m !! k = Some ts -> tombstones m1 !! k = Some ts)).
    { simpl. rewrite Hv. simpl. destruct (active m !! v) as [cur|] eqn:Hcur; simpl.
      - destruct (decide (cur = r0)) as [->|Hne].
        + rewrite bool_decide_eq_true_2 by reflexivity. simpl.
          eexists. split; [reflexivity|]. simpl. split; [|split].
          * intros k r. destruct (decide (v = k)) as [<-|Hk].
            -- rewrite lookup_delete_eq. split; [discriminate|]. intros [H Hr]. congruence.
            -- rewrite lookup_delete_ne by exact Hk. split; [|tauto].
               intros H. split; [exact H|]. intros ->.
               apply Hcons in H. congruence.
          * intros _. apply lookup_insert_eq.
          * intros k Hk. destruct (decide (v = k)) as [<-|Hne];
              [apply lookup_insert_eq | rewrite lookup_insert_ne by exact Hne; exact Hk].
        + rewrite bool_decide_eq_false_2 by exact Hne. simpl.
          exists m. split; [reflexivity|]. split; [|split].
          * intros k r. split; [|tauto]. intros H. split; [exact H|]. intros ->.
            pose proof (Hcons _ _ H) as Hk. congruence.
          * intros H. congruence.
          * auto.
      - eexists. split; [reflexivity|]. simpl. split; [|split].
        + intros k r. destruct (decide (v = k)) as [<-|Hk].
          * rewrite lookup_delete_eq. split; [discriminate|]. intros [H _]. congruence.
          * rewrite lookup_delete_ne by exact Hk. split; [|tauto].
            intros H. split; [exact H|]. intros ->. apply Hcons in H. congruence.
        + discriminate.
        + intros k Hk. destruct (decide (v = k)) as [<-|Hne];
            [apply lookup_insert_eq | rewrite lookup_insert_ne by exact Hne; exact Hk]. }
    destruct Hstep as (m1 & Hrun & Hact & Htomb & Hmono).
    destruct (IH m1 Hkeys') as (m' & Hrun' & Hact' & Htomb' & Hmono').
    { intros k r H. apply Hact in H as [H _]. apply Hcons, H. }
    exists m'. split; [rewrite Hrun; exact Hrun'|]. split; [|split].
    + intros k r. rewrite Hact', Hact, not_elem_of_cons. tauto.
    + intros k r Hk Hin. apply elem_of_cons in Hin as [-> | Hin].
      * pose proof (Hcons _ _ Hk) as Hkey. rewrite Hv in Hkey. injection Hkey as ->.
        apply Hmono', Htomb, Hk.
      * destruct (decide (r = r0)) as [->|Hne].
        -- pose proof (Hcons _ _ Hk) as Hkey. rewrite Hv in Hkey. injection Hkey as ->.
           apply Hmono', Htomb, Hk.
        -- apply (Htomb' k r); [apply Hact; auto | exact Hin].
    + intros k Hk. apply Hmono', Hmono, Hk.
Qed.

Lemma applyDeleteRows_ext (k1 k2 : nat -> option val) :
  (forall r, k1 r = k2 r) ->
  forall gen ix ts, applyDeleteRows k1 ix gen ts = applyDeleteRows k2 ix gen ts.
Proof.
  intros Hext gen. induction gen as [|r gen IH]; intros ix ts; simpl; [reflexivity|].
  rewrite Hext. destruct (k2 r) as [v|]; [|reflexivity].
  destruct (GetActiveRow ix v) as [cur err].
  destruct (bool_decide (is_Some err) || bool_decide (cur = r)); [|apply IH].
  destruct (IndexDelete ix v ts) as [ix' [e|]]; [reflexivity | apply IH].
Qed.

Lemma openColFiles_Some (f : BlockFile) (n : nat) :
  (n <= length (file_columns f))%nat -> is_Some (openColFiles f n).
Proof.
  induction n as [|n IH]; intros Hn; simpl; [eauto|].
  destruct IH as [m ->]; [lia|].
  destruct (lookup_lt_is_Some_2 (file_columns f) n) as [c ->]; [lia|]. eauto.
Qed.

Lemma replay_updates_shape (l : list (nat * gmap nat val)) (blk : dataBlock) :
  exists cs, foldr replayColumnNode blk l = set_mvcc blk (set_columns (mvcc blk) cs).
Proof.
  induction l as [|[colIdx vals] l IH].
  - exists (columns (mvcc blk)). destruct blk as [? ? ? ? ? ? [] ? ?]. reflexivity.
  - destruct IH as (cs & IH). cbn [foldr]. rewrite IH. eexists. reflexivity.
Qed.

Lemma mapM_cons_option {A B} (f : A -> option B) (x : A) (l : list A) :
  mapM f (x :: l) = y ← f x; k ← mapM f l; Some (y :: k).
Proof. reflexivity. Qed.

Section KeysOfRows.

Variable EncodeTypedVals : list val -> val.
Variable cols : list (list val).
Variable R : nat.
Hypothesis Hrows : Forall (fun c : list val => length c = R) cols.

Let column (i : nat) : list val := default [] (cols !! i).

Lemma column_lookup i :
  (i < length cols)%nat -> cols !! i = Some (column i) /\ length (column i) = R.
Proof.
  intros Hi. unfold column.
  destruct (lookup_lt_is_Some_2 cols i Hi) as [c Hc]. rewrite Hc. simpl.
  split; [reflexivity|]. exact (proj1 (Forall_lookup _ _) Hrows i c Hc).
Qed.

Lemma sortKeyCopies_valid n idxs :
  data n = cols -> Forall (fun i => (i < length cols)%nat) idxs ->
  sortKeyCopies n R idxs = (column <$> idxs, None).
Proof.
  intros Hdata. induction 1 as [|i idxs Hi _ IH]; simpl; [reflexivity|].
  destruct (column_lookup i Hi) as [Hc Hlen].
  unfold GetVectorCopy. rewrite Hdata, Hc, IH.
  rewrite take_ge by lia. reflexivity.
Qed.

Lemma sortKeyVectors_valid n idxs :
  data n = cols -> Forall (fun i => (i < length cols)%nat) idxs ->
  sortKeyVectors n idxs = (column <$> idxs, None).
Proof.
  intros Hdata. induction 1 as [|i idxs Hi _ IH]; simpl; [reflexivity|].
  destruct (column_lookup i Hi) as [Hc Hlen].
  unfold GetVectorByAttr. rewrite Hdata, Hc, IH. reflexivity.
Qed.

Lemma mapM_columns idxs r :
  Forall (fun i => (i < length cols)%nat) idxs ->
  mapM (fun vec : list val => vec !! r) (column <$> idxs)
  = mapM (fun i => cols !! i ≫= fun c : list val => c !! r) idxs.
Proof.
  induction 1 as [|i idxs Hi _ IH]; [reflexivity|].
  destruct (column_lookup i Hi) as [Hc Hlen].
  rewrite fmap_cons, !mapM_cons_option, Hc, IH. reflexivity.
Qed.

Lemma mapM_cells_lt idxs r :
  (r < R)%nat -> Forall (fun i => (i < length cols)%nat) idxs ->
  mapM (fun i => cols !! i ≫= fun c : list val => c !! r) idxs
  = Some ((fun v : list val => default 0 (v !! r)) <$> (column <$> idxs)).
Proof.
  intros Hr. induction 1 as [|i idxs Hi _ IH]; [reflexivity|].
  destruct (column_lookup i Hi) as [Hc Hlen].
  rewrite mapM_cons_option, Hc, IH, !fmap_cons. simpl.
  destruct (lookup_lt_is_Some_2 (column i) r) as [x Hx]; [lia|].
  rewrite Hx. reflexivity.
Qed.

Lemma mapM_cells_ge idxs r :
  (R <= r)%nat -> idxs <> [] -> Forall (fun i => (i < length cols)%nat) idxs ->
  mapM (fun i => cols !! i ≫= fun c : list val => c !! r) idxs = None.
Proof.
  intros Hr Hne Hall. destruct Hall as [|i idxs Hi _]; [contradiction|].
  destruct (column_lookup i Hi) as [Hc Hlen]. rewrite mapM_cons_option, Hc. simpl.
  rewrite lookup_ge_None_2 by lia. reflexivity.
Qed.

(** The keys [ReplayIndex] upserts are the primary keys of the rows. *)
Lemma EncodeCompoundColumn_lookup idxs r :
  idxs <> [] -> Forall (fun i => (i < length cols)%nat) idxs ->
  EncodeCompoundColumn EncodeTypedVals (column <$> idxs) !! r
  = EncodeTypedVals <$> mapM (fun i => cols !! i ≫= fun c : list val => c !! r) idxs.
Proof.
  intros Hne Hall. destruct idxs as [|i0 idxs]; [contradiction|].
  assert (Hlen : length (column i0) = R).
  { inversion Hall; subst. apply column_lookup. assumption. }
  unfold EncodeCompoundColumn. rewrite fmap_cons, Hlen, list_lookup_fmap.
  destruct (decide (r < R)%nat) as [Hr|Hr].
  - rewrite lookup_seq_lt by exact Hr. simpl "+".
    rewrite (mapM_cells_lt (i0 :: idxs) r Hr Hall). reflexivity.
  - rewrite lookup_seq_ge by lia.
    rewrite (mapM_cells_ge (i0 :: idxs) r) by (auto; lia). reflexivity.
Qed.

End KeysOfRows.

Section ReplayProof.

Variable EncodeTypedVals : list val -> val.
Variable me : BlockEntry.
Variable f : BlockFile.
Hypothesis Hwf : wf_file (GetSchema me) f.
Hypothesis Hpk : HasPK (GetSchema me) = true.

Let schema := GetSchema me.
Let pk (r : nat) : option val := rowKey EncodeTypedVals schema (file_columns f) r.

(** What a schema with a primary key looks like. *)
Lemma schema_sortkey :
  exists k, SortKey schema = Some k
            /\ Defs k <> []
            /\ Forall (fun i => (i < length (file_columns f))%nat) (Defs k)
            /\ (IsSinglePK schema = true ->
                Defs k = [GetSingleSortKeyIdx schema]).
Proof.
  unfold HasPK in Hpk. fold schema in Hpk.
  destruct (SortKey schema) as [k|] eqn:Hk; [|discriminate].
  destruct (wf_sortkey _ _ Hwf k Hk) as [Hne Hall].
  exists k. split; [reflexivity|]. split; [exact Hne|]. split.
  - rewrite (wf_cols _ _ Hwf). exact Hall.
  - unfold IsSinglePK, GetSingleSortKeyIdx. rewrite Hk, Hpk. simpl.
    intros Hlen. apply bool_decide_eq_true in Hlen.
    destruct (Defs k) as [|i [|? ?]]; try discriminate. reflexivity.
Qed.

Lemma rowKey_is_Some r : (r < ReadRows f)%nat -> is_Some (pk r).
Proof.
  intros Hr. destruct schema_sortkey as (k & Hk & Hne & Hall & Hsingle).
  unfold pk, rowKey. fold schema. destruct (IsSinglePK schema) eqn:Hs.
  - specialize (Hsingle eq_refl). rewrite Hsingle in Hall.
    apply Forall_cons_1 in Hall as [Hi _].
    destruct (column_lookup _ _ (wf_rows _ _ Hwf) _ Hi) as [Hc Hlen].
    rewrite Hc. simpl. apply lookup_lt_is_Some_2. lia.
  - rewrite Hk. simpl.
    rewrite (mapM_cells_lt _ _ (wf_rows _ _ Hwf) _ _ Hr Hall). simpl. eauto.
Qed.

Lemma ReplayIndex_keys (blk : dataBlock) (m0 : mutableIndex) :
  IsAppendable me = true ->
  meta blk = me -> node blk = Some (newNode f) -> index blk = Some (MutableIndex m0) ->
  exists keys,
    ReplayIndex EncodeTypedVals blk
    = Returns (set_index blk (Some (MutableIndex
                 {| active := upsert_from (active m0) keys 0;
                    tombstones := tombstones m0 |}))) None
    /\ forall r, keys !! r = pk r.
Proof.
  intros Happ Hmeta Hnode Hix.
  destruct schema_sortkey as (k & Hk & Hne & Hall & Hsingle).
  unfold ReplayIndex. rewrite Hmeta, Happ, Hpk, Hnode, Hix. simpl negb. cbv iota.
  fold schema. unfold pk, rowKey. fold schema.
  destruct (IsSinglePK schema) eqn:Hs.
  - specialize (Hsingle eq_refl). rewrite Hsingle in Hall.
    apply Forall_cons_1 in Hall as [Hi _].
    destruct (column_lookup _ _ (wf_rows _ _ Hwf) _ Hi) as [Hc Hlen].
    unfold GetVectorCopy, newNode. simpl. rewrite Hc. rewrite take_ge by lia.
    eexists. split; [reflexivity|]. intros r. reflexivity.
  - rewrite Hk. simpl default. change (rows (newNode f)) with (ReadRows f).
    rewrite (sortKeyCopies_valid _ _ (wf_rows _ _ Hwf) (newNode f) _ eq_refl Hall).
    eexists. split; [reflexivity|]. intros r.
    apply (EncodeCompoundColumn_lookup _ _ _ (wf_rows _ _ Hwf)); assumption.
Qed.

Lemma ABlkApplyDelete_keys (blk : dataBlock) (ix : Index) deleted gen ts :
  meta blk = me -> node blk = Some (newNode f) -> index blk = Some ix ->
  ABlkApplyDelete EncodeTypedVals blk deleted gen ts
  = match applyDeleteRows pk ix gen ts with
    | Returns ix err => Returns (set_index blk (Some ix)) err
    | Panics => Panics
    end.
Proof.
  intros Hmeta Hnode Hix.
  destruct schema_sortkey as (k & Hk & Hne & Hall & Hsingle).
  unfold ABlkApplyDelete. rewrite Hmeta, Hpk, Hnode, Hix. simpl negb. cbv iota.
  fold schema. destruct (IsSinglePK schema) eqn:Hs.
  - specialize (Hsingle eq_refl). rewrite Hsingle in Hall.
    apply Forall_cons_1 in Hall as [Hi _].
    destruct (column_lookup _ _ (wf_rows _ _ Hwf) _ Hi) as [Hc Hlen].
    unfold GetVectorByAttr, newNode. simpl. rewrite Hc.
    rewrite (applyDeleteRows_ext _ pk); [reflexivity|].
    intros r. unfold pk, rowKey. fold schema. rewrite Hs, Hc. reflexivity.
  - rewrite Hk. simpl default.
    rewrite (sortKeyVectors_valid _ _ (wf_rows _ _ Hwf) (newNode f) _ eq_refl Hall).
    rewrite (applyDeleteRows_ext _ pk); [reflexivity|].
    intros r. unfold pk, rowKey. fold schema. rewrite Hs, Hk. simpl default.
    rewrite (mapM_columns _ _ (wf_rows _ _ Hwf) _ _ Hall). reflexivity.
Qed.

End ReplayProof.

Lemma elem_of_mask_iterator (mask : gset nat) (r : nat) :
  r ∈ mask_iterator mask <-> r ∈ mask.
Proof.
  unfold mask_iterator. rewrite merge_sort_Permutation. apply elem_of_elements.
Qed.

Lemma GetValue_deleted (blk : dataBlock) (txn : AsyncTxn) (row col : nat) :
  delete_undecided (mvcc blk) row = false ->
  deleted_at (mvcc blk) row (GetStartTS txn) ->
  GetValue blk txn row col = Returns None (Some ErrNotFound).
Proof.
  intros Hu Hd.
  destruct (IsDeletedLocked_spec (mvcc blk) row (GetStartTS txn) Hu) as [Herr Hdel].
  apply Hdel in Hd. unfold GetValue.
  destruct (IsDeletedLocked (mvcc blk) row (GetStartTS txn)) as [deleted err].
  simpl in Herr, Hd. subst. reflexivity.
Qed.

Lemma replayUpdates_shape (blk : dataBlock) :
  exists cs, replayUpdates blk = set_mvcc blk (set_columns (mvcc blk) cs).
Proof.
  unfold replayUpdates. destruct (LoadUpdates (file blk)) as [masks|].
  - apply replay_updates_shape.
  - exists (columns (mvcc blk)). destruct blk as [? ? ? ? ? ? [] ? ?]. reflexivity.
Qed.

Section ReplayDeletes.

Variable EncodeTypedVals : list val -> val.
Variable me : BlockEntry.
Variable f : BlockFile.
Hypothesis Hwf : wf_file (GetSchema me) f.
Hypothesis Hpk : HasPK (GetSchema me) = true.
Hypothesis Happ : IsAppendable me = true.

Let pk (r : nat) : option val := rowKey EncodeTypedVals (GetSchema me) (file_columns f) r.

Lemma replayDeletes_spec (blk : dataBlock) (m1 : mutableIndex) :
  meta blk = me -> node blk = Some (newNode f) -> file blk = f ->
  index blk = Some (MutableIndex m1) ->
  (forall k r, active m1 !! k = Some r -> pk r = Some k) ->
  exists blk' m',
    replayDeletes EncodeTypedVals blk = Returns blk' None
    /\ index blk' = Some (MutableIndex m')
    /\ LoadMaxVisible (mvcc blk') = LoadMaxVisible (mvcc blk)
    /\ ckpTs blk' = ckpTs blk
    /\ (forall r, r ∈ diskDeletes f ->
         exists n, n ∈ deletes (mvcc blk') /\ dn_commit n = Some (ckpTs blk)
                   /\ r ∈ dn_mask n)
    /\ (forall k r, active m' !! k = Some r <-> active m1 !! k = Some r /\ r ∉ diskDeletes f)
    /\ (forall k r, active m1 !! k = Some r -> r ∈ diskDeletes f ->
                    tombstones m' !! k = Some (ckpTs blk))
    /\ (forall r, delete_undecided (mvcc blk) r = false ->
                  delete_undecided (mvcc blk') r = false).
Proof.
  intros Hmeta Hnode Hfile Hix Hcons.
  unfold replayDeletes, diskDeletes. rewrite Hfile.
  pose proof (wf_deletes_read _ _ Hwf) as Hread.
  pose proof (wf_deletes_rows _ _ Hwf) as Hrows. unfold diskDeletes in Hrows.
  destruct (LoadDeletes f) as [[del|] err]; simpl in Hread, Hrows |- *; subst err.
  - unfold OnReplayDelete, OnApply. cbn [meta set_mvcc dn_mask SetDeletes dn_commit
      NewMergedNode default].
    rewrite Hmeta, Happ.
    rewrite (ABlkApplyDelete_keys EncodeTypedVals me f Hwf Hpk _ (MutableIndex m1));
      [|exact Hmeta|exact Hnode|exact Hix].
    destruct (applyDeleteRows_spec pk (ckpTs blk) (mask_iterator del) m1)
      as (m' & Hrun & Hact & Htomb & _).
    { intros r Hr. apply elem_of_mask_iterator in Hr.
      apply (rowKey_is_Some EncodeTypedVals me f Hwf Hpk). auto. }
    { exact Hcons. }
    fold pk. unfold id. rewrite Hrun.
    eexists _, m'. split; [reflexivity|]. split; [reflexivity|].
    split; [reflexivity|]. split; [reflexivity|]. split; [|split; [|split]].
    + intros r Hr. eexists. split; [apply list_elem_of_here|]. split; [reflexivity|exact Hr].
    + intros k r. rewrite Hact, elem_of_mask_iterator. reflexivity.
    + intros k r Hk Hr. apply (Htomb k r Hk). apply elem_of_mask_iterator. exact Hr.
    + intros r Hu. exact Hu.
  - exists blk, m1. split; [reflexivity|]. split; [exact Hix|].
    split; [reflexivity|]. split; [reflexivity|]. split; [|split; [|split]].
    + intros r Hr. apply not_elem_of_empty in Hr. contradiction.
    + intros k r. split; [intros H; split; [exact H | apply not_elem_of_empty] | tauto].
    + intros k r _ Hr. apply not_elem_of_empty in Hr. contradiction.
    + intros r Hu. exact Hu.
Qed.

End ReplayDeletes.

Lemma replayDeletes_no_pk (EncodeTypedVals : list val -> val) (blk : dataBlock) :
  HasPK (GetSchema (meta blk)) = false ->
  IsAppendable (meta blk) = true ->
  (LoadDeletes (file blk)).2 = None ->
  exists blk',
    replayDeletes EncodeTypedVals blk = Returns blk' None
    /\ index blk' = index blk
    /\ LoadMaxVisible (mvcc blk') = LoadMaxVisible (mvcc blk)
    /\ ckpTs blk' = ckpTs blk
    /\ (forall r, r ∈ diskDeletes (file blk) ->
         exists n, n ∈ deletes (mvcc blk') /\ dn_commit n = Some (ckpTs blk)
                   /\ r ∈ dn_mask n)
    /\ (forall r, delete_undecided (mvcc blk) r = false ->
                  delete_undecided (mvcc blk') r = false).
Proof.
  intros Hpk Happ Hread. unfold replayDeletes, diskDeletes.
  destruct (LoadDeletes (file blk)) as [[del|] err]; simpl in Hread |- *; subst err.
  - unfold OnReplayDelete, OnApply, ABlkApplyDelete. cbv beta zeta. cbn [meta set_mvcc].
    rewrite Happ. cbv beta iota zeta. cbn [meta set_mvcc]. rewrite Hpk. cbn [negb].
    eexists. split; [reflexivity|]. repeat (split; [reflexivity|]). split.
    + intros r Hr. eexists. split; [apply list_elem_of_here|].
      split; [reflexivity|exact Hr].
    + intros r Hu. exact Hu.
  - exists blk. split; [reflexivity|]. repeat (split; [reflexivity|]). split.
    + intros r Hr. apply not_elem_of_empty in Hr. contradiction.
    + intros r Hu. exact Hu.
Qed.

(** C3. For every appendable block reopened from a readable on-disk state
    with [ReadTS > 0] (and, where the schema has a primary key, at most one
    live row per key): the block opens; [maxVisible] and the checkpoint
    equal [ReadTS]; [GetValue] on a row deleted on disk, at any start
    timestamp at or after the checkpoint, returns [ErrNotFound]; and, with a
    primary key, the active keys of the PK index are exactly the primary
    keys of the rows that are not deleted on disk, each mapped to its row,
    while a key all of whose rows are deleted is not active and carries a
    tombstone at the checkpoint. Without a primary key there is no index. *)
Theorem replay_rebuilds_index (EncodeTypedVals : list val -> val)
    (me : BlockEntry) (f : BlockFile) :
  IsAppendable me = true ->
  0 < ReadTS f ->
  wf_file (GetSchema me) f ->
  (HasPK (GetSchema me) = true -> pk_unique EncodeTypedVals (GetSchema me) f) ->
  let pk := rowKey EncodeTypedVals (GetSchema me) (file_columns f) in
  exists blk,
    newBlock EncodeTypedVals me f = Some blk
    /\ LoadMaxVisible (mvcc blk) = ReadTS f
    /\ ckpTs blk = ReadTS f
    /\ (forall r txn col, r ∈ diskDeletes f -> ckpTs blk <= GetStartTS txn ->
                          GetValue blk txn r col = Returns None (Some ErrNotFound))
    /\ (HasPK (GetSchema me) = false -> index blk = None)
    /\ (HasPK (GetSchema me) = true ->
        exists ix,
          index blk = Some (MutableIndex ix)
          /\ (forall k r, active ix !! k = Some r <-> pk r = Some k /\ r ∉ diskDeletes f)
          /\ (forall k r, pk r = Some k ->
                          (forall r', pk r' = Some k -> r' ∈ diskDeletes f) ->
                          active ix !! k = None /\ tombstones ix !! k = Some (ReadTS f))).
Proof.
  intros Happ Hts Hwf Huniq pk.
  unfold newBlock.
  destruct (openColFiles_Some f (ColDefs (GetSchema me))) as [cf ->].
  { rewrite (wf_cols _ _ Hwf). lia. }
  rewrite Happ. destruct (HasPK (GetSchema me)) eqn:Hpk; cbv beta iota zeta;
    (destruct (Z.ltb_spec 0 (ReadTS f)) as [_|]; [|lia]).
  - (* with a primary key *)
    specialize (Huniq eq_refl).
    set (m1 := fun keys => {| active := upsert_from ∅ keys 0; tombstones := ∅ |}).
    assert (Hm1 : forall keys, (forall r, keys !! r = pk r) ->
              (forall k r, active (m1 keys) !! k = Some r -> pk r = Some k)
              /\ (forall k r, pk r = Some k ->
                    exists r', active (m1 keys) !! k = Some r' /\ (r <= r')%nat)).
    { intros keys Hkeys. split.
      - intros k r H. apply upsert_from_origin in H as [(i & Hi & ->) | H].
        + rewrite <- Hkeys. exact Hi.
        + rewrite lookup_empty in H. discriminate.
      - intros k r H. rewrite <- Hkeys in H.
        destruct (upsert_from_latest keys ∅ 0 r k H) as (r' & Hr' & Hle). eauto. }
    match goal with |- context [ReplayIndex _ ?b] => set (blk0 := b) end.
    destruct (ReplayIndex_keys EncodeTypedVals me f Hwf Hpk blk0
                {| active := ∅; tombstones := ∅ |} Happ eq_refl eq_refl eq_refl)
      as (keys & HRI & Hkeys).
    rewrite HRI. destruct (Hm1 keys Hkeys) as [Hcons Hlatest]. clear Hm1.
    fold (m1 keys).
    match goal with |- context [ReplayDelta _ ?b] => set (blk1 := b) end.
    unfold ReplayDelta.
    change (IsAppendable (meta blk1)) with (IsAppendable me). rewrite Happ. cbn [negb].
    change (node blk1) with (Some (newNode f)). cbv beta iota zeta.
    match goal with |- context [replayUpdates ?b] => set (blk2 := b) end.
    destruct (replayUpdates_shape blk2) as (cs & ->).
    match goal with |- context [replayDeletes _ ?b] => set (blk3 := b) end.
    destruct (replayDeletes_spec EncodeTypedVals me f Hwf Hpk Happ blk3 (m1 keys)
                eq_refl eq_refl eq_refl eq_refl Hcons)
      as (blk & m' & -> & Hix & Hvis & Hckp & Hdel & Hact & Htomb & Hund).
    change (LoadMaxVisible (mvcc blk3)) with (ReadTS f) in Hvis.
    change (ckpTs blk3) with (ReadTS f) in Hckp, Hdel, Htomb.
    assert (Hactive : forall k r,
              active m' !! k = Some r <-> pk r = Some k /\ r ∉ diskDeletes f).
    { intros k r. rewrite Hact. split.
      - intros [H Hr]. split; [apply Hcons, H | exact Hr].
      - intros [H Hr]. split; [|exact Hr].
        destruct (Hlatest k r H) as (r' & Hr' & Hle).
        destruct (decide (r = r')) as [->|Hne]; [exact Hr'|].
        exfalso. apply Hr. apply (Huniq r r' k); [lia | exact H | apply Hcons, Hr']. }
    exists blk. split; [reflexivity|]. split; [exact Hvis|]. split; [exact Hckp|].
    split; [|split; [discriminate|]].
    + intros r txn col Hr Hts'. apply GetValue_deleted; [apply Hund; reflexivity|].
      destruct (Hdel r Hr) as (n & Hin & Hc & Hm).
      exists n, (ReadTS f). rewrite Hckp in Hts'. auto.
    + intros _. exists m'. split; [exact Hix|]. split; [exact Hactive|].
      intros k r Hk Hall. split.
      * destruct (active m' !! k) as [r'|] eqn:E; [|reflexivity].
        apply Hactive in E as [E Hr']. exfalso. apply Hr', Hall, E.
      * destruct (Hlatest k r Hk) as (r' & Hr' & _).
        apply (Htomb k r' Hr'). apply Hall, Hcons, Hr'.
  - (* without one *)
    match goal with |- context [ReplayIndex _ ?b] => set (blk0 := b) end.
    unfold ReplayIndex. change (meta blk0) with me. rewrite Happ, Hpk. cbn [negb].
    unfold ReplayDelta. change (meta blk0) with me. rewrite Happ. cbn [negb].
    change (node blk0) with (Some (newNode f)). cbv beta iota zeta.
    match goal with |- context [replayUpdates ?b] => set (blk2 := b) end.
    destruct (replayUpdates_shape blk2) as (cs & ->).
    match goal with |- context [replayDeletes _ ?b] => set (blk3 := b) end.
    destruct (replayDeletes_no_pk EncodeTypedVals blk3 Hpk Happ (wf_deletes_read _ _ Hwf))
      as (blk & -> & Hix & Hvis & Hckp & Hdel & Hund).
    change (LoadMaxVisible (mvcc blk3)) with (ReadTS f) in Hvis.
    change (ckpTs blk3) with (ReadTS f) in Hckp, Hdel.
    change (file blk3) with f in Hdel.
    exists blk. split; [reflexivity|]. split; [exact Hvis|]. split; [exact Hckp|].
    split; [|split; [intros _; exact Hix | discriminate]].
    intros r txn col Hr Hts'. apply GetValue_deleted; [apply Hund; reflexivity|].
    destruct (Hdel r Hr) as (n & Hin & Hc & Hm).
    exists n, (ReadTS f). rewrite Hckp in Hts'. auto.
Qed.

Lemma replay_rebuilds_index_witness :
  let pk := rowKey encode_sum (schema_of 2 4) (file_columns file_s6) in
  exists blk,
    newBlock encode_sum (meta_of true 2 4) file_s6 = Some blk
    /\ LoadMaxVisible (mvcc blk) = 100
    /\ ckpTs blk = 100
    /\ (forall r txn col, r ∈ diskDeletes file_s6 -> ckpTs blk <= GetStartTS txn ->
                          GetValue blk txn r col = Returns None (Some ErrNotFound))
    /\ (HasPK (schema_of 2 4) = false -> index blk = None)
    /\ (HasPK (schema_of 2 4) = true ->
        exists ix,
          index blk = Some (MutableIndex ix)
          /\ (forall k r, active ix !! k = Some r
                          <-> pk r = Some k /\ r ∉ diskDeletes file_s6)
          /\ (forall k r, pk r = Some k ->
                          (forall r', pk r' = Some k -> r' ∈ diskDeletes file_s6) ->
                          active ix !! k = None /\ tombstones ix !! k = Some 100)).
Proof.
  apply (replay_rebuilds_index encode_sum (meta_of true 2 4) file_s6).
  - reflexivity.
  - simpl. lia.
  - constructor.
    + reflexivity.
    + repeat constructor.
    + intros k [= <-]. split; [discriminate|]. repeat constructor.
    + reflexivity.
    + intros r Hr. change (diskDeletes file_s6) with ({[ 0%nat ]} : gset nat) in Hr.
      apply elem_of_singleton in Hr. subst r. simpl. lia.
  - intros _ i j k Hij Hi Hj. change (diskDeletes file_s6) with ({[ 0%nat ]} : gset nat).
    apply elem_of_singleton.
    destruct i as [|[|[|i]]], j as [|[|[|j]]]; try lia; try reflexivity;
      vm_compute in Hi, Hj; congruence.
Defined.

(** * Scores, ticks and the choice of a compaction *)

Lemma estimateRawScore_cases (blk : dataBlock) :
  estimateRawScore blk =
  if isFull blk then Some 100
  else if nothingToDo blk then Some 0
  else match F64.to_int (rawFactor blk * 100)%float with
       | Some t => Some (if t =? 0 then 1 else t)
       | None => None
       end.
Proof.
  unfold estimateRawScore, isFull, nothingToDo, GetMaxCheckpointTS.
  destruct (IsAppendable (meta blk)) eqn:Happ;
    destruct (Rows blk =? BlockMaxRows (GetSchema (meta blk))) eqn:Hfull;
    destruct (GetChangeNodeCnt (mvcc blk) =? 0) eqn:Hchg;
    destruct (LoadMaxVisible (mvcc blk) <=? ckpTs blk) eqn:Hvis;
    simpl; try reflexivity.
  all: rewrite scoreColumn_fold, length_seq, Z.add_0_l.
  all: unfold rawFactor, mean, fsum, colUpdateRatio, deleteRatio.
  all: rewrite length_fmap, length_seq.
  all: destruct (F64.to_int _) as [t|]; simpl; [|reflexivity].
  all: rewrite !Z.add_0_l; destruct (Z.eqb_spec t 0) as [->|]; reflexivity.
Qed.

(** X1. Where the raw score of a block is defined it is never negative, and
    it is 0 exactly for a block that is not a full appendable block and has
    nothing to do (no change node, and immutable or with [maxVisible] not
    beyond the checkpoint): a block with something to compact always scores
    at least 1. *)
Theorem estimateRawScore_zero_iff_idle (blk : dataBlock) (s : Z) :
  estimateRawScore blk = Some s ->
  0 <= s /\ (s = 0 <-> isFull blk = false /\ nothingToDo blk = true).
Proof.
  rewrite estimateRawScore_cases.
  destruct (isFull blk); [intros [= <-]; split; [lia | split; [lia | intros [? _]; discriminate]]|].
  destruct (nothingToDo blk); [intros [= <-]; split; [lia | tauto]|].
  destruct (F64.to_int _) as [t|] eqn:Ht; [|discriminate].
  apply (to_int_nonneg _ _ (rawFactor_nonneg blk)) in Ht.
  intros [= <-]. destruct (Z.eqb_spec t 0); split; try lia;
    (split; [lia | intros [_ ?]; discriminate]).
Qed.

Lemma estimateRawScore_zero_iff_idle_witness :
  (0 <= 10 /\ (10 = 0 <-> isFull blk_half_percent = false /\ nothingToDo blk_half_percent = true))
  /\ (0 <= 0 /\ (0 = 0 <-> isFull blk_idle = false /\ nothingToDo blk_idle = true)).
Proof.
  split.
  - apply (estimateRawScore_zero_iff_idle blk_half_percent 10). vm_compute. reflexivity.
  - apply (estimateRawScore_zero_iff_idle blk_idle 0). vm_compute. reflexivity.
Defined.

Lemma estimateRawScore_set_nice (blk : dataBlock) (n : Z) :
  estimateRawScore (set_nice blk n) = estimateRawScore blk.
Proof. reflexivity. Qed.

Lemma calibrate_idle (n : nat) (blk : dataBlock) :
  estimateRawScore blk = Some 0 -> calibrate n blk = Some blk.
Proof.
  intros H. induction n as [|n IH]; simpl; [reflexivity|].
  unfold RunCalibration. rewrite H. simpl. exact IH.
Qed.

Lemma calibrate_ticks (n : nat) : forall (blk : dataBlock) (s : Z),
  estimateRawScore blk = Some s -> s <> 0 ->
  0 <= nice blk -> nice blk + Z.of_nat n < 2 ^ 32 ->
  exists blk',
    calibrate n blk = Some blk'
    /\ nice blk' = nice blk + Z.of_nat n
    /\ blk' = set_nice blk' (nice blk')
    /\ set_nice blk' 0 = set_nice blk 0.
Proof.
  induction n as [|n IH]; intros blk s Hs Hne Hlo Hhi.
  - exists blk. split; [reflexivity|]. split; [simpl; lia|].
    split; [destruct blk; reflexivity | reflexivity].
  - cbn [calibrate]. unfold RunCalibration. rewrite Hs.
    destruct (Z.eqb_spec s 0) as [|_]; [contradiction|].
    assert (Hw : uint32 (nice blk + 1) = nice blk + 1).
    { unfold uint32. apply Z.mod_small. lia. }
    rewrite Hw.
    destruct (IH (set_nice blk (nice blk + 1)) s) as (blk' & Hrun & Hnice & Heta & Hrest).
    + rewrite estimateRawScore_set_nice. exact Hs.
    + exact Hne.
    + simpl. lia.
    + simpl. lia.
    + exists blk'. split; [exact Hrun|]. split; [rewrite Hnice; simpl; lia|].
      split; [exact Heta | exact Hrest].
Qed.

(** X2. Calibration ages a block and touches nothing else. On a block whose
    raw score [s] is not zero, [n] ticks in a row raise [nice] by exactly
    [n] (as long as it stays below 2^32), leave the raw score at [s], and, if
    the block is not a full appendable block, raise what [EstimateScore]
    returns to [s + nice + n]. On a block whose raw score is zero any number
    of ticks changes nothing. *)
Theorem calibration_ages_by_ticks (n : nat) (blk : dataBlock) (s : Z) :
  estimateRawScore blk = Some s ->
  0 <= nice blk -> nice blk + Z.of_nat n < 2 ^ 32 ->
  (s = 0 -> calibrate n blk = Some blk)
  /\ (s <> 0 ->
      exists blk',
        calibrate n blk = Some blk'
        /\ nice blk' = nice blk + Z.of_nat n
        /\ set_nice blk' 0 = set_nice blk 0
        /\ estimateRawScore blk' = Some s
        /\ (isFull blk = false ->
            EstimateScore blk' = Some (s + nice blk + Z.of_nat n, blk'))).
Proof.
  intros Hs Hlo Hhi. split.
  - intros ->. apply calibrate_idle, Hs.
  - intros Hne.
    destruct (calibrate_ticks n blk s Hs Hne Hlo Hhi) as (blk' & Hrun & Hnice & Heta & Hrest).
    assert (Hraw : estimateRawScore blk' = Some s).
    { rewrite <- (estimateRawScore_set_nice blk' 0), Hrest, estimateRawScore_set_nice.
      exact Hs. }
    exists blk'. split; [exact Hrun|]. split; [exact Hnice|]. split; [exact Hrest|].
    split; [exact Hraw|].
    intros Hfull. unfold EstimateScore.
    assert (Hf : IsAppendable (meta blk')
                 && (Rows blk' =? BlockMaxRows (GetSchema (meta blk'))) = false).
    { change (isFull blk' = false).
      change (isFull (set_nice blk' 0) = false). rewrite Hrest. exact Hfull. }
    rewrite Hf, Hraw. destruct (Z.eqb_spec s 0) as [|_]; [contradiction|].
    rewrite Hnice, Z.add_assoc. reflexivity.
Qed.

Lemma calibration_ages_by_ticks_witness :
  exists blk',
    calibrate 5 blk_half_percent = Some blk'
    /\ nice blk' = 3 + 5
    /\ set_nice blk' 0 = set_nice blk_half_percent 0
    /\ estimateRawScore blk' = Some 10
    /\ (isFull blk_half_percent = false -> EstimateScore blk' = Some (10 + 3 + 5, blk')).
Proof.
  apply (proj2 (calibration_ages_by_ticks 5 blk_half_percent 10
                  ltac:(vm_compute; reflexivity) ltac:(simpl; lia) ltac:(simpl; lia))).
  discriminate.
Defined.

(** X3. The age adder wraps: on a block whose raw score [s] is not zero and
    whose [nice] is at 2^32 - 1, one more tick takes [nice] back to 0, so
    that (unless the block is a full appendable block) [EstimateScore] falls
    back from [s + 2^32 - 1] to [s]. *)
Theorem calibration_wraps (blk : dataBlock) (s : Z) :
  estimateRawScore blk = Some s -> s <> 0 -> isFull blk = false ->
  nice blk = 2 ^ 32 - 1 ->
  EstimateScore blk = Some (s + 2 ^ 32 - 1, blk)
  /\ RunCalibration blk = Some (set_nice blk 0)
  /\ EstimateScore (set_nice blk 0) = Some (s, set_nice blk 0).
Proof.
  intros Hs Hne Hfull Hnice. unfold isFull in Hfull. split; [|split].
  - unfold EstimateScore. rewrite Hfull, Hs.
    destruct (Z.eqb_spec s 0) as [|_]; [contradiction|]. rewrite Hnice.
    rewrite Z.add_sub_assoc. reflexivity.
  - unfold RunCalibration. rewrite Hs.
    destruct (Z.eqb_spec s 0) as [|_]; [contradiction|]. rewrite Hnice. reflexivity.
  - unfold EstimateScore. cbn [meta set_nice]. change (Rows (set_nice blk 0)) with (Rows blk).
    rewrite Hfull, estimateRawScore_set_nice, Hs.
    destruct (Z.eqb_spec s 0) as [|_]; [contradiction|]. cbn [nice set_nice].
    rewrite Z.add_0_r. reflexivity.
Qed.

Lemma calibration_wraps_witness :
  EstimateScore blk_old = Some (10 + 2 ^ 32 - 1, blk_old)
  /\ RunCalibration blk_old = Some (set_nice blk_old 0)
  /\ EstimateScore (set_nice blk_old 0) = Some (10, set_nice blk_old 0).
Proof.
  apply (calibration_wraps blk_old 10); [vm_compute; reflexivity | discriminate | | ];
    reflexivity.
Defined.

(** X4. Scoring twice in a row gives the same answer: whatever
    [EstimateScore] returns, and whatever block it leaves, scoring that
    block again returns the same score and leaves it as it is. *)
Theorem EstimateScore_stable (blk blk' : dataBlock) (s : Z) :
  EstimateScore blk = Some (s, blk') -> EstimateScore blk' = Some (s, blk').
Proof.
  unfold EstimateScore.
  destruct (IsAppendable (meta blk) && (Rows blk =? BlockMaxRows (GetSchema (meta blk))))
    eqn:Hfull.
  - destruct (IsDroppedCommitted (meta blk) || IsDroppedUncommitted (meta blk)) eqn:Hd;
      intros [= <- <-]; rewrite Hfull, Hd; reflexivity.
  - destruct (estimateRawScore blk) as [r|] eqn:Hr; [|discriminate].
    destruct (Z.eqb_spec r 0) as [->|Hne]; intros [= <- <-].
    + cbn [meta resetNice set_nice]. change (Rows (resetNice blk)) with (Rows blk).
      rewrite Hfull. unfold resetNice at 1. rewrite estimateRawScore_set_nice, Hr.
      reflexivity.
    + rewrite Hfull, Hr. destruct (Z.eqb_spec r 0) as [|_]; [contradiction|]. reflexivity.
Qed.

Lemma EstimateScore_stable_witness :
  EstimateScore (resetNice blk_idle) = Some (0, resetNice blk_idle).
Proof.
  apply (EstimateScore_stable blk_idle). vm_compute. reflexivity.
Defined.

(** X5. The block's own [IsAppendable] and the choice of a compaction agree:
    whenever a factory is built (the block is neither dropped-committed nor
    in a transaction), a block that still takes appends gets
    [CompactABlockTaskFactory] and is not full, and a block that takes no
    more appends gets [CompactBlockTaskFactory]; such a block, if its
    metadata is appendable, is full, and scores 100 unless it is being
    dropped. *)
Theorem IsAppendable_picks_the_compaction (blk : dataBlock) (a : bool) :
  blockIsAppendable blk = Some a ->
  IsDroppedCommitted (meta blk) = false -> HasActiveTxn (meta blk) = false ->
  (BuildCompactionTaskFactory blk).1.1.1
  = Some (if a then CompactABlockTaskFactory (meta blk)
          else CompactBlockTaskFactory (meta blk))
  /\ (a = true -> isFull blk = false)
  /\ (a = false -> IsAppendable (meta blk) = true ->
      isFull blk = true
      /\ EstimateScore blk
         = Some (if IsDroppedUncommitted (meta blk) then 0 else 100, blk)).
Proof.
  unfold blockIsAppendable, BuildCompactionTaskFactory, isFull, EstimateScore, Rows.
  intros Ha Hd Ht. rewrite Hd, Ht. simpl.
  destruct (IsAppendable (meta blk)) eqn:Happ; simpl in *.
  - destruct (node blk) as [n|]; [|discriminate].
    destruct (Z.of_nat (rows n) =? BlockMaxRows (GetSchema (meta blk))) eqn:Hfull;
      injection Ha as <-; simpl.
    + split; [reflexivity|]. split; [discriminate|]. intros _ _. split; [reflexivity|].
      destruct (IsDroppedUncommitted (meta blk)); reflexivity.
    + split; [reflexivity|]. split; [reflexivity|]. discriminate.
  - injection Ha as <-. split; [reflexivity|]. split; discriminate.
Qed.

Lemma IsAppendable_picks_the_compaction_witness :
  (BuildCompactionTaskFactory blk_full).1.1.1 = Some (CompactBlockTaskFactory (meta blk_full))
  /\ (BuildCompactionTaskFactory blk_half_percent).1.1.1
     = Some (CompactABlockTaskFactory (meta blk_half_percent)).
Proof.
  split.
  - exact (proj1 (IsAppendable_picks_the_compaction blk_full false
                    ltac:(vm_compute; reflexivity) eq_refl eq_refl)).
  - exact (proj1 (IsAppendable_picks_the_compaction blk_half_percent true
                    ltac:(vm_compute; reflexivity) eq_refl eq_refl)).
Defined.

(** * Column files: opened by [newBlock], released by [Destroy] *)

Lemma elem_of_keys {A} (m : gmap nat A) (i : nat) :
  i ∈ (map_to_list m).*1 <-> is_Some (m !! i).
Proof.
  rewrite list_elem_of_fmap. split.
  - intros ([k v] & -> & Hkv). apply elem_of_map_to_list in Hkv. eauto.
  - intros [v Hv]. exists (i, v). split; [reflexivity|]. apply elem_of_map_to_list, Hv.
Qed.

Lemma NoDup_unrefs (m : gmap nat (list val)) : NoDup (Unref <$> (map_to_list m).*1).
Proof.
  apply NoDup_fmap_2; [intros i j [= ->]; reflexivity | apply NoDup_fst_map_to_list].
Qed.

Lemma Destroy_trace (io : DestroyIO) (blk : dataBlock) :
  closed blk = false ->
  exists pre post,
    (Destroy io blk).1.2
    = pre ++ (if node_close_fails io blk then []
              else Unref <$> (map_to_list (colFiles blk)).*1) ++ post
    /\ (pre = [] \/ pre = [NodeClose])
    /\ (post = [] \/ post = [IndexDestroy] \/ post = [FileClose]
        \/ post = [IndexDestroy; FileClose] \/ post = [FileClose; FileDestroy]
        \/ post = [IndexDestroy; FileClose; FileDestroy])
    /\ colFiles (Destroy io blk).1.1
       = (if node_close_fails io blk then colFiles blk
          else ∅).
Proof.
  intros Hopen. unfold Destroy, node_close_fails. rewrite Hopen.
  cbn [node index colFiles set_closed set_colFiles].
  destruct (node blk) as [n|], (node_Close io) as [e1|], (index blk) as [ix|],
    (index_Destroy io) as [e2|], (file_Close io) as [e3|], (file_Destroy io) as [e4|];
    cbn -[map_to_list];
    repeat match goal with
    | |- context [bool_decide ?P] =>
        first [rewrite (bool_decide_eq_true_2 P) by (split; eauto)
              | rewrite (bool_decide_eq_false_2 P)
                  by (intros [[? ?] [? ?]]; discriminate)]
    end;
    rewrite <- ?app_assoc;
    first
      [ exists [], []; rewrite ?app_nil_r; split; [reflexivity|]; tauto
      | exists [NodeClose], []; rewrite ?app_nil_r; split; [reflexivity|]; tauto
      | eexists [], _; split; [reflexivity|]; tauto
      | eexists [NodeClose], _; split; [reflexivity|]; tauto ].
Qed.

#[local] Instance Unref_inj : Inj (=) (=) Unref.
Proof. intros i j [= ->]. reflexivity. Qed.

Lemma NoDup_around_unrefs (pre post : list Effect) (keys : list nat) :
  NoDup keys -> NoDup pre -> NoDup post ->
  (forall i, Unref i ∉ pre) -> (forall i, Unref i ∉ post) ->
  (forall x, x ∈ pre -> x ∉ post) ->
  NoDup (pre ++ (Unref <$> keys) ++ post).
Proof.
  intros Hk Hpre Hpost Hnp Hnq Hd.
  apply NoDup_app. split; [exact Hpre|]. split.
  - intros x Hx [Hin|Hin]%elem_of_app; [|exact (Hd x Hx Hin)].
    apply list_elem_of_fmap in Hin as (i & -> & _). exact (Hnp i Hx).
  - apply NoDup_app. split; [|split; [|exact Hpost]].
    + apply NoDup_fmap_2; [apply Unref_inj | exact Hk].
    + intros x (i & -> & _)%list_elem_of_fmap. apply Hnq.
Qed.

Lemma Destroy_closed (io : DestroyIO) (blk : dataBlock) :
  closed (Destroy io blk).1.1 = true.
Proof.
  unfold Destroy. destruct (closed blk) eqn:Hc; [exact Hc|].
  cbn [node index colFiles set_closed set_colFiles].
  destruct (node blk), (node_Close io), (index blk), (index_Destroy io),
    (file_Close io); reflexivity.
Qed.

Lemma Destroy_unref_iff (io : DestroyIO) (blk : dataBlock) (i : nat) :
  closed blk = false ->
  Unref i ∈ (Destroy io blk).1.2
  <-> is_Some (colFiles blk !! i) /\ node_close_fails io blk = false.
Proof.
  intros Hopen.
  destruct (Destroy_trace io blk Hopen) as (pre & post & -> & Hpre & Hpost & _).
  rewrite !elem_of_app.
  assert (Hnp : Unref i ∉ pre).
  { destruct Hpre as [-> | ->]; rewrite ?elem_of_cons, ?elem_of_nil; intuition discriminate. }
  assert (Hnq : Unref i ∉ post).
  { destruct Hpost as [-> | [-> | [-> | [-> | [-> | ->]]]]];
      rewrite ?elem_of_cons, ?elem_of_nil; intuition discriminate. }
  destruct (node_close_fails io blk).
  - rewrite elem_of_nil. split; [tauto | intros [_ ?]; discriminate].
  - rewrite (list_elem_of_fmap_inj Unref), elem_of_keys. tauto.
Qed.

(** X6. The first [Destroy] of a block makes no call twice. If closing the
    node does not fail, it releases every column file the block holds, each
    exactly once, and the block is left holding none; if closing the node
    fails, it releases none and the block keeps them all. *)
Theorem Destroy_releases_each_file_once (io : DestroyIO) (blk : dataBlock) :
  closed blk = false ->
  NoDup (Destroy io blk).1.2
  /\ (forall i, Unref i ∈ (Destroy io blk).1.2
                <-> is_Some (colFiles blk !! i) /\ node_close_fails io blk = false)
  /\ colFiles (Destroy io blk).1.1
     = (if node_close_fails io blk then colFiles blk else ∅).
Proof.
  intros Hopen. split; [|split].
  - destruct (Destroy_trace io blk Hopen) as (pre & post & -> & Hpre & Hpost & _).
    assert (Hmid : (if node_close_fails io blk then []
                    else Unref <$> (map_to_list (colFiles blk)).*1)
                   = Unref <$> (if node_close_fails io blk then []
                                else (map_to_list (colFiles blk)).*1)).
    { destruct (node_close_fails io blk); reflexivity. }
    rewrite Hmid. apply NoDup_around_unrefs.
    + destruct (node_close_fails io blk); [constructor | apply NoDup_fst_map_to_list].
    + destruct Hpre as [-> | ->]; compute_done.
    + destruct Hpost as [-> | [-> | [-> | [-> | [-> | ->]]]]]; compute_done.
    + intros i. destruct Hpre as [-> | ->];
        rewrite ?elem_of_cons, ?elem_of_nil; intuition discriminate.
    + intros i. destruct Hpost as [-> | [-> | [-> | [-> | [-> | ->]]]]];
        rewrite ?elem_of_cons, ?elem_of_nil; intuition discriminate.
    + intros x Hx.
      destruct Hpre as [-> | ->]; [apply elem_of_nil in Hx; contradiction|].
      apply list_elem_of_singleton in Hx as ->.
      destruct Hpost as [-> | [-> | [-> | [-> | [-> | ->]]]]];
        rewrite ?elem_of_cons, ?elem_of_nil; intuition discriminate.
  - intros i. apply Destroy_unref_iff, Hopen.
  - destruct (Destroy_trace io blk Hopen) as (_ & _ & _ & _ & _ & H). exact H.
Qed.

Lemma Destroy_releases_each_file_once_witness :
  closed blk_open = false
  /\ NoDup (Destroy io_all_ok blk_open).1.2
  /\ (forall i, Unref i ∈ (Destroy io_all_ok blk_open).1.2
                <-> is_Some (colFiles blk_open !! i)
                    /\ node_close_fails io_all_ok blk_open = false)
  /\ colFiles (Destroy io_all_ok blk_open).1.1
     = (if node_close_fails io_all_ok blk_open then colFiles blk_open else ∅).
Proof.
  split; [reflexivity | exact (Destroy_releases_each_file_once io_all_ok blk_open eq_refl)].
Defined.

Lemma same_store_refl (b : dataBlock) : same_store b b.
Proof. unfold same_store. tauto. Qed.

Lemma same_store_trans (a b c : dataBlock) :
  same_store a b -> same_store b c -> same_store a c.
Proof. unfold same_store. intuition congruence. Qed.

Lemma same_store_set_index (b : dataBlock) (ix : option Index) :
  same_store b (set_index b ix).
Proof. unfold same_store. simpl. tauto. Qed.

Lemma same_store_set_mvcc (b : dataBlock) (h : MVCCHandle) :
  LoadMaxVisible h = LoadMaxVisible (mvcc b) -> same_store b (set_mvcc b h).
Proof. unfold same_store. simpl. tauto. Qed.

Lemma openColFiles_lookup (f : BlockFile) (n : nat) (m : gmap nat (list val)) :
  openColFiles f n = Some m ->
  forall i, m !! i = if decide (i < n)%nat then file_columns f !! i else None.
Proof.
  revert m. induction n as [|n IH]; intros m; simpl.
  - intros [= <-] i. rewrite lookup_empty. destruct (decide (i < 0)%nat); [lia|reflexivity].
  - destruct (openColFiles f n) as [m'|]; [|discriminate].
    destruct (file_columns f !! n) as [c|] eqn:Hc; [|discriminate].
    intros [= <-] i. destruct (decide (n = i)) as [<-|Hne].
    + rewrite lookup_insert_eq. destruct (decide (n < S n)%nat); [congruence|lia].
    + rewrite lookup_insert_ne by exact Hne. rewrite (IH m' eq_refl i).
      destruct (decide (i < n)%nat), (decide (i < S n)%nat); try reflexivity; lia.
Qed.

Lemma openColFiles_columns (f : BlockFile) (n : nat) (m : gmap nat (list val)) :
  openColFiles f n = Some m -> (n <= length (file_columns f))%nat.
Proof.
  revert m. induction n as [|n IH]; intros m; simpl; [lia|].
  destruct (openColFiles f n) as [m'|]; [|discriminate].
  destruct (file_columns f !! n) as [c|] eqn:Hc; [|discriminate].
  intros _. apply lookup_lt_Some in Hc. lia.
Qed.

Section Stores.
Variable enc : list val -> val.

Lemma ABlkApplyDelete_store (b b' : dataBlock) deleted gen ts err :
  ABlkApplyDelete enc b deleted gen ts = Returns b' err ->
  same_store b b' /\ mvcc b' = mvcc b.
Proof.
  unfold ABlkApplyDelete.
  destruct (negb (HasPK (GetSchema (meta b)))).
  { intros [= <- <-]. split; [apply same_store_refl | reflexivity]. }
  destruct (node b) as [n|]; [|discriminate].
  destruct (index b) as [ix|]; [|discriminate].
  destruct (IsSinglePK (GetSchema (meta b))).
  - destruct (GetVectorByAttr n _) as [[vec|] [e|]];
      try (intros [= <- <-]; split; [apply same_store_refl | reflexivity]).
    destruct (applyDeleteRows _ ix gen ts); [|discriminate].
    intros [= <- <-]. split; [apply same_store_set_index | reflexivity].
  - destruct (sortKeyVectors n _) as [vecs [e|]];
      try (intros [= <- <-]; split; [apply same_store_refl | reflexivity]).
    destruct (applyDeleteRows _ ix gen ts); [|discriminate].
    intros [= <- <-]. split; [apply same_store_set_index | reflexivity].
Qed.

Lemma ReplayIndex_store (b b' : dataBlock) err :
  ReplayIndex enc b = Returns b' err -> same_store b b' /\ mvcc b' = mvcc b.
Proof.
  unfold ReplayIndex.
  destruct (IsAppendable (meta b)).
  - destruct (negb (HasPK (GetSchema (meta b)))).
    { intros [= <- <-]. split; [apply same_store_refl | reflexivity]. }
    destruct (node b) as [n|]; [|discriminate].
    destruct (index b) as [ix|]; [|discriminate].
    match goal with |- context [let '(_, _) := ?p in _] => destruct p as [keys e] end.
    destruct (bool_decide (is_Some e)).
    { intros [= <- <-]. split; [apply same_store_refl | reflexivity]. }
    destruct (BatchUpsert ix keys 0 0) as [ix' e'].
    intros [= <- <-]. split; [apply same_store_set_index | reflexivity].
  - destruct (HasSortKey (GetSchema (meta b))).
    + destruct (index b) as [ix|]; [|discriminate].
      destruct (ReadFrom ix b) as [ix' e'].
      intros [= <- <-]. split; [apply same_store_set_index | reflexivity].
    + intros [= <- <-]. split; [apply same_store_refl | reflexivity].
Qed.

Lemma replayUpdates_store (b : dataBlock) :
  same_store b (replayUpdates b) /\ index (replayUpdates b) = index b
  /\ deletes (mvcc (replayUpdates b)) = deletes (mvcc b)
  /\ appends (mvcc (replayUpdates b)) = appends (mvcc b).
Proof.
  unfold replayUpdates. destruct (LoadUpdates (file b)) as [masks|].
  - destruct (replay_updates_shape (map_to_list masks) b) as (cs & ->).
    split; [apply same_store_set_mvcc; reflexivity | simpl; tauto].
  - split; [apply same_store_refl | tauto].
Qed.

Lemma replayDeletes_store (b b' : dataBlock) err :
  replayDeletes enc b = Returns b' err -> same_store b b'.
Proof.
  unfold replayDeletes.
  destruct (LoadDeletes (file b)) as [[ds|] [e|]];
    try (intros [= <- <-]; apply same_store_refl).
  unfold OnReplayDelete, OnApply. cbn [meta set_mvcc].
  destruct (IsAppendable (meta b)).
  - intros H. apply ABlkApplyDelete_store in H as [H _].
    eapply same_store_trans; [|exact H]. apply same_store_set_mvcc. reflexivity.
  - unfold BlkApplyDelete. intros [= <- <-]. apply same_store_set_mvcc. reflexivity.
Qed.

Lemma ReplayDelta_store (b b' : dataBlock) err :
  ReplayDelta enc b = Returns b' err -> same_store b b'.
Proof.
  unfold ReplayDelta. destruct (negb (IsAppendable (meta b))).
  { intros [= <- <-]. apply same_store_refl. }
  destruct (node b) as [n|]; [|discriminate].
  intros H. apply replayDeletes_store in H.
  eapply same_store_trans; [|exact H].
  eapply same_store_trans; [|apply replayUpdates_store].
  apply same_store_set_mvcc. reflexivity.
Qed.

Lemma newBlock_store (m : BlockEntry) (f : BlockFile) (blk : dataBlock) :
  newBlock enc m f = Some blk ->
  exists files ix h,
    openColFiles f (ColDefs (GetSchema m)) = Some files
    /\ same_store
         {| closed := false; meta := m;
            node := if IsAppendable m then Some (newNode f) else None;
            file := f; colFiles := files; index := ix; mvcc := h;
            nice := 0; ckpTs := ReadTS f |} blk
    /\ LoadMaxVisible h = ReadTS f
    /\ (ReadTS f <= 0 ->
        index blk = (if IsAppendable m
                     then if HasPK (GetSchema m) then Some NewMutableIndex else None
                     else Some NewImmutableIndex)
        /\ mvcc blk = SetMaxVisible (NewMVCCHandle m) (ReadTS f)).
Proof.
  unfold newBlock.
  destruct (openColFiles f (ColDefs (GetSchema m))) as [files|]; [|discriminate].
  destruct (IsAppendable m) eqn:Happ.
  - destruct (Z.ltb_spec 0 (ReadTS f)) as [Hts|Hts].
    + destruct (ReplayIndex enc _) as [b1 [e1|]|] eqn:H1; try discriminate.
      destruct (ReplayDelta enc b1) as [b2 [e2|]|] eqn:H2; try discriminate.
      intros [= <-]. apply ReplayIndex_store in H1 as [H1 _]. apply ReplayDelta_store in H2.
      eexists files, _, _. split; [reflexivity|]. split.
      * eapply same_store_trans; [exact H1 | exact H2].
      * split; [reflexivity | lia].
    + intros [= <-]. eexists files, _, _. split; [reflexivity|].
      split; [apply same_store_refl|]. split; [reflexivity|]. intros _. split; reflexivity.
  - destruct (Z.ltb_spec 0 (ReadTS f)) as [Hts|Hts].
    + destruct (ReplayIndex enc _) as [b1 [e1|]|] eqn:H1; try discriminate.
      destruct (ReplayDelta enc b1) as [b2 [e2|]|] eqn:H2; try discriminate.
      intros [= <-]. apply ReplayIndex_store in H1 as [H1 _]. apply ReplayDelta_store in H2.
      eexists files, _, _. split; [reflexivity|]. split.
      * eapply same_store_trans; [exact H1 | exact H2].
      * split; [reflexivity | lia].
    + intros [= <-]. eexists files, _, _. split; [reflexivity|].
      split; [apply same_store_refl|]. split; [reflexivity|]. intros _. split; reflexivity.
Qed.

(** X7. What [newBlock] builds, whenever it returns: an open block on the
    given metadata and file, with [nice] 0 and both [ckpTs] and [maxVisible]
    at the file's [ReadTS]; a node (on the file) exactly on an appendable
    block; and the data file of every column of the schema, and of no other
    column. When [ReadTS] is 0 nothing is replayed: the index and the chains
    of the handle are as they were created, empty. *)
Theorem newBlock_opens_every_column (m : BlockEntry) (f : BlockFile) (blk : dataBlock) :
  newBlock enc m f = Some blk ->
  closed blk = false /\ meta blk = m /\ file blk = f /\ nice blk = 0
  /\ ckpTs blk = ReadTS f /\ GetMaxVisibleTS blk = ReadTS f
  /\ node blk = (if IsAppendable m then Some (newNode f) else None)
  /\ (forall i, colFiles blk !! i
                = if decide (i < ColDefs (GetSchema m))%nat then file_columns f !! i
                  else None)
  /\ (forall i, is_Some (colFiles blk !! i) <-> (i < ColDefs (GetSchema m))%nat)
  /\ (ReadTS f <= 0 ->
      index blk = (if IsAppendable m
                   then if HasPK (GetSchema m) then Some NewMutableIndex else None
                   else Some NewImmutableIndex)
      /\ mvcc blk = SetMaxVisible (NewMVCCHandle m) (ReadTS f)).
Proof.
  intros H. destruct (newBlock_store m f blk H) as (files & ix & h & Hf & Hs & Hh & Hfresh).
  destruct Hs as (Hc & Hm & Hn & Hfile & Hcf & Hnice & Hckp & Hvis). simpl in *.
  pose proof (openColFiles_lookup _ _ _ Hf) as Hl.
  pose proof (openColFiles_columns _ _ _ Hf) as Hlen.
  repeat split; try assumption; try (apply Hfresh; assumption).
  - unfold GetMaxVisibleTS. congruence.
  - intros i. rewrite Hcf. apply Hl.
  - rewrite Hcf, Hl. destruct (decide (i < ColDefs (GetSchema m))%nat); [tauto|].
    intros [? ?]; discriminate.
  - intros Hi. rewrite Hcf, Hl. destruct (decide (i < ColDefs (GetSchema m))%nat); [|lia].
    apply lookup_lt_is_Some_2. lia.
Qed.

(** X8. Opening and destroying balance. On a block that [newBlock] built,
    a [Destroy] whose closing of the node does not fail releases the data
    file of each column of the schema exactly once and leaves the block
    holding none. If closing the node fails (an appendable block), no file
    is released, the block still holds them all, and, the block staying
    closed, no later [Destroy] releases any. *)
Theorem newBlock_Destroy_balance (m : BlockEntry) (f : BlockFile) (blk : dataBlock)
    (io : DestroyIO) :
  newBlock enc m f = Some blk ->
  NoDup (Destroy io blk).1.2
  /\ (node_close_fails io blk = false ->
      (forall i, Unref i ∈ (Destroy io blk).1.2 <-> (i < ColDefs (GetSchema m))%nat)
      /\ colFiles (Destroy io blk).1.1 = ∅)
  /\ (node_close_fails io blk = true ->
      IsAppendable m = true
      /\ forall io' i,
           (Unref i ∉ (Destroy io blk).1.2)
           /\ (Unref i ∉ (Destroy io' (Destroy io blk).1.1).1.2)
           /\ ((i < ColDefs (GetSchema m))%nat ->
               is_Some (colFiles (Destroy io' (Destroy io blk).1.1).1.1 !! i))).
Proof.
  intros H. destruct (newBlock_store m f blk H) as (files & ix & h & Hf & Hs & _).
  destruct Hs as (Hc & Hm & Hn & Hfile & Hcf & _). simpl in *.
  pose proof (openColFiles_lookup _ _ _ Hf) as Hl.
  pose proof (openColFiles_columns _ _ _ Hf) as Hlen.
  assert (Hfiles : forall i, is_Some (colFiles blk !! i) <-> (i < ColDefs (GetSchema m))%nat).
  { intros i. rewrite Hcf, Hl. destruct (decide (i < ColDefs (GetSchema m))%nat).
    - split; [tauto|]. intros _. apply lookup_lt_is_Some_2. lia.
    - split; [intros [? ?]; discriminate | lia]. }
  destruct (Destroy_trace io blk Hc) as (pre & post & Htr & Hpre & Hpost & Hleft).
  split; [|split].
  - rewrite Htr.
    assert (Hmid : (if node_close_fails io blk then []
                    else Unref <$> (map_to_list (colFiles blk)).*1)
                   = Unref <$> (if node_close_fails io blk then []
                                else (map_to_list (colFiles blk)).*1)).
    { destruct (node_close_fails io blk); reflexivity. }
    rewrite Hmid. apply NoDup_around_unrefs.
    + destruct (node_close_fails io blk); [constructor | apply NoDup_fst_map_to_list].
    + destruct Hpre as [-> | ->]; compute_done.
    + destruct Hpost as [-> | [-> | [-> | [-> | [-> | ->]]]]]; compute_done.
    + intros i. destruct Hpre as [-> | ->];
        rewrite ?elem_of_cons, ?elem_of_nil; intuition discriminate.
    + intros i. destruct Hpost as [-> | [-> | [-> | [-> | [-> | ->]]]]];
        rewrite ?elem_of_cons, ?elem_of_nil; intuition discriminate.
    + intros x Hx.
      destruct Hpre as [-> | ->]; [apply elem_of_nil in Hx; contradiction|].
      apply list_elem_of_singleton in Hx as ->.
      destruct Hpost as [-> | [-> | [-> | [-> | [-> | ->]]]]];
        rewrite ?elem_of_cons, ?elem_of_nil; intuition discriminate.
  - intros Hok. split.
    + intros i. rewrite (Destroy_unref_iff io blk i Hc), Hfiles. tauto.
    + rewrite Hleft, Hok. reflexivity.
  - intros Hfail. split.
    + unfold node_close_fails in Hfail. apply bool_decide_eq_true in Hfail as [Hnode _].
      rewrite Hn in Hnode. destruct (IsAppendable m); [reflexivity|].
      destruct Hnode as [? Hnode]; discriminate Hnode.
    + intros io' i.
      pose proof (Destroy_closed io blk) as Hclosed.
      assert (Hnoop : Destroy io' (Destroy io blk).1.1 = ((Destroy io blk).1.1, [], None)).
      { unfold Destroy at 1. rewrite Hclosed. reflexivity. }
      rewrite Hnoop. cbn [fst snd]. split; [|split].
      * rewrite (Destroy_unref_iff io blk i Hc), Hfail. intros [_ ?]; discriminate.
      * apply not_elem_of_nil.
      * rewrite Hleft, Hfail. apply Hfiles.
Qed.

End Stores.

Lemma newBlock_opens_every_column_witness :
  exists blk,
    newBlock encode_sum (meta_of true 2 4) file_s6 = Some blk
    /\ closed blk = false /\ file blk = file_s6
    /\ (forall i, is_Some (colFiles blk !! i) <-> (i < 2)%nat).
Proof.
  eexists. split; [vm_compute; reflexivity|].
  pose proof (newBlock_opens_every_column encode_sum (meta_of true 2 4) file_s6 _
                ltac:(vm_compute; reflexivity)) as H.
  split; [apply H|]. split; [apply H|]. apply H.
Defined.

Lemma newBlock_Destroy_balance_witness :
  exists blk,
    newBlock encode_sum (meta_of true 2 4) file_s6 = Some blk
    /\ forall i, Unref i ∈ (Destroy io_all_ok blk).1.2 <-> (i < 2)%nat.
Proof.
  eexists. split; [vm_compute; reflexivity|].
  apply (newBlock_Destroy_balance encode_sum (meta_of true 2 4) file_s6 _ io_all_ok
           ltac:(vm_compute; reflexivity)).
  reflexivity.
Defined.

(** * Writers *)

Lemma mask_overlaps_true (mask : gset nat) (s e : nat) :
  mask_overlaps mask s e = true <-> exists r, r ∈ mask /\ (s <= r <= e)%nat.
Proof.
  unfold mask_overlaps, rows_between. rewrite existsb_exists. split.
  - intros (r & Hin & Hr). apply bool_decide_eq_true in Hr. apply in_seq in Hin.
    exists r. split; [exact Hr | lia].
  - intros (r & Hr & Hse). exists r. split; [apply in_seq; lia | apply bool_decide_eq_true, Hr].
Qed.

Lemma PrepareRangeDelete_None_ts (ds : list DeleteNode) (s e : nat) (ts ts' : Z) :
  PrepareRangeDelete ds s e ts = None -> PrepareRangeDelete ds s e ts' = None.
Proof.
  induction ds as [|n ds IH]; simpl; [reflexivity|].
  destruct (mask_overlaps (dn_mask n) s e); [discriminate | exact IH].
Qed.

Lemma PrepareRangeDelete_None (ds : list DeleteNode) (s e : nat) (ts : Z) :
  PrepareRangeDelete ds s e ts = None
  <-> forall n, n ∈ ds -> mask_overlaps (dn_mask n) s e = false.
Proof.
  induction ds as [|n ds IH]; simpl.
  - split; [intros _ n Hn; apply elem_of_nil in Hn; contradiction | reflexivity].
  - destruct (mask_overlaps (dn_mask n) s e) eqn:Ho.
    + split; [discriminate|]. intros H. specialize (H n (list_elem_of_here _ _)). congruence.
    + rewrite IH. split.
      * intros H n' [->|Hn']%elem_of_cons; [exact Ho | exact (H n' Hn')].
      * intros H n' Hn'. apply H, list_elem_of_further, Hn'.
Qed.

Lemma latest_update_uncommitted (n : ColumnNode) (chain : ColumnChain) (row : nat) (ts : Z) :
  cn_commit n = None -> latest_update (n :: chain) row ts = latest_update chain row ts.
Proof.
  intros Hn. cbn [latest_update]. unfold visible_update. rewrite Hn. reflexivity.
Qed.

Lemma GetValueLocked_uncommitted (n : ColumnNode) (chain : ColumnChain) (row : nat) (ts : Z) :
  cn_commit n = None -> cn_unknown n = false ->
  GetValueLocked (n :: chain) row ts = GetValueLocked chain row ts.
Proof.
  intros Hn Hk. unfold GetValueLocked, update_undecided. cbn [existsb].
  rewrite Hk, (latest_update_uncommitted n chain row ts Hn). reflexivity.
Qed.

Lemma GetValue_congr (b b' : dataBlock) (txn : AsyncTxn) (row col : nat) :
  meta b' = meta b -> node b' = node b -> colFiles b' = colFiles b ->
  appends (mvcc b') = appends (mvcc b) ->
  LoadMaxVisible (mvcc b') = LoadMaxVisible (mvcc b) ->
  IsDeletedLocked (mvcc b') row (GetStartTS txn)
  = IsDeletedLocked (mvcc b) row (GetStartTS txn) ->
  GetValueLocked (GetColumnChain (mvcc b') col) row (GetStartTS txn)
  = GetValueLocked (GetColumnChain (mvcc b) col) row (GetStartTS txn) ->
  GetValue b' txn row col = GetValue b txn row col.
Proof.
  intros Hm Hn Hc Ha Hv Hd Hl.
  unfold GetValue, getVectorCopy, getVectorWrapper, GetMaxVisibleTS,
    GetMaxVisibleRowLocked in *.
  rewrite Hm, Hn, Hc, Ha, Hv, Hd, Hl. reflexivity.
Qed.

Lemma updateWithFineLock_cases (blk : dataBlock) (txn : AsyncTxn) (row col : nat) (v : val) :
  updateWithFineLock blk txn row col v =
  match CheckNotDeleted (mvcc blk) row row (GetStartTS txn) with
  | Some e => (blk, None, Some e)
  | None =>
      let chain := GetColumnChain (mvcc blk) col in
      if chain_conflicts chain row row (GetStartTS txn)
      then (set_mvcc blk (set_chain (mvcc blk) col chain),
            Some {| cn_start := GetStartTS txn; cn_commit := None; cn_vals := ∅;
                    cn_unknown := false |},
            Some TxnWWConflictErr)
      else
        let node := {| cn_start := GetStartTS txn; cn_commit := None;
                       cn_vals := <[row := v]> ∅; cn_unknown := false |} in
        (set_mvcc blk (set_chain (mvcc blk) col (node :: chain)), Some node, None)
  end.
Proof.
  unfold updateWithFineLock, AddNodeLocked, TryUpdateNodeLocked, DeleteNodeLocked.
  destruct (CheckNotDeleted _ _ _ _); [reflexivity|]. cbn [cn_start cn_commit cn_vals].
  destruct (chain_conflicts _ _ _ _); reflexivity.
Qed.

Lemma set_chain_frame (blk : dataBlock) (col : nat) (chain : ColumnChain) :
  same_store blk (set_mvcc blk (set_chain (mvcc blk) col chain))
  /\ index (set_mvcc blk (set_chain (mvcc blk) col chain)) = index blk
  /\ deletes (mvcc (set_mvcc blk (set_chain (mvcc blk) col chain))) = deletes (mvcc blk)
  /\ appends (mvcc (set_mvcc blk (set_chain (mvcc blk) col chain))) = appends (mvcc blk)
  /\ (forall c, c <> col ->
        GetColumnChain (mvcc (set_mvcc blk (set_chain (mvcc blk) col chain))) c
        = GetColumnChain (mvcc blk) c).
Proof.
  split; [apply same_store_set_mvcc; reflexivity|]. repeat split.
  intros c Hc. cbn [mvcc set_mvcc]. rewrite GetColumnChain_set_chain.
  destruct (decide (col = c)); [congruence | reflexivity].
Qed.

Lemma set_chain_reads (blk : dataBlock) (col : nat) (chain : ColumnChain)
    (txn : AsyncTxn) (r c : nat) :
  GetValueLocked chain r (GetStartTS txn)
  = GetValueLocked (GetColumnChain (mvcc blk) col) r (GetStartTS txn) ->
  GetValue (set_mvcc blk (set_chain (mvcc blk) col chain)) txn r c = GetValue blk txn r c.
Proof.
  intros Hl. apply GetValue_congr; try reflexivity.
  cbn [mvcc set_mvcc]. rewrite GetColumnChain_set_chain.
  destruct (decide (col = c)) as [<-|]; [exact Hl | reflexivity].
Qed.

(** X9. An [Update] touches nothing but the update chain of its column: the
    block's files, node, index, delete chain, append nodes and the chains of
    the other columns stay as they are. A refused update leaves the chain of
    its column as it was too. And until it commits, no other transaction
    reads anything different from before, whether the update was accepted
    or refused. *)
Theorem Update_touches_one_chain (blk : dataBlock) (txn : AsyncTxn) (row col : nat) (v : val) :
  let '(blk', node, err) := Update blk txn row col v in
  same_store blk blk' /\ index blk' = index blk
  /\ deletes (mvcc blk') = deletes (mvcc blk)
  /\ appends (mvcc blk') = appends (mvcc blk)
  /\ (forall c, c <> col -> GetColumnChain (mvcc blk') c = GetColumnChain (mvcc blk) c)
  /\ (is_Some err -> same_chains blk blk')
  /\ same_reads_but (GetStartTS txn) blk blk'.
Proof.
  unfold Update. destruct (bool_decide (HiddenKey (GetSchema (meta blk)) = col)).
  { split; [apply same_store_refl|]. unfold same_chains, same_reads_but. tauto. }
  rewrite updateWithFineLock_cases.
  destruct (CheckNotDeleted _ _ _ _).
  { split; [apply same_store_refl|]. unfold same_chains, same_reads_but. tauto. }
  cbv zeta. destruct (chain_conflicts _ _ _ _).
  - destruct (set_chain_frame blk col (GetColumnChain (mvcc blk) col))
      as (H1 & H2 & H3 & H4 & H5).
    refine (conj H1 (conj H2 (conj H3 (conj H4 (conj H5 (conj _ _)))))).
    + intros _. split; [|exact H3].
      intros c. cbn [mvcc set_mvcc]. rewrite GetColumnChain_set_chain.
      destruct (decide (col = c)) as [<-|]; reflexivity.
    + intros txn' r c _. apply set_chain_reads. reflexivity.
  - match goal with |- context [set_chain _ col ?ch] =>
      destruct (set_chain_frame blk col ch) as (H1 & H2 & H3 & H4 & H5) end.
    refine (conj H1 (conj H2 (conj H3 (conj H4 (conj H5 (conj _ _)))))).
    + intros [e He]. discriminate.
    + intros txn' r c _. apply set_chain_reads.
      apply GetValueLocked_uncommitted; reflexivity.
Qed.

Lemma chain_conflicts_head (n : ColumnNode) (chain : ColumnChain) (s e : nat) (ts : Z) :
  cn_commit n = None -> cn_start n <> ts ->
  (exists r, r ∈ dom (cn_vals n) /\ (s <= r <= e)%nat) ->
  chain_conflicts (n :: chain) s e ts = true.
Proof.
  intros Hc Hs Hr. unfold chain_conflicts. cbn [existsb]. unfold update_conflicts.
  rewrite (proj2 (mask_overlaps_true _ _ _) Hr), Hc.
  destruct (Z.eqb_spec (cn_start n) ts); [contradiction | reflexivity].
Qed.

Lemma CheckNotUpdated_range (h : MVCCHandle) (col : nat) (s e : nat) (ts : Z) :
  chain_conflicts (GetColumnChain h col) s e ts = true ->
  CheckNotUpdated h s e ts = Some TxnWWConflictErr.
Proof.
  intros Hc. unfold CheckNotUpdated.
  destruct (columns h !! col) as [chain|] eqn:Hcol.
  - assert (Hex : existsb (fun kc => chain_conflicts kc.2 s e ts)
                    (map_to_list (columns h)) = true).
    { apply existsb_exists. exists (col, chain). split.
      - apply list_elem_of_In, elem_of_map_to_list. exact Hcol.
      - unfold GetColumnChain in Hc. rewrite Hcol in Hc. exact Hc. }
    rewrite Hex. reflexivity.
  - unfold GetColumnChain in Hc. rewrite Hcol in Hc. discriminate.
Qed.

(** X10. Two writers of one cell conflict. Once a transaction's [Update] of
    a row in a column has been accepted, and until it commits, every
    [Update] of that row in that column by another transaction is refused
    with a write-write conflict and leaves all chains as they are; so is,
    leaving the block as it is, every coarse-lock update of that row in
    whichever column, and every [RangeDelete] of that row alone; and a
    [RangeDelete] of any range holding the row fails and leaves the block
    as it is. *)
Theorem second_writer_conflicts (blk blk' : dataBlock) (txn txn' : AsyncTxn)
    (row col : nat) (v : val) (n : option ColumnNode) :
  Update blk txn row col v = (blk', n, None) ->
  GetStartTS txn' <> GetStartTS txn ->
  (forall v', exists blk'' n',
      Update blk' txn' row col v' = (blk'', n', Some TxnWWConflictErr)
      /\ same_chains blk' blk'')
  /\ (forall c v', updateWithCoarseLock blk' txn' row c v'
                   = (blk', None, Some TxnWWConflictErr))
  /\ RangeDelete blk' txn' row row = (blk', None, Some TxnWWConflictErr)
  /\ (forall s e, (s <= row <= e)%nat ->
        exists err, RangeDelete blk' txn' s e = (blk', None, Some err)).
Proof.
  unfold Update. destruct (bool_decide (HiddenKey (GetSchema (meta blk)) = col)) eqn:Hh;
    [discriminate|].
  rewrite updateWithFineLock_cases.
  destruct (CheckNotDeleted (mvcc blk) row row (GetStartTS txn)) eqn:Hd; [discriminate|].
  cbv zeta. destruct (chain_conflicts _ _ _ _) eqn:Hcc; [discriminate|].
  intros [= <- <-] Hts.
  set (node := {| cn_start := GetStartTS txn; cn_commit := None;
                  cn_vals := <[row := v]> ∅; cn_unknown := false |}).
  set (chain := GetColumnChain (mvcc blk) col).
  set (blk' := set_mvcc blk (set_chain (mvcc blk) col (node :: chain))).
  assert (Hchain : GetColumnChain (mvcc blk') col = node :: chain).
  { unfold blk'. cbn [mvcc set_mvcc]. rewrite GetColumnChain_set_chain.
    destruct (decide (col = col)); [reflexivity | contradiction]. }
  assert (Hdel : forall ts, CheckNotDeleted (mvcc blk') row row ts = None).
  { intros ts. unfold CheckNotDeleted in *. cbn [mvcc set_mvcc deletes set_chain set_columns].
    eapply PrepareRangeDelete_None_ts, Hd. }
  assert (Hconf : forall s e, (s <= row <= e)%nat ->
            chain_conflicts (GetColumnChain (mvcc blk') col) s e (GetStartTS txn') = true).
  { intros s e Hse. rewrite Hchain. apply chain_conflicts_head; [reflexivity | | ].
    - cbn [cn_start node]. congruence.
    - exists row. split; [|exact Hse]. cbn [cn_vals node].
      apply elem_of_dom. rewrite lookup_insert_eq. eauto. }
  split; [|split; [|split]].
  - intros v'. cbn [meta set_mvcc blk']. fold blk'. rewrite Hh.
    rewrite updateWithFineLock_cases, Hdel. cbv zeta.
    rewrite (Hconf row row) by lia.
    eexists _, _. split; [reflexivity|]. split; [|reflexivity].
    intros c. cbn [mvcc set_mvcc]. rewrite GetColumnChain_set_chain.
    destruct (decide (col = c)) as [<-|]; reflexivity.
  - intros c v'. unfold updateWithCoarseLock. rewrite Hdel.
    rewrite (CheckNotUpdated_range (mvcc blk') col row row) by (apply Hconf; lia).
    reflexivity.
  - unfold RangeDelete. rewrite Hdel.
    rewrite (CheckNotUpdated_range (mvcc blk') col row row) by (apply Hconf; lia).
    reflexivity.
  - intros s e Hse. unfold RangeDelete.
    destruct (CheckNotDeleted (mvcc blk') s e (GetStartTS txn')); [eauto|].
    rewrite (CheckNotUpdated_range (mvcc blk') col s e) by (apply Hconf; exact Hse).
    eauto.
Qed.

Lemma second_writer_conflicts_witness :
  exists blk',
    Update blk_history txn250 2 1 77 = (blk', Some {| cn_start := 250; cn_commit := None;
                                                     cn_vals := {[ 2%nat := 77 ]};
                                                        cn_unknown := false |}, None)
    /\ GetStartTS txn170 <> GetStartTS txn250
    /\ RangeDelete blk' txn170 2 2 = (blk', None, Some TxnWWConflictErr).
Proof.
  eexists. split; [vm_compute; reflexivity|]. split; [discriminate|].
  apply (second_writer_conflicts blk_history _ txn250 txn170 2 1 77 _
           ltac:(vm_compute; reflexivity) ltac:(discriminate)).
Defined.

Lemma RangeDelete_cases (blk : dataBlock) (txn : AsyncTxn) (s e : nat) :
  RangeDelete blk txn s e =
  match CheckNotDeleted (mvcc blk) s e (GetStartTS txn) with
  | Some err => (blk, None, Some err)
  | None =>
      match CheckNotUpdated (mvcc blk) s e (GetStartTS txn) with
      | Some err => (blk, None, Some err)
      | None =>
          let node := {| dn_start := GetStartTS txn; dn_commit := None;
                         dn_mask := ∅ ∪ list_to_set (rows_between s e);
                         dn_unknown := false |} in
          (set_mvcc blk (set_deletes (mvcc blk) (node :: deletes (mvcc blk))),
           Some node, None)
      end
  end.
Proof.
  unfold RangeDelete, CreateDeleteNode, RangeDeleteLocked.
  destruct (CheckNotDeleted _ _ _ _); [reflexivity|].
  destruct (CheckNotUpdated _ _ _ _); reflexivity.
Qed.

Lemma elem_of_rows_between (r s e : nat) :
  r ∈ (∅ ∪ list_to_set (rows_between s e) : gset nat) <-> (s <= r <= e)%nat.
Proof.
  rewrite elem_of_union, elem_of_empty, elem_of_list_to_set. unfold rows_between.
  rewrite list_elem_of_In, in_seq. lia.
Qed.

Lemma PrepareRangeDelete_head (n : DeleteNode) (ds : list DeleteNode) (s e : nat) (ts : Z) :
  dn_commit n = None -> (exists r, r ∈ dn_mask n /\ (s <= r <= e)%nat) ->
  PrepareRangeDelete (n :: ds) s e ts = Some TxnWWConflictErr.
Proof.
  intros Hc Hr. cbn [PrepareRangeDelete].
  rewrite (proj2 (mask_overlaps_true _ _ _) Hr), Hc. reflexivity.
Qed.

(** X11. A [RangeDelete] that is accepted installs, at the head of the
    delete chain, an uncommitted node of its transaction holding exactly the
    rows from [start] to [end], and touches nothing else of the block. Until
    it commits no other transaction reads anything different from before,
    and every write of another transaction on a row of the range is refused
    with a write-write conflict and changes nothing: an [Update] in any
    column but the hidden key, a coarse-lock update, and a [RangeDelete] of
    any range holding the row. *)
Theorem RangeDelete_locks_the_range (blk blk' : dataBlock) (txn : AsyncTxn) (s e : nat)
    (n : option DeleteNode) :
  RangeDelete blk txn s e = (blk', n, None) ->
  (exists node,
      n = Some node /\ deletes (mvcc blk') = node :: deletes (mvcc blk)
      /\ dn_start node = GetStartTS txn /\ dn_commit node = None
      /\ forall r, r ∈ dn_mask node <-> (s <= r <= e)%nat)
  /\ same_store blk blk' /\ index blk' = index blk
  /\ columns (mvcc blk') = columns (mvcc blk)
  /\ appends (mvcc blk') = appends (mvcc blk)
  /\ same_reads_but (GetStartTS txn) blk blk'
  /\ (forall txn' r, GetStartTS txn' <> GetStartTS txn -> (s <= r <= e)%nat ->
        (forall c v, HiddenKey (GetSchema (meta blk)) <> c ->
                     Update blk' txn' r c v = (blk', None, Some TxnWWConflictErr))
        /\ (forall c v, updateWithCoarseLock blk' txn' r c v
                        = (blk', None, Some TxnWWConflictErr))
        /\ (forall s' e', (s' <= r <= e')%nat ->
              RangeDelete blk' txn' s' e' = (blk', None, Some TxnWWConflictErr))).
Proof.
  rewrite RangeDelete_cases.
  destruct (CheckNotDeleted _ _ _ _); [discriminate|].
  destruct (CheckNotUpdated _ _ _ _); [discriminate|].
  cbv zeta. intros [= <- <-].
  set (node := {| dn_start := GetStartTS txn; dn_commit := None;
                  dn_mask := ∅ ∪ list_to_set (rows_between s e); dn_unknown := false |}).
  set (blk' := set_mvcc blk (set_deletes (mvcc blk) (node :: deletes (mvcc blk)))).
  split.
  { exists node. split; [reflexivity|]. split; [reflexivity|]. split; [reflexivity|].
    split; [reflexivity|]. intros r. apply elem_of_rows_between. }
  split; [apply same_store_set_mvcc; reflexivity|].
  split; [reflexivity|]. split; [reflexivity|]. split; [reflexivity|]. split.
  - intros txn' r c _. apply GetValue_congr; reflexivity.
  - intros txn' r Hts Hr.
    assert (Hdel : forall s' e', (s' <= r <= e')%nat ->
              CheckNotDeleted (mvcc blk') s' e' (GetStartTS txn') = Some TxnWWConflictErr).
    { intros s' e' Hse. unfold CheckNotDeleted. cbn [mvcc set_mvcc deletes set_deletes blk'].
      apply PrepareRangeDelete_head; [reflexivity|].
      exists r. split; [apply elem_of_rows_between, Hr | exact Hse]. }
    split; [|split].
    + intros c v Hc. unfold Update. cbn [meta set_mvcc blk'].
      rewrite bool_decide_eq_false_2 by exact Hc.
      rewrite updateWithFineLock_cases, Hdel by lia. reflexivity.
    + intros c v. unfold updateWithCoarseLock. rewrite Hdel by lia. reflexivity.
    + intros s' e' Hse. rewrite RangeDelete_cases, Hdel by exact Hse. reflexivity.
Qed.

Lemma RangeDelete_locks_the_range_witness :
  exists blk' node,
    RangeDelete blk_history txn250 0 0 = (blk', Some node, None)
    /\ deletes (mvcc blk') = node :: deletes (mvcc blk_history)
    /\ Update blk' txn170 0 1 5 = (blk', None, Some TxnWWConflictErr).
Proof.
  eexists _, _. split; [vm_compute; reflexivity|].
  pose proof (RangeDelete_locks_the_range blk_history _ txn250 0 0 _
                ltac:(vm_compute; reflexivity)) as (Hn & _ & _ & _ & _ & _ & Hw).
  split.
  - destruct Hn as (node & [= <-] & Hd & _). exact Hd.
  - apply (Hw txn170 0%nat); [discriminate | lia | discriminate].
Defined.

(** * Reads *)

Lemma getVectorCopy_nil_view (blk : dataBlock) (nd : appendableNode) (ts : Z) (col : nat) :
  ts < GetMaxVisibleTS blk ->
  (forall a, a ∈ appends (mvcc blk) -> committed_at (an_commit a) ts = false) ->
  getVectorCopy blk nd ts col = (None, None).
Proof.
  intros Hts Hnone. unfold getVectorCopy, GetMaxVisibleRowLocked.
  destruct (Z.leb_spec (GetMaxVisibleTS blk) ts) as [|_]; [lia|].
  assert (Hvis : filter (fun n => committed_at (an_commit n) ts = true)
                   (appends (mvcc blk)) = []).
  { induction (appends (mvcc blk)) as [|a l IH]; [reflexivity|].
    rewrite filter_cons. destruct (decide _) as [Hc|_].
    - rewrite (Hnone a (list_elem_of_here _ _)) in Hc. discriminate.
    - apply IH. intros a' Ha'. apply Hnone, list_elem_of_further, Ha'. }
  rewrite Hvis. reflexivity.
Qed.

(** X12. A read that sees no row fails hard. On an appendable block, for a
    transaction that started before [maxVisible] and before every append
    was committed, [GetValue] of a row that is neither deleted nor updated
    at that time dereferences the nil view [getVectorCopy] returns: it
    panics, it does not answer [NotFound]. *)
Theorem GetValue_panics_without_visible_rows (blk : dataBlock) (nd : appendableNode)
    (txn : AsyncTxn) (row col : nat) :
  IsAppendable (meta blk) = true -> node blk = Some nd ->
  GetStartTS txn < GetMaxVisibleTS blk ->
  (forall a, a ∈ appends (mvcc blk) -> committed_at (an_commit a) (GetStartTS txn) = false) ->
  IsDeletedLocked (mvcc blk) row (GetStartTS txn) = (false, None) ->
  GetValueLocked (GetColumnChain (mvcc blk) col) row (GetStartTS txn)
  = (None, Some ErrNotFound) ->
  GetValue blk txn row col = Panics.
Proof.
  intros Happ Hnode Hts Hnone Hdel Hupd.
  unfold GetValue. rewrite Hdel, Hupd, Happ, Hnode.
  cbn [negb bool_decide orb].
  rewrite (getVectorCopy_nil_view blk nd (GetStartTS txn) col Hts Hnone).
  reflexivity.
Qed.

Lemma GetValue_panics_without_visible_rows_witness :
  GetValue blk_history txn50 2 0 = Panics.
Proof.
  apply (GetValue_panics_without_visible_rows blk_history
           {| rows := 3; data := [[1; 2; 3]; [10; 20; 30]] |});
    try reflexivity.
  intros a Ha. apply list_elem_of_singleton in Ha as ->. reflexivity.
Defined.

(** X13. The answers of [GetValue]. Whenever it returns, it returns one of:
    a value and no error, the row not being deleted; no value and
    [NotFound], the handle having answered that the row is deleted; no
    value and the error [IsDeletedLocked] gave; no value and
    [TxnInternalErr], given by the chain of the column for a row that is
    not deleted. It never returns a nil value without an error: every other
    error of the chain is dropped, and a cell that is then not in the base
    column makes it panic. *)
Theorem GetValue_answers (blk : dataBlock) (txn : AsyncTxn) (row col : nat)
    (v : option val) (err : option error) :
  GetValue blk txn row col = Returns v err ->
  let del := IsDeletedLocked (mvcc blk) row (GetStartTS txn) in
  let upd := GetValueLocked (GetColumnChain (mvcc blk) col) row (GetStartTS txn) in
  (is_Some v /\ err = None /\ del = (false, None))
  \/ (v = None /\ err = Some ErrNotFound /\ del = (true, None))
  \/ (v = None /\ is_Some err /\ del.2 = err)
  \/ (v = None /\ err = Some TxnInternalErr /\ del = (false, None)
      /\ upd = (None, Some TxnInternalErr)).
Proof.
  intros H. cbv zeta. revert H. unfold GetValue.
  destruct (IsDeletedLocked (mvcc blk) row (GetStartTS txn)) as [deleted [e|]].
  { intros [= <- <-]. right. right. left. cbn. eauto. }
  destruct deleted; cbn [negb].
  { cbn. intros [= <- <-]. right. left. tauto. }
  assert (Hupd : forall chain,
            GetValueLocked chain row (GetStartTS txn) = (None, Some TxnInternalErr)
            \/ (exists u, GetValueLocked chain row (GetStartTS txn) = (Some u, None))
            \/ GetValueLocked chain row (GetStartTS txn) = (None, Some ErrNotFound)).
  { intros chain. unfold GetValueLocked.
    destruct (update_undecided _ _); [left; reflexivity|].
    destruct (latest_update _ _ _) as [[c u]|]; eauto. }
  destruct (Hupd (GetColumnChain (mvcc blk) col)) as [Hu | [[u Hu] | Hu]]; rewrite Hu.
  - intros [= <- <-]. right. right. right. tauto.
  - cbn. intros [= <- <-]. left. eauto.
  - cbn [bool_decide orb]. rewrite !bool_decide_eq_false_2 by (intros [? ?]; discriminate).
    cbn [orb].
    destruct (match _ with Some (Some view) => _ | _ => Panics end) eqn:Hr; [|discriminate].
    intros [= <- <-]. left.
    revert Hr.
    repeat match goal with
    | |- context [match ?x with _ => _ end] => destruct x; try discriminate
    end;
    intros [= <- <-]; eauto.
Qed.

Lemma GetValue_answers_witness :
  (is_Some (None : option val) /\ Some TxnInternalErr = None
   /\ IsDeletedLocked (mvcc blk_undecided) 2 250 = (false, None))
  \/ ((None : option val) = None /\ Some TxnInternalErr = Some ErrNotFound
      /\ IsDeletedLocked (mvcc blk_undecided) 2 250 = (true, None))
  \/ ((None : option val) = None /\ is_Some (Some TxnInternalErr)
      /\ (IsDeletedLocked (mvcc blk_undecided) 2 250).2 = Some TxnInternalErr)
  \/ ((None : option val) = None /\ Some TxnInternalErr = Some TxnInternalErr
      /\ IsDeletedLocked (mvcc blk_undecided) 2 250 = (false, None)
      /\ GetValueLocked (GetColumnChain (mvcc blk_undecided) 0) 2 250
         = (None, Some TxnInternalErr)).
Proof.
  apply (GetValue_answers blk_undecided txn250 2 0 None (Some TxnInternalErr)).
  vm_compute. reflexivity.
Defined.

(** * Reopening a block *)

Lemma upsert_from_last (keys : list val) (k : val) (r : nat) :
  upsert_from ∅ keys 0 !! k = Some r
  <-> keys !! r = Some k /\ forall r', (r < r')%nat -> keys !! r' <> Some k.
Proof.
  split.
  - intros H. destruct (upsert_from_origin keys ∅ 0 k r H) as [(i & Hi & ->)|Hm];
      [|rewrite lookup_empty in Hm; discriminate].
    split; [exact Hi|]. intros r' Hlt Hr'.
    destruct (upsert_from_latest keys ∅ 0 r' k Hr') as (r2 & Hr2 & Hle).
    rewrite H in Hr2. injection Hr2 as <-. simpl in *. lia.
  - intros [Hr Hlast].
    destruct (upsert_from_latest keys ∅ 0 r k Hr) as (r2 & Hr2 & Hle).
    destruct (upsert_from_origin keys ∅ 0 k r2 Hr2) as [(i & Hi & ->)|Hm];
      [|rewrite lookup_empty in Hm; discriminate].
    simpl in *. destruct (decide (i = r)) as [->|Hne]; [exact Hr2|].
    exfalso. apply (Hlast i); [lia | exact Hi].
Qed.

Section ReplayIndexAlone.

Variable enc : list val -> val.
Variable me : BlockEntry.
Variable f : BlockFile.
Hypothesis Hwf : wf_file (GetSchema me) f.
Hypothesis Hpk : HasPK (GetSchema me) = true.
Hypothesis Happ : IsAppendable me = true.

(** X14. [ReplayIndex] on its own, on the fresh index of an appendable block
    with a primary key over a readable file: it succeeds, records no
    tombstone, and maps each primary key of the buffer to the last row that
    holds it, before any delete on disk is looked at: a row is in the index
    exactly when no later row has its key. *)
Theorem ReplayIndex_last_row_wins (blk : dataBlock) :
  meta blk = me -> node blk = Some (newNode f) -> index blk = Some NewMutableIndex ->
  exists ix,
    ReplayIndex enc blk = Returns (set_index blk (Some (MutableIndex ix))) None
    /\ tombstones ix = ∅
    /\ forall k r,
         active ix !! k = Some r
         <-> rowKey enc (GetSchema me) (file_columns f) r = Some k
             /\ forall r', (r < r')%nat ->
                           rowKey enc (GetSchema me) (file_columns f) r' <> Some k.
Proof.
  intros Hmeta Hnode Hix.
  destruct (ReplayIndex_keys enc me f Hwf Hpk blk {| active := ∅; tombstones := ∅ |}
              Happ Hmeta Hnode Hix) as (keys & Hrun & Hkeys).
  eexists. split; [exact Hrun|]. split; [reflexivity|].
  intros k r. cbn [active]. rewrite upsert_from_last, Hkeys.
  split; intros [H1 H2]; (split; [exact H1|]); intros r' Hlt; specialize (H2 r' Hlt).
  - rewrite <- Hkeys. exact H2.
  - rewrite Hkeys. exact H2.
Qed.

End ReplayIndexAlone.

Lemma newBlock_immutable_form (enc : list val -> val) (m : BlockEntry) (f : BlockFile)
    (blk : dataBlock) :
  IsAppendable m = false -> newBlock enc m f = Some blk ->
  exists files ix,
    openColFiles f (ColDefs (GetSchema m)) = Some files
    /\ blk = {| closed := false; meta := m; node := None; file := f; colFiles := files;
                index := Some ix; mvcc := SetMaxVisible (NewMVCCHandle m) (ReadTS f);
                nice := 0; ckpTs := ReadTS f |}
    /\ ((ix = NewImmutableIndex /\ (ReadTS f <= 0 \/ HasSortKey (GetSchema m) = false))
        \/ (0 < ReadTS f /\ HasSortKey (GetSchema m) = true
            /\ exists col,
                 files !! GetSingleSortKeyIdx (GetSchema m) = Some col
                 /\ ix = ImmutableIndex {| im_filter := fun k => bool_decide (k ∈ col);
                                           im_fault := None |})).
Proof.
  intros Happ. unfold newBlock. rewrite Happ.
  destruct (openColFiles f (ColDefs (GetSchema m))) as [files|]; [|discriminate].
  destruct (Z.ltb_spec 0 (ReadTS f)) as [Hts|Hts].
  - unfold ReplayIndex, ReplayDelta. cbn [meta index]. rewrite Happ.
    destruct (HasSortKey (GetSchema m)) eqn:Hsk.
    + unfold ReadFrom, getVectorWrapper. cbn [meta colFiles].
      destruct (files !! GetSingleSortKeyIdx (GetSchema m)) as [col|] eqn:Hcol;
        [|discriminate].
      cbn. rewrite Happ. cbn. intros [= <-].
      eexists files, _. split; [reflexivity|]. split; [reflexivity|].
      right. split; [exact Hts|]. split; [reflexivity|]. exists col.
      split; [exact Hcol | reflexivity].
    + cbn. rewrite Happ. cbn. intros [= <-].
      eexists files, _. split; [reflexivity|]. split; [reflexivity|]. left. tauto.
  - intros [= <-]. eexists files, _. split; [reflexivity|]. split; [reflexivity|].
    left. split; [reflexivity | left; lia].
Qed.

(** X15. Reopening an immutable block replays no delta. Whenever [newBlock]
    returns on immutable metadata, the block has no node and its handle is
    as created, with no append node, no update chain and no delete node,
    whatever updates and deletes the file holds; so every cell of the file's
    columns is read back by [GetValue] as it is on disk, by every
    transaction. If moreover [ReadTS] is positive and the schema has a sort
    key, the index is read from the sort-key column: [blkGetByFilter] finds
    each key of that column at the first row that holds it, and answers
    [NotFound] for every other key. *)
Theorem newBlock_immutable_reads_the_file (enc : list val -> val) (m : BlockEntry)
    (f : BlockFile) (blk : dataBlock) :
  IsAppendable m = false -> newBlock enc m f = Some blk ->
  node blk = None
  /\ mvcc blk = SetMaxVisible (NewMVCCHandle m) (ReadTS f)
  /\ (forall txn c r col v,
        (c < ColDefs (GetSchema m))%nat -> file_columns f !! c = Some col ->
        col !! r = Some v -> GetValue blk txn r c = Returns (Some v) None)
  /\ (0 < ReadTS f -> HasSortKey (GetSchema m) = true ->
      exists col,
        file_columns f !! GetSingleSortKeyIdx (GetSchema m) = Some col
        /\ (forall ts key i,
              col !! i = Some key -> (forall j, (j < i)%nat -> col !! j <> Some key) ->
              blkGetByFilter blk ts key = Returns i None)
        /\ (forall ts key, key ∉ col ->
              blkGetByFilter blk ts key = Returns 0%nat (Some ErrNotFound))).
Proof.
  intros Happ H.
  destruct (newBlock_immutable_form enc m f blk Happ H) as (files & ix & Hf & -> & Hix).
  pose proof (openColFiles_lookup _ _ _ Hf) as Hl.
  split; [reflexivity|]. split; [reflexivity|]. split.
  - intros txn c r col v Hc Hcol Hv.
    unfold GetValue, IsDeletedLocked, GetValueLocked, GetColumnChain, getVectorWrapper.
    cbn [mvcc deletes columns SetMaxVisible NewMVCCHandle existsb negb meta colFiles].
    rewrite lookup_empty. cbn [default latest_update]. rewrite Happ, Hl.
    destruct (decide (c < ColDefs (GetSchema m))%nat); [|lia].
    rewrite Hcol. cbn. rewrite Hv. reflexivity.
  - intros Hts Hsk. destruct Hix as [[_ [Hle|Hno]]|(_ & _ & col & Hcol & ->)];
      [lia | congruence |].
    exists col. split; [|split].
    + rewrite Hl in Hcol. destruct (decide _); [exact Hcol | discriminate].
    + intros ts key i Hi Hfirst.
      unfold blkGetByFilter, Dedup, getVectorWrapper, CheckRowExists, IsDeletedLocked.
      cbn [index im_fault im_filter meta colFiles mvcc deletes SetMaxVisible NewMVCCHandle
           existsb].
      rewrite bool_decide_eq_true_2 by (eapply list_elem_of_lookup_2, Hi).
      rewrite bool_decide_eq_true_2 by reflexivity. cbn [negb]. rewrite Hcol.
      assert (Hfind : list_find (fun x => x = key) col = Some (i, key)).
      { apply list_find_Some. split; [exact Hi|]. split; [reflexivity|].
        intros j y Hj Hlt ->. exact (Hfirst j Hlt Hj). }
      rewrite Hfind. reflexivity.
    + intros ts key Hkey.
      unfold blkGetByFilter, Dedup. cbn [index im_fault im_filter].
      rewrite bool_decide_eq_false_2 by exact Hkey. reflexivity.
Qed.

Lemma foldr_replay_ckpTs (l : list (nat * gmap nat val)) (blk : dataBlock) :
  ckpTs (foldr replayColumnNode blk l) = ckpTs blk.
Proof. destruct (replay_updates_shape l blk) as (cs & ->). reflexivity. Qed.

Lemma foldr_replay_chains (l : list (nat * gmap nat val)) (blk : dataBlock) :
  NoDup l.*1 -> (forall k, k ∈ l.*1 -> Z.of_nat k < 65536) ->
  forall c,
    GetColumnChain (mvcc (foldr replayColumnNode blk l)) c
    = match (list_to_map l : gmap nat (gmap nat val)) !! c with
      | Some vals =>
          SetMaskValues (NewCommittedColumnNode (ckpTs blk) (ckpTs blk)) vals
          :: GetColumnChain (mvcc blk) c
      | None => GetColumnChain (mvcc blk) c
      end.
Proof.
  induction l as [|[k vals] l IH]; intros Hnd Hlt c.
  - cbn [foldr list_to_map]. rewrite lookup_empty. reflexivity.
  - rewrite fmap_cons in Hnd, Hlt. apply NoDup_cons in Hnd as [Hk Hnd].
    assert (Hk16 : Z.to_nat (uint16 (Z.of_nat k)) = k).
    { specialize (Hlt k (list_elem_of_here _ _)).
      unfold uint16. rewrite Z.mod_small; lia. }
    cbn [foldr list_to_map]. unfold replayColumnNode at 1. rewrite Hk16.
    unfold OnReplayUpdate, OnReplayUpdateNode. cbn [mvcc set_mvcc].
    rewrite GetColumnChain_set_chain, foldr_replay_ckpTs.
    assert (IH' := IH Hnd (fun k' Hk' => Hlt k' (list_elem_of_further _ _ _ Hk'))).
    destruct (decide (k = c)) as [<-|Hne].
    + rewrite lookup_insert_eq, IH'.
      rewrite (not_elem_of_list_to_map_1 l k Hk). reflexivity.
    + rewrite lookup_insert_ne by exact Hne. apply IH'.
Qed.

Lemma replayUpdates_chains (blk : dataBlock) :
  (forall masks c, LoadUpdates (file blk) = Some masks -> is_Some (masks !! c) ->
                   Z.of_nat c < 65536) ->
  forall c,
    GetColumnChain (mvcc (replayUpdates blk)) c
    = match LoadUpdates (file blk) ≫= (fun masks => masks !! c) with
      | Some vals =>
          SetMaskValues (NewCommittedColumnNode (ckpTs blk) (ckpTs blk)) vals
          :: GetColumnChain (mvcc blk) c
      | None => GetColumnChain (mvcc blk) c
      end.
Proof.
  intros Hlt c. unfold replayUpdates.
  destruct (LoadUpdates (file blk)) as [masks|]; [|reflexivity].
  rewrite foldr_replay_chains.
  - rewrite list_to_map_to_list. reflexivity.
  - apply NoDup_fst_map_to_list.
  - intros k Hk. apply elem_of_keys in Hk. exact (Hlt masks k eq_refl Hk).
Qed.

Lemma replayDeletes_chains (enc : list val -> val) (b b' : dataBlock) :
  replayDeletes enc b = Returns b' None ->
  columns (mvcc b') = columns (mvcc b)
  /\ appends (mvcc b') = appends (mvcc b)
  /\ (LoadDeletes (file b)).2 = None
  /\ deletes (mvcc b')
     = match (LoadDeletes (file b)).1 with
       | Some ds => SetDeletes (NewMergedNode (ckpTs b)) ds :: deletes (mvcc b)
       | None => deletes (mvcc b)
       end.
Proof.
  unfold replayDeletes.
  destruct (LoadDeletes (file b)) as [[ds|] [e|]]; try discriminate.
  - unfold OnReplayDelete, OnApply. cbn [meta set_mvcc].
    destruct (IsAppendable (meta b)).
    + intros H. apply ABlkApplyDelete_store in H as [_ H]. rewrite H.
      cbn [mvcc set_mvcc]. tauto.
    + unfold BlkApplyDelete. intros [= <-]. cbn [mvcc set_mvcc]. tauto.
  - intros [= <-]. tauto.
Qed.

(** X16. What was on disk is read back. Whenever [newBlock] returns on
    appendable metadata and a file with a positive [ReadTS] whose update
    region names columns below 2^16, a transaction that starts at or after
    the checkpoint reads, for each row of the file that the delete mask on
    disk does not mark, the value the update region holds for the cell if
    there is one and the cell of the column on disk otherwise; for a row
    that the mask marks it gets [NotFound]; and a transaction that starts
    before the checkpoint sees no row at all: its read of any cell
    panics. *)
Theorem reopened_block_reads_the_disk (enc : list val -> val) (m : BlockEntry)
    (f : BlockFile) (blk : dataBlock) :
  IsAppendable m = true -> 0 < ReadTS f -> newBlock enc m f = Some blk ->
  (forall masks c, LoadUpdates f = Some masks -> is_Some (masks !! c) ->
                   Z.of_nat c < 65536) ->
  forall txn r c,
    (ReadTS f <= GetStartTS txn ->
       (r ∈ diskDeletes f -> GetValue blk txn r c = Returns None (Some ErrNotFound))
       /\ (forall col base,
             r ∉ diskDeletes f -> (r < ReadRows f)%nat ->
             file_columns f !! c = Some col -> col !! r = Some base ->
             GetValue blk txn r c
             = Returns (Some (default base (diskUpdates f c r))) None))
    /\ (GetStartTS txn < ReadTS f -> GetValue blk txn r c = Panics).
Proof.
  intros Happ Hts H H16 txn r c. revert H. unfold newBlock. rewrite Happ.
  destruct (openColFiles f (ColDefs (GetSchema m))) as [files|]; [|discriminate].
  destruct (Z.ltb_spec 0 (ReadTS f)) as [_|]; [|lia].
  destruct (ReplayIndex enc _) as [b1 [e1|]|] eqn:H1; try discriminate.
  destruct (ReplayDelta enc b1) as [b2 [e2|]|] eqn:H2; try discriminate.
  intros [= <-].
  apply ReplayIndex_store in H1 as [(_ & Hm1 & Hn1 & Hf1 & _ & _ & Hck1 & _) Hmv1].
  cbn [meta node file ckpTs mvcc] in Hm1, Hn1, Hf1, Hck1, Hmv1.
  revert H2. unfold ReplayDelta. rewrite Hm1, Happ, Hn1. cbn [negb].
  set (b1' := set_mvcc b1 _). intros H2.
  pose proof (ReplayDelta_store enc b1 b2 None) as Hst. unfold ReplayDelta in Hst.
  rewrite Hm1, Happ, Hn1 in Hst. specialize (Hst H2).
  destruct Hst as (_ & Hm2 & Hn2 & _ & _ & _ & _ & Hv2).
  rewrite Hm1 in Hm2. rewrite Hn1 in Hn2. rewrite Hmv1 in Hv2. cbn in Hv2.
  apply replayDeletes_chains in H2 as (Hcols & Happs & Herr & Hdels).
  destruct (replayUpdates_store b1') as (Hs & _ & Hd & Ha).
  destruct Hs as (_ & _ & _ & Hfu & _ & _ & Hcku & _).
  assert (Hfile : file (replayUpdates b1') = f) by (rewrite Hfu; exact Hf1).
  assert (Hckp : ckpTs (replayUpdates b1') = ReadTS f) by (rewrite Hcku; exact Hck1).
  rewrite Hfile in Herr, Hdels. rewrite Hckp, Hd in Hdels. rewrite Ha in Happs.
  cbn [mvcc set_mvcc b1' deletes appends OnReplayAppendNode set_appends] in Hdels, Happs.
  rewrite Hmv1 in Hdels, Happs. cbn in Hdels, Happs.
  assert (Hchain : GetColumnChain (mvcc b2) c
                   = match LoadUpdates f ≫= (fun masks => masks !! c) with
                     | Some vals =>
                         [SetMaskValues (NewCommittedColumnNode (ReadTS f) (ReadTS f)) vals]
                     | None => []
                     end).
  { unfold GetColumnChain at 1. rewrite Hcols.
    change (default [] (columns (mvcc (replayUpdates b1')) !! c))
      with (GetColumnChain (mvcc (replayUpdates b1')) c).
    rewrite replayUpdates_chains.
    - assert (Hf' : file b1' = f) by exact Hf1.
      assert (Hc' : ckpTs b1' = ReadTS f) by exact Hck1.
      assert (He : GetColumnChain (mvcc b1') c = []).
      { unfold GetColumnChain, b1'. cbn. rewrite Hmv1. cbn. rewrite lookup_empty.
        reflexivity. }
      rewrite Hf', Hc', He. reflexivity.
    - intros masks c' Hmasks. apply H16. rewrite <- Hmasks. symmetry.
      change (file b1') with (file b1). rewrite Hf1. reflexivity. }
  assert (Hdel : IsDeletedLocked (mvcc b2) r (GetStartTS txn)
                 = ((ReadTS f <=? GetStartTS txn) && bool_decide (r ∈ diskDeletes f),
                    None)).
  { unfold IsDeletedLocked, delete_undecided, diskDeletes. rewrite Hdels.
    destruct (LoadDeletes f).1 as [ds|]; cbn.
    - rewrite orb_false_r. reflexivity.
    - rewrite bool_decide_eq_false_2 by apply not_elem_of_empty.
      rewrite andb_false_r. reflexivity. }
  assert (Hund : update_undecided (GetColumnChain (mvcc b2) c) r = false).
  { rewrite Hchain. destruct (LoadUpdates f ≫= _); reflexivity. }
  split.
  - intros Hle. split.
    + intros Hr. unfold GetValue.
      rewrite Hdel. rewrite (proj2 (Z.leb_le _ _) Hle), bool_decide_eq_true_2 by exact Hr.
      reflexivity.
    + intros col base Hr Hrow Hcol Hbase.
      unfold GetValue, GetValueLocked, getVectorCopy, GetMaxVisibleTS.
      rewrite Hdel, Hund, Hchain, Hm2, Hn2, Happ, Hv2.
      rewrite bool_decide_eq_false_2 by exact Hr. rewrite andb_false_r. cbn [negb].
      rewrite (proj2 (Z.leb_le _ _) Hle).
      unfold diskUpdates. destruct (LoadUpdates f) as [masks|]; cbn [mbind option_bind].
      * destruct (masks !! c) as [vals|]; cbn [mbind option_bind latest_update].
        -- unfold visible_update. cbn [cn_commit cn_vals SetMaskValues NewCommittedColumnNode].
           destruct (vals !! r) as [v|]; cbn.
           ++ rewrite (proj2 (Z.leb_le _ _) Hle). reflexivity.
           ++ unfold GetVectorCopy. cbn. rewrite Hcol. cbn.
              rewrite lookup_take_lt by exact Hrow. rewrite Hbase. reflexivity.
        -- cbn. unfold GetVectorCopy. cbn. rewrite Hcol. cbn.
           rewrite lookup_take_lt by exact Hrow. rewrite Hbase. reflexivity.
      * cbn. unfold GetVectorCopy. cbn. rewrite Hcol. cbn.
        rewrite lookup_take_lt by exact Hrow. rewrite Hbase. reflexivity.
  - intros Hlt.
    assert (Hnil : getVectorCopy b2 (newNode f) (GetStartTS txn) c = (None, None)).
    { apply getVectorCopy_nil_view.
      - unfold GetMaxVisibleTS. rewrite Hv2. exact Hlt.
      - rewrite Happs. intros a Ha'. apply list_elem_of_singleton in Ha' as ->.
        cbn. rewrite Hck1. apply Z.leb_gt. exact Hlt. }
    assert (Hupd : latest_update (GetColumnChain (mvcc b2) c) r (GetStartTS txn) = None).
    { rewrite Hchain. destruct (LoadUpdates f ≫= _) as [vals|]; [|reflexivity].
      cbn [latest_update]. unfold visible_update. cbn.
      destruct (vals !! r); [|reflexivity].
      rewrite (proj2 (Z.leb_gt _ _) Hlt). reflexivity. }
    unfold GetValue, GetValueLocked.
    rewrite Hdel, Hund, Hupd, Hm2, Hn2, Happ, Hnil.
    rewrite (proj2 (Z.leb_gt _ _) Hlt). reflexivity.
Qed.

Lemma wf_file_s6 : wf_file (schema_of 2 4) file_s6.
Proof.
  constructor.
  - reflexivity.
  - repeat constructor.
  - intros k [= <-]. split; [discriminate|]. repeat constructor.
  - reflexivity.
  - intros r Hr. change (diskDeletes file_s6) with ({[ 0%nat ]} : gset nat) in Hr.
    apply elem_of_singleton in Hr. subst r. simpl. lia.
Qed.

Lemma ReplayIndex_last_row_wins_witness :
  exists ix,
    ReplayIndex encode_sum blk_s6_fresh
    = Returns (set_index blk_s6_fresh (Some (MutableIndex ix))) None
    /\ tombstones ix = ∅
    /\ forall k r,
         active ix !! k = Some r
         <-> rowKey encode_sum (schema_of 2 4) (file_columns file_s6) r = Some k
             /\ forall r', (r < r')%nat ->
                           rowKey encode_sum (schema_of 2 4) (file_columns file_s6) r'
                           <> Some k.
Proof.
  exact (ReplayIndex_last_row_wins encode_sum (meta_of true 2 4) file_s6 wf_file_s6
           eq_refl eq_refl blk_s6_fresh eq_refl eq_refl eq_refl).
Defined.

Lemma newBlock_immutable_reads_the_file_witness :
  exists blk,
    newBlock encode_sum (meta_of false 2 4) file_s6 = Some blk
    /\ GetValue blk txn50 0 1 = Returns (Some 10) None
    /\ mvcc blk = SetMaxVisible (NewMVCCHandle (meta_of false 2 4)) 100
    /\ blkGetByFilter blk 250 2 = Returns 1%nat None.
Proof.
  eexists. split; [vm_compute; reflexivity|].
  pose proof (newBlock_immutable_reads_the_file encode_sum (meta_of false 2 4) file_s6 _
                eq_refl ltac:(vm_compute; reflexivity)) as (_ & Hm & Hread & Hfilter).
  split; [|split; [exact Hm|]].
  - apply (Hread txn50 1%nat 0%nat [10; 20; 30] 10); [simpl; lia | reflexivity | reflexivity].
  - destruct (Hfilter ltac:(simpl; lia) eq_refl) as (col & Hcol & Hfind & _).
    apply (Hfind 250 2 1%nat).
    + vm_compute in Hcol. injection Hcol as <-. reflexivity.
    + vm_compute in Hcol. injection Hcol as <-.
      intros [|j] Hj; [discriminate | lia].
Defined.

Lemma reopened_block_reads_the_disk_witness :
  exists blk,
    newBlock encode_sum (meta_of true 2 4) file_s6 = Some blk
    /\ GetValue blk txn250 0 1 = Returns None (Some ErrNotFound)
    /\ GetValue blk txn250 2 1 = Returns (Some 33) None
    /\ GetValue blk txn250 1 1 = Returns (Some 20) None
    /\ GetValue blk txn50 1 1 = Panics.
Proof.
  eexists. split; [vm_compute; reflexivity|].
  assert (H16 : forall masks c, LoadUpdates file_s6 = Some masks -> is_Some (masks !! c) ->
                                Z.of_nat c < 65536).
  { intros masks c [= <-] [vals Hc].
    destruct (decide (c = 1%nat)) as [->|Hne]; [lia|].
    rewrite lookup_singleton_ne in Hc by congruence. discriminate. }
  pose proof (reopened_block_reads_the_disk encode_sum (meta_of true 2 4) file_s6 _
                eq_refl ltac:(simpl; lia) ltac:(vm_compute; reflexivity) H16) as H.
  split; [|split; [|split]].
  - apply (H txn250 0%nat 1%nat); [simpl; lia|].
    change (diskDeletes file_s6) with ({[ 0%nat ]} : gset nat). apply elem_of_singleton.
    reflexivity.
  - apply (proj2 (proj1 (H txn250 2%nat 1%nat) ltac:(simpl; lia)) [10; 20; 30] 30);
      [ change (diskDeletes file_s6) with ({[ 0%nat ]} : gset nat);
        intros Hin; apply elem_of_singleton in Hin; discriminate
      | simpl; lia | reflexivity | reflexivity ].
  - apply (proj2 (proj1 (H txn250 1%nat 1%nat) ltac:(simpl; lia)) [10; 20; 30] 20);
      [ change (diskDeletes file_s6) with ({[ 0%nat ]} : gset nat);
        intros Hin; apply elem_of_singleton in Hin; discriminate
      | simpl; lia | reflexivity | reflexivity ].
  - apply (H txn50 1%nat 1%nat). simpl. lia.
Defined.


(** * More on scores *)

(** X17. Where [EstimateScore] is defined (it is not where the conversion of
    [factor * 100] to an integer is left to the implementation, as on a
    block without rows that has changes), the score the scheduler gets is
    never negative (for a [nice] that is not), and it is 0 in two cases
    only: a full appendable block that is dropped or being dropped, and a
    block that is not full and has nothing to do. *)
Theorem EstimateScore_zero_iff (blk blk' : dataBlock) (s : Z) :
  0 <= nice blk -> EstimateScore blk = Some (s, blk') ->
  0 <= s
  /\ (s = 0 <->
      (isFull blk = true
       /\ IsDroppedCommitted (meta blk) || IsDroppedUncommitted (meta blk) = true)
      \/ (isFull blk = false /\ nothingToDo blk = true)).
Proof.
  intros Hnice. unfold EstimateScore. fold (isFull blk).
  destruct (isFull blk) eqn:Hfull.
  - destruct (IsDroppedCommitted (meta blk) || IsDroppedUncommitted (meta blk));
      intros [= <- <-]; (split; [lia|]).
    + split; [intros _; left; split; reflexivity | reflexivity].
    + split; [lia | intros [[_ ?]|[? _]]; discriminate].
  - destruct (estimateRawScore blk) as [r|] eqn:Hr; [|discriminate].
    rewrite estimateRawScore_cases, Hfull in Hr.
    destruct (nothingToDo blk).
    + injection Hr as <-. cbn. intros [= <- <-]. split; [lia|]. split; [tauto | lia].
    + destruct (F64.to_int _) as [t|] eqn:Ht; [|discriminate].
      apply (to_int_nonneg _ _ (rawFactor_nonneg blk)) in Ht. injection Hr as <-.
      assert (Hpos : 0 < (if t =? 0 then 1 else t)) by (destruct (Z.eqb_spec t 0); lia).
      destruct (Z.eqb_spec (if t =? 0 then 1 else t) 0) as [Hz|_]; [lia|].
      intros [= <- <-]. split; [lia|]. split; [lia|].
      intros [[? _]|[_ ?]]; discriminate.
Qed.

Lemma EstimateScore_zero_iff_witness :
  (0 <= 13
   /\ (13 = 0 <->
       (isFull blk_half_percent = true
        /\ IsDroppedCommitted (meta blk_half_percent)
           || IsDroppedUncommitted (meta blk_half_percent) = true)
       \/ (isFull blk_half_percent = false /\ nothingToDo blk_half_percent = true)))
  /\ (0 <= 0
      /\ (0 = 0 <->
          (isFull blk_idle = true
           /\ IsDroppedCommitted (meta blk_idle)
              || IsDroppedUncommitted (meta blk_idle) = true)
          \/ (isFull blk_idle = false /\ nothingToDo blk_idle = true)))
  /\ (0 <= 0
      /\ (0 = 0 <->
          (isFull blk_full_dropping = true
           /\ IsDroppedCommitted (meta blk_full_dropping)
              || IsDroppedUncommitted (meta blk_full_dropping) = true)
          \/ (isFull blk_full_dropping = false /\ nothingToDo blk_full_dropping = true))).
Proof.
  split; [|split].
  - apply (EstimateScore_zero_iff blk_half_percent blk_half_percent 13);
      [simpl; lia | vm_compute; reflexivity].
  - apply (EstimateScore_zero_iff blk_idle (resetNice blk_idle) 0);
      [simpl; lia | vm_compute; reflexivity].
  - apply (EstimateScore_zero_iff blk_full_dropping blk_full_dropping 0);
      [simpl; lia | vm_compute; reflexivity].
Defined.

(** X18. A block opened on a file that was never checkpointed ([ReadTS] 0)
    has nothing to do: its raw score is 100 if it is appendable and the
    file already holds [BlockMaxRows] rows, and 0 otherwise; a calibration
    tick leaves it as it is unless it is full. *)
Theorem new_block_has_nothing_to_do (enc : list val -> val) (m : BlockEntry)
    (f : BlockFile) (blk : dataBlock) :
  ReadTS f <= 0 -> newBlock enc m f = Some blk ->
  Rows blk = Z.of_nat (ReadRows f)
  /\ estimateRawScore blk
     = Some (if IsAppendable m && (Z.of_nat (ReadRows f) =? BlockMaxRows (GetSchema m))
             then 100 else 0)
  /\ (isFull blk = false -> RunCalibration blk = Some blk).
Proof.
  intros Hts H.
  destruct (newBlock_store enc m f blk H) as (files & ix & h & _ & Hs & _ & Hfresh).
  destruct Hs as (_ & Hm & Hn & Hfile & _ & _ & Hckp & _). simpl in *.
  destruct (Hfresh Hts) as [_ Hmv].
  assert (Hrows : Rows blk = Z.of_nat (ReadRows f)).
  { unfold Rows. rewrite Hm, Hn, Hfile. destruct (IsAppendable m); reflexivity. }
  assert (Hraw : estimateRawScore blk
     = Some (if IsAppendable m && (Z.of_nat (ReadRows f) =? BlockMaxRows (GetSchema m))
             then 100 else 0)).
  { rewrite estimateRawScore_cases. unfold isFull, nothingToDo, GetMaxCheckpointTS.
    rewrite Hrows, Hm, Hmv, Hckp. cbn.
    destruct (IsAppendable m); cbn; [|reflexivity].
    destruct (Z.of_nat (ReadRows f) =? BlockMaxRows (GetSchema m)); [reflexivity|].
    rewrite Z.leb_refl. reflexivity. }
  split; [exact Hrows|]. split; [exact Hraw|].
  intros Hfull. unfold RunCalibration. rewrite Hraw.
  unfold isFull in Hfull. rewrite Hrows, Hm in Hfull. rewrite Hfull. reflexivity.
Qed.

Lemma new_block_has_nothing_to_do_witness :
  exists blk,
    newBlock encode_sum (meta_of true 2 4) file_new = Some blk
    /\ estimateRawScore blk = Some 0.
Proof.
  eexists. split; [vm_compute; reflexivity|].
  apply (new_block_has_nothing_to_do encode_sum (meta_of true 2 4) file_new _
           ltac:(simpl; lia) ltac:(vm_compute; reflexivity)).
Defined.

(** * Looking a key up, taking rows out of the index *)

Lemma CheckRowExists_first (col : list val) (key : val) (i : nat) :
  col !! i = Some key -> (forall j, (j < i)%nat -> col !! j <> Some key) ->
  CheckRowExists col key = (i, true).
Proof.
  intros Hi Hfirst. unfold CheckRowExists.
  assert (Hfind : list_find (fun x => x = key) col = Some (i, key)).
  { apply list_find_Some. split; [exact Hi|]. split; [reflexivity|].
    intros j y Hj Hlt ->. exact (Hfirst j Hlt Hj). }
  rewrite Hfind. reflexivity.
Qed.

Lemma CheckRowExists_true (col : list val) (key : val) (i : nat) :
  CheckRowExists col key = (i, true) ->
  col !! i = Some key /\ forall j, (j < i)%nat -> col !! j <> Some key.
Proof.
  unfold CheckRowExists.
  destruct (list_find (fun x => x = key) col) as [[i' x]|] eqn:Hfind; [|discriminate].
  intros [= <-]. apply list_find_Some in Hfind as (Hi & -> & Hfirst).
  split; [exact Hi|]. intros j Hlt Hj. exact (Hfirst j key Hj Hlt eq_refl).
Qed.

(** X19. What [blkGetByFilter] finds. It returns a row without error exactly
    when the index does not rule the key out (it answers
    [PossibleDuplicate]), the sort-key column can be read, the row is the
    first of that column that holds the key, and that row is not deleted at
    the timestamp. Only that first row is looked at: if it is deleted at
    the timestamp the answer is [NotFound], whatever later rows hold; and if
    the handle cannot tell, its error is returned as it is. *)
Theorem blkGetByFilter_finds_first_row (blk : dataBlock) (ts : Z) (key : val) (offset : nat) :
  (blkGetByFilter blk ts key = Returns offset None
   <-> exists ix col,
         index blk = Some ix /\ Dedup ix key = Some ErrPossibleDuplicate
         /\ colFiles blk !! GetSingleSortKeyIdx (GetSchema (meta blk)) = Some col
         /\ col !! offset = Some key
         /\ (forall j, (j < offset)%nat -> col !! j <> Some key)
         /\ IsDeletedLocked (mvcc blk) offset ts = (false, None))
  /\ (forall ix col,
        index blk = Some ix -> Dedup ix key = Some ErrPossibleDuplicate ->
        colFiles blk !! GetSingleSortKeyIdx (GetSchema (meta blk)) = Some col ->
        col !! offset = Some key ->
        (forall j, (j < offset)%nat -> col !! j <> Some key) ->
        (IsDeletedLocked (mvcc blk) offset ts = (true, None) ->
         blkGetByFilter blk ts key = Returns offset (Some ErrNotFound))
        /\ (forall d e, IsDeletedLocked (mvcc blk) offset ts = (d, Some e) ->
                        blkGetByFilter blk ts key = Returns offset (Some e))).
Proof.
  split; [split|].
  - unfold blkGetByFilter, getVectorWrapper.
    destruct (index blk) as [ix|]; [|discriminate].
    destruct (Dedup ix key) as [err|] eqn:Hd; [|discriminate].
    destruct (bool_decide (err = ErrPossibleDuplicate)) eqn:He; cbn [negb];
      [|intros [= _ ->]; discriminate].
    apply bool_decide_eq_true in He as ->.
    destruct (colFiles blk !! _) as [col|] eqn:Hcol; [|discriminate].
    destruct (CheckRowExists col key) as [i [|]] eqn:Hrow; cbn [negb]; [|discriminate].
    apply CheckRowExists_true in Hrow as [Hi Hfirst].
    destruct (IsDeletedLocked (mvcc blk) i ts) as [[|] [e|]] eqn:Hdel; try discriminate.
    intros [= <-]. exists ix, col. tauto.
  - intros (ix & col & Hix & Hd & Hcol & Hi & Hfirst & Hdel).
    unfold blkGetByFilter, getVectorWrapper. rewrite Hix, Hd.
    rewrite bool_decide_eq_true_2 by reflexivity. cbn [negb]. rewrite Hcol.
    rewrite (CheckRowExists_first col key offset Hi Hfirst). cbn [negb].
    rewrite Hdel. reflexivity.
  - intros ix col Hix Hd Hcol Hi Hfirst.
    unfold blkGetByFilter, getVectorWrapper. rewrite Hix, Hd.
    rewrite bool_decide_eq_true_2 by reflexivity. cbn [negb]. rewrite Hcol.
    rewrite (CheckRowExists_first col key offset Hi Hfirst). cbn [negb].
    split; [intros -> | intros d e ->]; reflexivity.
Qed.

Section DeleteListener.

Variable enc : list val -> val.
Variable me : BlockEntry.
Variable f : BlockFile.
Hypothesis Hwf : wf_file (GetSchema me) f.
Hypothesis Hpk : HasPK (GetSchema me) = true.

(** X20. What the delete listener does to the index. On an appendable block
    with a primary key whose index maps keys to rows that hold them,
    [ABlkApplyDelete] of rows of the buffer succeeds, takes out of the
    active map exactly the entries whose row is among the deleted rows, and
    records the timestamp as the tombstone of their keys; an entry whose
    row is not deleted stays, also when an older row with the same key is
    deleted. The handle is not touched. *)
Theorem ABlkApplyDelete_takes_deleted_rows_out (blk : dataBlock) (ix : mutableIndex)
    (deleted : Z) (gen : list nat) (ts : Z) :
  meta blk = me -> node blk = Some (newNode f) -> index blk = Some (MutableIndex ix) ->
  (forall k r, active ix !! k = Some r ->
               rowKey enc (GetSchema me) (file_columns f) r = Some k) ->
  (forall r, r ∈ gen -> (r < ReadRows f)%nat) ->
  exists ix',
    ABlkApplyDelete enc blk deleted gen ts
    = Returns (set_index blk (Some (MutableIndex ix'))) None
    /\ (forall k r, active ix' !! k = Some r <-> active ix !! k = Some r /\ r ∉ gen)
    /\ (forall k r, active ix !! k = Some r -> r ∈ gen -> tombstones ix' !! k = Some ts).
Proof.
  intros Hmeta Hnode Hix Hcons Hgen.
  rewrite (ABlkApplyDelete_keys enc me f Hwf Hpk blk (MutableIndex ix) deleted gen ts
             Hmeta Hnode Hix).
  destruct (applyDeleteRows_spec
              (fun r => rowKey enc (GetSchema me) (file_columns f) r) ts gen ix)
    as (ix' & Hrun & Hact & Htomb & _).
  - intros r Hr. apply (rowKey_is_Some enc me f Hwf Hpk). apply Hgen, Hr.
  - exact Hcons.
  - exists ix'. rewrite Hrun. split; [reflexivity|]. split; assumption.
Qed.

End DeleteListener.

Lemma ABlkApplyDelete_takes_deleted_rows_out_witness :
  exists ix',
    ABlkApplyDelete encode_sum blk_s6_indexed 1 [0%nat] 300
    = Returns (set_index blk_s6_indexed (Some (MutableIndex ix'))) None
    /\ (forall k r, active ix' !! k = Some r
                    <-> (<[1 := 2%nat]> (<[2 := 1%nat]> ∅) : gmap Z nat) !! k = Some r
                        /\ r ∉ [0%nat])
    /\ (forall k r, (<[1 := 2%nat]> (<[2 := 1%nat]> ∅) : gmap Z nat) !! k = Some r ->
                    r ∈ [0%nat] -> tombstones ix' !! k = Some 300).
Proof.
  apply (ABlkApplyDelete_takes_deleted_rows_out encode_sum (meta_of true 2 4) file_s6
           wf_file_s6 eq_refl blk_s6_indexed
           {| active := <[1 := 2%nat]> (<[2 := 1%nat]> ∅); tombstones := ∅ |} 1 [0%nat] 300
           eq_refl eq_refl eq_refl).
  - intros k r. cbn [active].
    destruct (decide (k = 1)) as [->|H1].
    { rewrite lookup_insert_eq. intros [= <-]. reflexivity. }
    rewrite lookup_insert_ne by congruence.
    destruct (decide (k = 2)) as [->|H2].
    { rewrite lookup_insert_eq. intros [= <-]. reflexivity. }
    rewrite lookup_insert_ne by congruence. rewrite lookup_empty. discriminate.
  - intros r Hr. apply list_elem_of_singleton in Hr as ->. simpl. lia.
Defined.
